(** * Strategic deconfliction: trajectory sampling and conflict detection

    A shallow embedding of [trajectory_calculator.py], [deconfliction_engine.py],
    the helpers of [utils.py], the sample lookup of [visualization.py] and
    the analysis pipeline of [app.py], with the properties of the sampler
    and of the detector proved over it.

    Numbers.  Every finite Python number is a rational, so coordinates, times
    and distances are values of [Q], and numeric equality is [Qeq] (Python's
    [==] on numbers), written [==].  The geometry of the sampler and of the
    detector is computed exactly.  Where the code takes a decision on the
    result of one float operation (a threshold [safety_buffer * 0.8], a
    duration [end - start], a distance in time [abs(t - target)]) the
    operation is rounded to the nearest double by [round_double].  Times
    that are [nan], which no rational stands for, are covered by a second
    embedding of the position lookup over floats, in [Float64].
    [math.sqrt] and [math.atan2] are parameters of the development;
    [math.pi] is the rational the interpreter stores.

    Failure.  A Python call either returns, raises, or runs for ever.  The
    embedding returns an [outcome]: [Ok v], [Raise e], or [OutOfFuel] for a
    [while] loop that did not finish within the number of iterations it
    was allowed. *)

From Stdlib Require Import String.
From Stdlib Require Import QArith Qminmax Qround Qabs Qpower Lqa Lia ZArith DecimalString.
From Stdlib Require Import List Bool Permutation Sorting.
Import ListNotations.

Open Scope Q_scope.

(** ** Outcomes of a call *)

Inductive PyError : Set :=
  | ZeroDivisionError
  | ValueError
  | KeyError
  | IndexError.

Inductive outcome (A : Type) : Type :=
  | Ok (a : A)
  | Raise (e : PyError)
  | OutOfFuel.

Arguments Ok {A} a.
Arguments Raise {A} e.
Arguments OutOfFuel {A}.

Definition bind {A B : Type} (m : outcome A) (k : A -> outcome B) : outcome B :=
  match m with
  | Ok a => k a
  | Raise e => Raise e
  | OutOfFuel => OutOfFuel
  end.

Notation "x <- m ;; k" := (bind m (fun x => k))
  (at level 61, m at next level, right associativity).

Fixpoint mapM {A B : Type} (f : A -> outcome B) (l : list A) : outcome (list B) :=
  match l with
  | [] => Ok []
  | a :: l' => b <- f a ;; bs <- mapM f l' ;; Ok (b :: bs)
  end.

(** ** Python's numeric operators on exact numbers *)

Definition Qltb (a b : Q) : bool := negb (Qle_bool b a).

(** [a / b]: true division raises on a zero divisor. *)
Definition py_div (a b : Q) : outcome Q :=
  if Qeq_bool b 0 then Raise ZeroDivisionError else Ok (a / b).

(** [max(a, b)] returns its first argument unless the second is greater;
    [min(a, b)] its first unless the second is smaller. *)
Definition py_max2 (a b : Q) : Q := if Qltb a b then b else a.
Definition py_min2 (a b : Q) : Q := if Qltb b a then b else a.

(** [max(iterable)]: the first greatest element, [ValueError] on an empty one. *)
Definition py_max (l : list Q) : outcome Q :=
  match l with
  | [] => Raise ValueError
  | a :: l' => Ok (fold_left py_max2 l' a)
  end.

(** [a % b] and [a // b]: the remainder has the sign of the divisor, the
    quotient is rounded down. *)
Definition py_mod (a b : Q) : outcome Q :=
  if Qeq_bool b 0 then Raise ZeroDivisionError
  else Ok (a - b * inject_Z (Qfloor (a / b))).

Definition py_floordiv (a b : Q) : outcome Q :=
  if Qeq_bool b 0 then Raise ZeroDivisionError else Ok (inject_Z (Qfloor (a / b))).

(** [int(x)] rounds towards zero; [str(n)] is the decimal text of an integer. *)
Definition py_int (x : Q) : Z := if Qltb x 0 then Qceiling x else Qfloor x.

Definition py_str (n : Z) : string := NilZero.string_of_int (Z.to_int n).

(** [min(iterable)]: the first least element, [ValueError] on an empty one. *)
Definition py_min (l : list Q) : outcome Q :=
  match l with
  | [] => Raise ValueError
  | a :: l' => Ok (fold_left py_min2 l' a)
  end.

(** The value of [math.pi] ([math.pi.as_integer_ratio()]). *)
Definition math_pi : Q := 884279719003555 # 281474976710656.

(** ** Doubles

    A Python float is an IEEE 754 double: a sign, a mantissa below [2 ^ 53]
    and a power of two not below [2 ^ -1074].  An operation on floats
    returns the double nearest to its exact result, the one with the even
    mantissa when two are equally near.  [round_double q] is that double
    for the rational [q].  Beyond the largest double the result is an
    infinity; [2 ^ 1024] and its opposite stand for the two infinities,
    which they match in every comparison with a double. *)

(** For [q > 0], the [k] with [2 ^ k <= q < 2 ^ (k + 1)]. *)
Definition floor_log2 (q : Q) : Z :=
  let l := (Z.log2 (Qnum q) - Z.log2 (Zpos (Qden q)))%Z in
  if Qle_bool (2 ^ l) q then l else (l - 1)%Z.

(** The nearest integer, the even one of two that are equally near. *)
Definition round_half_even (q : Q) : Z :=
  let f := Qfloor q in
  let r := q - inject_Z f in
  if Qltb r (1 # 2) then f
  else if Qltb (1 # 2) r then (f + 1)%Z
  else if Z.even f then f else (f + 1)%Z.

Definition round_double (q : Q) : Q :=
  if Qeq_bool q 0 then 0
  else
    let a := Qabs q in
    let e := Z.max (floor_log2 a - 52) (-1074) in
    let m := round_half_even (a / 2 ^ e) in
    let r := Qred (inject_Z m * 2 ^ e) in
    let r := if Qle_bool (2 ^ 1024) r then 2 ^ 1024 else r in
    if Qltb q 0 then - r else r.

(** [a - b] and [a * b] on floats. *)
Definition double_sub (a b : Q) : Q := round_double (a - b).
Definition double_mul (a b : Q) : Q := round_double (a * b).

Arguments round_double : simpl never.

(** ** [sorted(l, key=...)]: a stable sort that compares keys with [<] *)

Section Sorted.
Context {A K : Type} (key : A -> K) (ltb : K -> K -> bool).

Fixpoint insert_sorted (a : A) (l : list A) : list A :=
  match l with
  | [] => [a]
  | b :: l' =>
      if ltb (key b) (key a) then b :: insert_sorted a l' else a :: b :: l'
  end.

Fixpoint sorted (l : list A) : list A :=
  match l with
  | [] => []
  | a :: l' => insert_sorted a (sorted l')
  end.
End Sorted.

Fixpoint last_opt {A : Type} (l : list A) : option A :=
  match l with
  | [] => None
  | [a] => Some a
  | _ :: l' => last_opt l'
  end.

Fixpoint enumerate_from {A : Type} (i : nat) (l : list A) : list (nat * A) :=
  match l with
  | [] => []
  | a :: l' => (i, a) :: enumerate_from (S i) l'
  end.

Definition enumerate {A : Type} (l : list A) : list (nat * A) := enumerate_from 0 l.

Definition Qnat (n : nat) : Q := inject_Z (Z.of_nat n).

(** ** Data model *)

(** A waypoint as the caller supplies it: [x] and [y] are read
    unconditionally, [z] through [wp.get('z', 50.0)], and [time] only
    after the test ['time' in wp]. *)
Record Waypoint : Set := mkWaypoint {
  wp_x : Q;
  wp_y : Q;
  wp_z : option Q;
  wp_time : option Q
}.

(** The dictionary [{'x', 'y', 'z', 'time'}] of a normalized waypoint or of
    an interpolated position. *)
Record Position : Set := mkPosition {
  pos_x : Q;
  pos_y : Q;
  pos_z : Q;
  pos_time : Q
}.

(** A sampled trajectory point. *)
Record TrajectoryPoint : Set := mkPoint {
  pt_time : Q;
  pt_x : Q;
  pt_y : Q;
  pt_z : Q;
  pt_speed : Q;
  pt_heading : Q
}.

(** ** trajectory_calculator.py *)

Module TrajectoryCalculator.

Definition default_speed : Q := 15.
Definition max_speed : Q := 30.
Definition min_speed : Q := 5.

Definition has_time (wp : Waypoint) : bool :=
  match wp_time wp with Some _ => true | None => false end.

(** [wp['time']] *)
Definition get_time (wp : Waypoint) : outcome Q :=
  match wp_time wp with Some t => Ok t | None => Raise KeyError end.

(** [wp.get('z', 50.0)] *)
Definition get_z (wp : Waypoint) : Q :=
  match wp_z wp with Some z => z | None => 50 end.

Definition _normalize_waypoint_times
    (waypoints : list Waypoint) (start_time end_time : Q) : outcome (list Position) :=
  match waypoints with
  | [] => Ok []
  | _ :: _ =>
      let mission_duration := end_time - start_time in
      normalized <-
        (if forallb has_time waypoints then
           mapM (fun wp =>
                   t <- get_time wp ;;
                   times <- mapM get_time waypoints ;;
                   m <- py_max times ;;
                   r <- py_div t m ;;
                   Ok {| pos_x := wp_x wp; pos_y := wp_y wp; pos_z := get_z wp;
                         pos_time := start_time + r * mission_duration |})
                waypoints
         else
           mapM (fun iw : nat * Waypoint =>
                   let (i, wp) := iw in
                   time_fraction <-
                     (if (1 <? length waypoints)%nat
                      then py_div (Qnat i) (Qnat (length waypoints - 1))
                      else Ok 0) ;;
                   Ok {| pos_x := wp_x wp; pos_y := wp_y wp; pos_z := get_z wp;
                         pos_time := start_time + time_fraction * mission_duration |})
                (enumerate waypoints)) ;;
      Ok (sorted pos_time Qltb normalized)
  end.

(** The [for i in range(len(waypoints) - 1)] scan of
    [_interpolate_position_at_time]; [final] is [waypoints[-1]]. *)
Fixpoint interpolate_scan (waypoints : list Position) (target_time : Q)
    (final : Position) : outcome Position :=
  match waypoints with
  | wp1 :: ((wp2 :: _) as rest) =>
      if Qle_bool (pos_time wp1) target_time && Qle_bool target_time (pos_time wp2) then
        time_ratio <- py_div (target_time - pos_time wp1) (pos_time wp2 - pos_time wp1) ;;
        Ok {| pos_x := pos_x wp1 + time_ratio * (pos_x wp2 - pos_x wp1);
              pos_y := pos_y wp1 + time_ratio * (pos_y wp2 - pos_y wp1);
              pos_z := pos_z wp1 + time_ratio * (pos_z wp2 - pos_z wp1);
              pos_time := target_time |}
      else interpolate_scan rest target_time final
  | _ => Ok final
  end.

Definition _interpolate_position_at_time
    (waypoints : list Position) (target_time : Q) : outcome (option Position) :=
  match waypoints, last_opt waypoints with
  | first :: _, Some final =>
      if Qle_bool target_time (pos_time first) then Ok (Some first)
      else if Qle_bool (pos_time final) target_time then Ok (Some final)
      else p <- interpolate_scan waypoints target_time final ;; Ok (Some p)
  | _, _ => Ok None
  end.

Section Math.
(** [math.sqrt] and [math.atan2]. *)
Variable sqrt : Q -> Q.
Variable atan2 : Q -> Q -> Q.

Fixpoint speed_scan (waypoints : list Position) (target_time : Q) : outcome Q :=
  match waypoints with
  | wp1 :: ((wp2 :: _) as rest) =>
      if Qle_bool (pos_time wp1) target_time && Qle_bool target_time (pos_time wp2) then
        let distance :=
          sqrt ((pos_x wp2 - pos_x wp1) ^ 2 +
                (pos_y wp2 - pos_y wp1) ^ 2 +
                (pos_z wp2 - pos_z wp1) ^ 2) in
        let time_diff := pos_time wp2 - pos_time wp1 in
        if Qltb 0 time_diff then
          speed <- py_div distance time_diff ;;
          Ok (py_max2 min_speed (py_min2 max_speed speed))
        else speed_scan rest target_time
      else speed_scan rest target_time
  | _ => Ok default_speed
  end.

Definition _calculate_speed_at_time
    (waypoints : list Position) (target_time : Q) : outcome Q :=
  if (length waypoints <? 2)%nat then Ok 0 else speed_scan waypoints target_time.

Fixpoint heading_scan (waypoints : list Position) (target_time : Q) : Q :=
  match waypoints with
  | wp1 :: ((wp2 :: _) as rest) =>
      if Qle_bool (pos_time wp1) target_time && Qle_bool target_time (pos_time wp2) then
        let dx := pos_x wp2 - pos_x wp1 in
        let dy := pos_y wp2 - pos_y wp1 in
        atan2 dy dx * 180 / math_pi
      else heading_scan rest target_time
  | _ => 0
  end.

Definition _calculate_heading_at_time
    (waypoints : list Position) (target_time : Q) : Q :=
  if (length waypoints <? 2)%nat then 0 else heading_scan waypoints target_time.

(** The [while current_time <= end_time] loop; one unit of [fuel] per
    iteration. *)
Fixpoint sample_loop (fuel : nat) (normalized_waypoints : list Position)
    (current_time end_time time_step : Q)
    (trajectory_points : list TrajectoryPoint) : outcome (list TrajectoryPoint) :=
  if Qle_bool current_time end_time then
    match fuel with
    | O => OutOfFuel
    | S fuel' =>
        position <- _interpolate_position_at_time normalized_waypoints current_time ;;
        points <-
          match position with
          | Some p =>
              speed <- _calculate_speed_at_time normalized_waypoints current_time ;;
              Ok (trajectory_points ++
                    [ {| pt_time := current_time;
                         pt_x := pos_x p; pt_y := pos_y p; pt_z := pos_z p;
                         pt_speed := speed;
                         pt_heading :=
                           _calculate_heading_at_time normalized_waypoints current_time |} ])
          | None => Ok trajectory_points
          end ;;
        sample_loop fuel' normalized_waypoints (current_time + time_step)
                    end_time time_step points
    end
  else Ok trajectory_points.

(** [calculate_trajectory]'s last step: the end waypoint is appended when
    the last sample is earlier than [end_time]. *)
Definition ensure_end (normalized_waypoints : list Position) (end_time : Q)
    (trajectory_points : list TrajectoryPoint) : outcome (list TrajectoryPoint) :=
  match last_opt trajectory_points with
  | Some last_point =>
      if Qltb (pt_time last_point) end_time then
        match last_opt normalized_waypoints with
        | Some final_position =>
            Ok (trajectory_points ++
                  [ {| pt_time := end_time;
                       pt_x := pos_x final_position;
                       pt_y := pos_y final_position;
                       pt_z := pos_z final_position;
                       pt_speed := 0;
                       pt_heading := pt_heading last_point |} ])
        | None => Raise IndexError
        end
      else Ok trajectory_points
  | None => Ok trajectory_points
  end.

Definition calculate_trajectory (fuel : nat) (waypoints : list Waypoint)
    (start_time end_time time_step : Q) : outcome (list TrajectoryPoint) :=
  if (length waypoints <? 2)%nat then Ok []
  else
    normalized_waypoints <- _normalize_waypoint_times waypoints start_time end_time ;;
    trajectory_points <-
      sample_loop fuel normalized_waypoints start_time end_time time_step [] ;;
    ensure_end normalized_waypoints end_time trajectory_points.

End Math.

(** The dictionary returned by [calculate_trajectory_metrics]. *)
Record TrajectoryMetrics : Set := mkTrajectoryMetrics {
  tm_total_distance : Q;
  tm_max_speed : Q;
  tm_average_altitude : Q;
  tm_duration : Q;
  tm_total_points : nat
}.

Section Metrics.
Variable sqrt : Q -> Q.

(** The loop [for i in range(len(trajectory) - 1)] of
    [calculate_trajectory_metrics]: the length of each segment is added and
    the speed of its first point compared. *)
Fixpoint metrics_loop (trajectory : list TrajectoryPoint) (total_distance max_speed : Q)
    : Q * Q :=
  match trajectory with
  | p1 :: ((p2 :: _) as rest) =>
      let segment_distance :=
        sqrt ((pt_x p2 - pt_x p1) ^ 2 + (pt_y p2 - pt_y p1) ^ 2 +
              (pt_z p2 - pt_z p1) ^ 2) in
      metrics_loop rest (total_distance + segment_distance)
        (py_max2 max_speed (pt_speed p1))
  | _ => (total_distance, max_speed)
  end.

(** [None] stands for the empty dictionary. *)
Definition calculate_trajectory_metrics (trajectory : list TrajectoryPoint)
    : outcome (option TrajectoryMetrics) :=
  match trajectory, last_opt trajectory with
  | first :: _, Some final =>
      let (total_distance, max_speed) := metrics_loop trajectory 0 0 in
      avg_altitude <-
        py_div (fold_left Qplus (map pt_z trajectory) 0) (Qnat (length trajectory)) ;;
      Ok (Some {| tm_total_distance := total_distance;
                  tm_max_speed := max_speed;
                  tm_average_altitude := avg_altitude;
                  tm_duration := pt_time final - pt_time first;
                  tm_total_points := length trajectory |})
  | _, _ => Ok None
  end.

End Metrics.

(** One interior point of [smooth_trajectory]: a copy of [curr_point] with
    its coordinates moved towards the midpoint of its neighbours. *)
Definition smooth_point (smoothing_factor : Q)
    (prev_point curr_point next_point : TrajectoryPoint) : TrajectoryPoint :=
  {| pt_time := pt_time curr_point;
     pt_x := pt_x curr_point +
             smoothing_factor * ((pt_x prev_point + pt_x next_point) / 2 - pt_x curr_point);
     pt_y := pt_y curr_point +
             smoothing_factor * ((pt_y prev_point + pt_y next_point) / 2 - pt_y curr_point);
     pt_z := pt_z curr_point +
             smoothing_factor * ((pt_z prev_point + pt_z next_point) / 2 - pt_z curr_point);
     pt_speed := pt_speed curr_point;
     pt_heading := pt_heading curr_point |}.

(** The loop [for i in range(1, len(trajectory) - 1)]. *)
Fixpoint smooth_interior (smoothing_factor : Q) (trajectory : list TrajectoryPoint)
    : list TrajectoryPoint :=
  match trajectory with
  | prev_point :: ((curr_point :: next_point :: _) as rest) =>
      smooth_point smoothing_factor prev_point curr_point next_point
        :: smooth_interior smoothing_factor rest
  | _ => []
  end.

Definition smooth_trajectory (trajectory : list TrajectoryPoint) (smoothing_factor : Q)
    : list TrajectoryPoint :=
  if (length trajectory <? 3)%nat then trajectory
  else
    match trajectory, last_opt trajectory with
    | first :: _, Some final =>
        [first] ++ smooth_interior smoothing_factor trajectory ++ [final]
    | _, _ => trajectory
    end.

End TrajectoryCalculator.

(** ** utils.py: geometry helpers used by the detector *)

(** A position handed around by the detector is a dictionary: either a
    sample of a trajectory or the dictionary that [interpolate_position]
    builds. *)
Inductive PosDict : Set :=
  | Sample (p : TrajectoryPoint)
  | Interpolated (p : Position).

Definition dict_x (d : PosDict) : Q :=
  match d with Sample p => pt_x p | Interpolated p => pos_x p end.
Definition dict_y (d : PosDict) : Q :=
  match d with Sample p => pt_y p | Interpolated p => pos_y p end.
Definition dict_z (d : PosDict) : Q :=
  match d with Sample p => pt_z p | Interpolated p => pos_z p end.
Definition dict_time (d : PosDict) : Q :=
  match d with Sample p => pt_time p | Interpolated p => pos_time p end.

Module Utils.

Section Math.
Variable sqrt : Q -> Q.

Definition calculate_distance_3d (pos1 pos2 : PosDict) : Q :=
  let dx := dict_x pos1 - dict_x pos2 in
  let dy := dict_y pos1 - dict_y pos2 in
  let dz := dict_z pos1 - dict_z pos2 in
  sqrt (dx * dx + dy * dy + dz * dz).
End Math.

Definition interpolate_position (pos1 pos2 : TrajectoryPoint) (target_time : Q)
    : outcome PosDict :=
  if Qeq_bool (pt_time pos1) (pt_time pos2) then Ok (Sample pos1)
  else
    time_ratio <- py_div (target_time - pt_time pos1) (pt_time pos2 - pt_time pos1) ;;
    let time_ratio := py_max2 0 (py_min2 1 time_ratio) in
    Ok (Interpolated
          {| pos_x := pt_x pos1 + time_ratio * (pt_x pos2 - pt_x pos1);
             pos_y := pt_y pos1 + time_ratio * (pt_y pos2 - pt_y pos1);
             pos_z := pt_z pos1 + time_ratio * (pt_z pos2 - pt_z pos1);
             pos_time := target_time |}).

Section Bearing.
Variable sqrt : Q -> Q.
Variable atan2 : Q -> Q -> Q.

Definition calculate_distance_2d (pos1 pos2 : PosDict) : Q :=
  let dx := dict_x pos1 - dict_x pos2 in
  let dy := dict_y pos1 - dict_y pos2 in
  sqrt (dx * dx + dy * dy).

Definition calculate_bearing (pos1 pos2 : PosDict) : outcome Q :=
  let dx := dict_x pos2 - dict_x pos1 in
  let dy := dict_y pos2 - dict_y pos1 in
  let bearing := atan2 dy dx * 180 / math_pi in
  py_mod (bearing + 360) 360.

End Bearing.



(** [format_time]; the call on [-seconds] takes one unit of [fuel]. *)
Fixpoint format_time (fuel : nat) (seconds : Q) : outcome string :=
  match fuel with
  | O => OutOfFuel
  | S fuel' =>
      if Qltb seconds 0 then
        s <- format_time fuel' (- seconds) ;;
        Ok ("-" ++ s)%string
      else
        q <- py_floordiv seconds 60 ;;
        let minutes := py_int q in
        r <- py_mod seconds 60 ;;
        let remaining_seconds := py_int r in
        if (0 <? minutes)%Z
        then Ok (py_str minutes ++ "m " ++ py_str remaining_seconds ++ "s")%string
        else Ok (py_str remaining_seconds ++ "s")%string
  end.

(** The floats of [calculate_flight_metrics]: rationals, the two
    infinities that the altitude bounds start from, and [nan]. *)
Inductive PyFloat : Set :=
  | Finite (q : Q)
  | PosInf
  | NegInf
  | NaN.

(** [a < b] on floats; every comparison with [nan] is false. *)
Definition float_ltb (a b : PyFloat) : bool :=
  match a, b with
  | Finite x, Finite y => Qltb x y
  | Finite _, PosInf => true
  | NegInf, Finite _ => true
  | NegInf, PosInf => true
  | _, _ => false
  end.

(** [min(a, b)] and [max(a, b)]: the first argument unless the second is
    strictly smaller (greater). *)
Definition float_min2 (a b : PyFloat) : PyFloat := if float_ltb b a then b else a.
Definition float_max2 (a b : PyFloat) : PyFloat := if float_ltb a b then b else a.

Definition float_sub (a b : PyFloat) : PyFloat :=
  match a, b with
  | Finite x, Finite y => Finite (x - y)
  | NaN, _ => NaN
  | _, NaN => NaN
  | PosInf, PosInf => NaN
  | NegInf, NegInf => NaN
  | PosInf, _ => PosInf
  | NegInf, _ => NegInf
  | Finite _, PosInf => NegInf
  | Finite _, NegInf => PosInf
  end.

(** The dictionary returned by [calculate_flight_metrics]. *)
Record FlightMetrics : Set := mkFlightMetrics {
  fm_total_distance : Q;
  fm_duration : Q;
  fm_average_speed : Q;
  fm_max_speed : Q;
  fm_min_altitude : PyFloat;
  fm_max_altitude : PyFloat;
  fm_altitude_range : PyFloat;
  fm_total_waypoints : nat
}.

Section FlightMetrics.
Variable sqrt : Q -> Q.

(** The loop [for i in range(len(trajectory) - 1)] of
    [calculate_flight_metrics]. *)
Fixpoint flight_metrics_loop (trajectory : list TrajectoryPoint)
    (total_distance max_speed : Q) (min_altitude max_altitude : PyFloat)
    : outcome (Q * Q * PyFloat * PyFloat) :=
  match trajectory with
  | p1 :: ((p2 :: _) as rest) =>
      let segment_distance := calculate_distance_3d sqrt (Sample p1) (Sample p2) in
      let total_distance := total_distance + segment_distance in
      let time_diff := pt_time p2 - pt_time p1 in
      max_speed <-
        (if Qltb 0 time_diff then
           speed <- py_div segment_distance time_diff ;;
           Ok (py_max2 max_speed speed)
         else Ok max_speed) ;;
      let min_altitude := float_min2 min_altitude (Finite (pt_z p1)) in
      let max_altitude := float_max2 max_altitude (Finite (pt_z p1)) in
      flight_metrics_loop rest total_distance max_speed min_altitude max_altitude
  | _ => Ok (total_distance, max_speed, min_altitude, max_altitude)
  end.

(** [None] stands for the empty dictionary. *)
Definition calculate_flight_metrics (trajectory : list TrajectoryPoint)
    : outcome (option FlightMetrics) :=
  if (length trajectory <? 2)%nat then Ok None
  else
    r <- flight_metrics_loop trajectory 0 0 PosInf NegInf ;;
    let '(total_distance, max_speed, min_altitude, max_altitude) := r in
    match trajectory, last_opt trajectory with
    | first :: _, Some final =>
        let min_altitude := float_min2 min_altitude (Finite (pt_z final)) in
        let max_altitude := float_max2 max_altitude (Finite (pt_z final)) in
        let duration := pt_time final - pt_time first in
        avg_speed <-
          (if Qltb 0 duration then py_div total_distance duration else Ok 0) ;;
        Ok (Some {| fm_total_distance := total_distance;
                    fm_duration := duration;
                    fm_average_speed := avg_speed;
                    fm_max_speed := max_speed;
                    fm_min_altitude := min_altitude;
                    fm_max_altitude := max_altitude;
                    fm_altitude_range := float_sub max_altitude min_altitude;
                    fm_total_waypoints := length trajectory |})
    | _, _ => Raise IndexError
    end.

End FlightMetrics.

End Utils.

(** ** deconfliction_engine.py *)

Record Flight : Set := mkFlight {
  flight_id : string;
  trajectory : list TrajectoryPoint
}.

Record Location : Set := mkLocation {
  loc_x : Q;
  loc_y : Q;
  loc_z : Q
}.

Record Conflict : Set := mkConflict {
  c_type : string;
  c_time : Q;
  c_location : Location;
  c_distance : Q;
  c_safety_buffer : Q;
  c_severity : string;
  c_severity_score : Q;
  c_other_flight_id : string;
  c_description : string;
  c_primary_position : PosDict;
  c_other_position : PosDict
}.

Record Summary : Set := mkSummary {
  total_checks : nat;
  spatial_violations : nat;
  temporal_violations : nat;
  safe_segments : nat
}.

Record Report : Set := mkReport {
  conflicts : list Conflict;
  summary : Summary;
  is_safe : bool;
  total_conflicts : nat
}.

Module DeconflictionEngine.

(** The keys of [{point['time']: point for point in traj}] followed by
    those of a second dictionary, as [set(...) | set(...)] holds them: one
    representative for each numeric value. *)
Definition add_key (keys : list Q) (k : Q) : list Q :=
  if existsb (Qeq_bool k) keys then keys else keys ++ [k].

Definition time_keys (primary_traj other_traj : list TrajectoryPoint) : list Q :=
  fold_left add_key (map pt_time primary_traj ++ map pt_time other_traj) [].

Definition all_times (primary_traj other_traj : list TrajectoryPoint) : list Q :=
  sorted (fun t : Q => t) Qltb (time_keys primary_traj other_traj).

(** The second loop of [_get_position_at_time]: the latest sample before
    [target_time] and the earliest one after it. *)
Definition bracket_step (target_time : Q)
    (st : option TrajectoryPoint * option TrajectoryPoint) (point : TrajectoryPoint)
    : option TrajectoryPoint * option TrajectoryPoint :=
  let (before_point, after_point) := st in
  if Qltb (pt_time point) target_time then
    match before_point with
    | None => (Some point, after_point)
    | Some b =>
        if Qltb (pt_time b) (pt_time point) then (Some point, after_point) else st
    end
  else if Qltb target_time (pt_time point) then
    match after_point with
    | None => (before_point, Some point)
    | Some a =>
        if Qltb (pt_time point) (pt_time a) then (before_point, Some point) else st
    end
  else st.

Definition _get_position_at_time (trajectory : list TrajectoryPoint) (target_time : Q)
    : outcome (option PosDict) :=
  match find (fun point => Qeq_bool (pt_time point) target_time) trajectory with
  | Some point => Ok (Some (Sample point))
  | None =>
      match fold_left (bracket_step target_time) trajectory (None, None) with
      | (Some before_point, Some after_point) =>
          p <- Utils.interpolate_position before_point after_point target_time ;;
          Ok (Some p)
      | (Some before_point, None) => Ok (Some (Sample before_point))
      | (None, Some after_point) => Ok (Some (Sample after_point))
      | (None, None) => Ok None
      end
  end.

(** The key of [conflicts.sort]: tuples compare lexicographically. *)
Definition conflict_key (c : Conflict) : Q * Q := (c_severity_score c, c_time c).

Definition key_ltb (a b : Q * Q) : bool :=
  Qltb (fst a) (fst b) || (Qeq_bool (fst a) (fst b) && Qltb (snd a) (snd b)).

(** The classification loop of [check_conflicts]. *)
Definition classify (s : Summary) (conflict : Conflict) : Summary :=
  if String.eqb (c_type conflict) "spatial" then
    {| total_checks := total_checks s;
       spatial_violations := spatial_violations s + 1;
       temporal_violations := temporal_violations s;
       safe_segments := safe_segments s |}
  else if String.eqb (c_type conflict) "temporal" then
    {| total_checks := total_checks s;
       spatial_violations := spatial_violations s;
       temporal_violations := temporal_violations s + 1;
       safe_segments := safe_segments s |}
  else s.

(** What one iteration of the loop over [all_times] did. *)
Inductive InstantCheck : Set :=
  | Skipped
  | Measured (distance : Q) (conflict : option Conflict).

Section Math.
(** [math.sqrt], and the text of
    [f"Drones within {distance:.1f}m at time {time_point}s"]. *)
Variable sqrt : Q -> Q.
Variable format_description : Q -> Q -> string.

Definition _create_conflict_record (primary_pos other_pos : PosDict)
    (time_point distance : Q) (other_flight_id : string) (safety_buffer : Q)
    : outcome Conflict :=
  r <- py_div (safety_buffer - distance) safety_buffer ;;
  let severity_score := py_max2 0 r in
  let conflict_type := "spatial"%string in
  let description := format_description distance time_point in
  let severity :=
    if Qltb distance (double_mul safety_buffer (1 # 2)) then "HIGH"%string
    else if Qltb distance (double_mul safety_buffer (round_double (8 # 10)))
    then "MEDIUM"%string
    else "LOW"%string in
  Ok {| c_type := conflict_type;
        c_time := time_point;
        c_location :=
          {| loc_x := (dict_x primary_pos + dict_x other_pos) / 2;
             loc_y := (dict_y primary_pos + dict_y other_pos) / 2;
             loc_z := (dict_z primary_pos + dict_z other_pos) / 2 |};
        c_distance := distance;
        c_safety_buffer := safety_buffer;
        c_severity := severity;
        c_severity_score := severity_score;
        c_other_flight_id := other_flight_id;
        c_description := description;
        c_primary_position := primary_pos;
        c_other_position := other_pos |}.

(** The body of [for time_point in all_times]. *)
Definition check_instant (primary_traj other_traj : list TrajectoryPoint)
    (other_flight_id : string) (safety_buffer time_point : Q) : outcome InstantCheck :=
  primary_pos <- _get_position_at_time primary_traj time_point ;;
  other_pos <- _get_position_at_time other_traj time_point ;;
  match primary_pos, other_pos with
  | Some primary_pos, Some other_pos =>
      let distance := Utils.calculate_distance_3d sqrt primary_pos other_pos in
      if Qltb distance safety_buffer then
        conflict <- _create_conflict_record primary_pos other_pos time_point
                      distance other_flight_id safety_buffer ;;
        Ok (Measured distance (Some conflict))
      else Ok (Measured distance None)
  | _, _ => Ok Skipped
  end.

Fixpoint detect_loop (primary_traj other_traj : list TrajectoryPoint)
    (other_flight_id : string) (safety_buffer : Q)
    (times : list Q) (found : list Conflict) : outcome (list Conflict) :=
  match times with
  | [] => Ok found
  | time_point :: times' =>
      r <- check_instant primary_traj other_traj other_flight_id safety_buffer
             time_point ;;
      detect_loop primary_traj other_traj other_flight_id safety_buffer times'
        match r with
        | Measured _ (Some conflict) => found ++ [conflict]
        | _ => found
        end
  end.

Definition _detect_trajectory_conflicts (primary_traj other_traj : list TrajectoryPoint)
    (other_flight_id : string) (safety_buffer : Q) : outcome (list Conflict) :=
  detect_loop primary_traj other_traj other_flight_id safety_buffer
    (all_times primary_traj other_traj) [].

(** The loop [for other_traj_data in other_trajectories]. *)
Fixpoint check_flights (primary_trajectory : list TrajectoryPoint)
    (other_trajectories : list Flight) (safety_buffer : Q)
    (found : list Conflict) (checks : nat) : outcome (list Conflict * nat) :=
  match other_trajectories with
  | [] => Ok (found, checks)
  | other_traj_data :: rest =>
      let other_trajectory := trajectory other_traj_data in
      let other_flight_id := flight_id other_traj_data in
      traj_conflicts <- _detect_trajectory_conflicts primary_trajectory
                          other_trajectory other_flight_id safety_buffer ;;
      check_flights primary_trajectory rest safety_buffer
        (found ++ traj_conflicts)
        (checks + length primary_trajectory * length other_trajectory)
  end.

Definition check_conflicts (primary_trajectory : list TrajectoryPoint)
    (other_trajectories : list Flight) (safety_buffer : Q) : outcome Report :=
  r <- check_flights primary_trajectory other_trajectories safety_buffer [] 0 ;;
  let (found, checks) := r in
  let analysis_summary :=
    fold_left classify found
      {| total_checks := checks; spatial_violations := 0;
         temporal_violations := 0; safe_segments := 0 |} in
  let found := sorted conflict_key key_ltb found in
  Ok {| conflicts := found;
        summary := analysis_summary;
        is_safe := (length found =? 0)%nat;
        total_conflicts := length found |}.

End Math.

(** A zone of [get_conflict_zones] and a suggestion of [suggest_resolution]. *)
Record Zone : Set := mkZone {
  zone_center : Location;
  zone_radius : Q;
  zone_severity : string;
  zone_time_start : Q;
  zone_time_end : Q;
  zone_conflict_id : string
}.

Record Suggestion : Set := mkSuggestion {
  sg_type : string;
  sg_description : string;
  sg_priority : string;
  sg_conflict_time : Q;
  sg_affected_flight : string
}.

Section Zones.
(** The text of a number inside an f-string. *)
Variable format_number : Q -> string.

Definition conflict_zone (buffer_expansion : Q) (conflict : Conflict) : Zone :=
  {| zone_center := c_location conflict;
     zone_radius := c_safety_buffer conflict * buffer_expansion;
     zone_severity := c_severity conflict;
     zone_time_start := py_max2 0 (c_time conflict - 10);
     zone_time_end := c_time conflict + 10;
     zone_conflict_id :=
       (c_other_flight_id conflict ++ "_" ++ format_number (c_time conflict))%string |}.

Definition get_conflict_zones (conflicts : list Conflict) (buffer_expansion : Q)
    : list Zone :=
  map (conflict_zone buffer_expansion) conflicts.

End Zones.

Definition suggestion_for (conflict : Conflict) : Suggestion :=
  if String.eqb (c_severity conflict) "HIGH" then
    {| sg_type := "altitude_change";
       sg_description := "Recommend altitude separation of ±25m";
       sg_priority := "immediate";
       sg_conflict_time := c_time conflict;
       sg_affected_flight := c_other_flight_id conflict |}
  else if String.eqb (c_severity conflict) "MEDIUM" then
    {| sg_type := "time_shift";
       sg_description := "Delay mission start by 30-60 seconds";
       sg_priority := "high";
       sg_conflict_time := c_time conflict;
       sg_affected_flight := c_other_flight_id conflict |}
  else
    {| sg_type := "route_adjustment";
       sg_description := "Minor route adjustment to increase separation";
       sg_priority := "normal";
       sg_conflict_time := c_time conflict;
       sg_affected_flight := c_other_flight_id conflict |}.

Definition suggest_resolution (conflicts : list Conflict) : list Suggestion :=
  map suggestion_for conflicts.

End DeconflictionEngine.

(** ** Stand-ins for the library functions, for evaluating the model

    The properties below hold for every [math.sqrt] and [math.atan2]; to
    run the model on concrete flights these fill the parameters.
    [sqrt_floor] is exact on squares of integers, [atan2_axes] on the
    coordinate axes. *)

Definition sqrt_floor (q : Q) : Q :=
  Z.sqrt (Qnum q * Zpos (Qden q)) # Qden q.

Definition atan2_axes (y x : Q) : Q :=
  if Qeq_bool y 0 then (if Qltb x 0 then math_pi else 0)
  else if Qeq_bool x 0 then (if Qltb y 0 then - (math_pi / 2) else math_pi / 2)
  else if Qltb 0 x then (if Qltb 0 y then math_pi / 4 else - (math_pi / 4))
  else (if Qltb 0 y then 3 * math_pi / 4 else - (3 * math_pi / 4)).

Definition describe (distance time_point : Q) : string :=
  "Drones within the safety buffer"%string.

(** ** What the detector promises of a record

    [emitted_record b c]: [c] is what [_create_conflict_record] builds for
    a separation below the buffer [b]. *)

Definition severity_of (distance safety_buffer : Q) : string :=
  if Qltb distance (double_mul safety_buffer (1 # 2)) then "HIGH"%string
  else if Qltb distance (double_mul safety_buffer (round_double (8 # 10)))
  then "MEDIUM"%string
  else "LOW"%string.

Definition emitted_record (safety_buffer : Q) (c : Conflict) : Prop :=
  c_type c = "spatial"%string /\
  c_safety_buffer c = safety_buffer /\
  c_distance c < safety_buffer /\
  c_severity_score c = py_max2 0 ((safety_buffer - c_distance c) / safety_buffer) /\
  c_severity c = severity_of (c_distance c) safety_buffer.

(** The count [check_conflicts] reports as [total_checks]. *)
Definition sample_pairs (primary_trajectory : list TrajectoryPoint)
    (other_trajectories : list Flight) : nat :=
  list_sum (map (fun f => (length primary_trajectory * length (trajectory f))%nat)
                other_trajectories).

(** ** Two flights that meet

    The primary drone passes (50, 50, 60) at t = 120 while flight
    ["F1"] is at (50, 50, 55): five metres apart with a 50 m buffer. *)

Definition primary_demo : list TrajectoryPoint :=
  [ mkPoint 0 0 0 60 15 0; mkPoint 120 50 50 60 15 0 ].

Definition flight_demo : Flight :=
  mkFlight "F1" [ mkPoint 60 300 300 55 15 0; mkPoint 120 50 50 55 15 0 ].

(** ** What the sampler promises

    [rescaled s e m wp]: the waypoint [wp] with its raw time mapped to
    [s + (raw / m) * (e - s)] and an absent [z] replaced by 50. *)

Definition raw_time (wp : Waypoint) : Q :=
  match wp_time wp with Some t => t | None => 0 end.

Definition rescaled (start_time end_time max_raw_time : Q) (wp : Waypoint) : Position :=
  {| pos_x := wp_x wp;
     pos_y := wp_y wp;
     pos_z := match wp_z wp with Some z => z | None => 50 end;
     pos_time := start_time + (raw_time wp / max_raw_time) * (end_time - start_time) |}.

Definition is_max_raw_time (waypoints : list Waypoint) (m : Q) : Prop :=
  (exists wp, In wp waypoints /\ wp_time wp = Some m) /\
  (forall wp, In wp waypoints -> raw_time wp <= m).

(** A number of iterations that the sampling loop does not exceed when
    the step is positive. *)
Definition enough_fuel (start_time end_time time_step : Q) : nat :=
  S (Z.to_nat (Qfloor ((end_time - start_time) / time_step))).

(** ** A mission whose raw times are all zero, and one with a real schedule *)

Definition waypoints_zero_times : list Waypoint :=
  [ mkWaypoint 0 0 (Some 60) (Some 0); mkWaypoint 100 0 (Some 60) (Some 0) ].

Definition waypoints_demo : list Waypoint :=
  [ mkWaypoint 0 0 (Some 60) (Some 0);
    mkWaypoint 30 40 None (Some 6);
    mkWaypoint 30 100 (Some 80) (Some 12) ].

(** [clamped_speed sqrt wp1 wp2]: the speed along the segment from [wp1]
    to [wp2], length over duration, kept within [[5, 30]]. *)
Definition clamped_speed (sqrt : Q -> Q) (wp1 wp2 : Position) : Q :=
  py_max2 5
    (py_min2 30
       (sqrt ((pos_x wp2 - pos_x wp1) ^ 2 + (pos_y wp2 - pos_y wp1) ^ 2 +
              (pos_z wp2 - pos_z wp1) ^ 2)
        / (pos_time wp2 - pos_time wp1))).

(** [adjacent l a b]: [a] and [b] are consecutive elements of [l]. *)
Definition adjacent {A : Type} (l : list A) (a b : A) : Prop :=
  exists before after, l = before ++ a :: b :: after.

(** [segment_in_use t wp1 wp2]: the segment from [wp1] to [wp2] brackets
    the time [t] and lasts: the two tests under which the scan of
    [_calculate_speed_at_time] returns the speed along that segment. *)
Definition segment_in_use (t : Q) (wp1 wp2 : Position) : Prop :=
  pos_time wp1 <= t /\ t <= pos_time wp2 /\ pos_time wp1 < pos_time wp2.

(** A mission flown at 10 m/s, then at 40/3 m/s. *)
Definition waypoints_cruise : list Waypoint :=
  [ mkWaypoint 0 0 (Some 60) (Some 0);
    mkWaypoint 300 0 (Some 60) (Some 6);
    mkWaypoint 300 400 (Some 60) (Some 12) ].

(** ** Orders and bounds used to state what the detector returns *)

(** Tuples [(severity_score, time)] in Python's lexicographic order. *)
Definition key_le (a b : Q * Q) : Prop :=
  fst a < fst b \/ (fst a == fst b /\ snd a <= snd b).

(** [latest_before t samples ob]: [ob] is the sample that the lookup keeps
    as [before_point], the first among the latest samples strictly before
    [t], or [None] when no sample is before [t]; [earliest_after] likewise
    for [after_point]. *)
Definition latest_before (t : Q) (samples : list TrajectoryPoint)
    (ob : option TrajectoryPoint) : Prop :=
  match ob with
  | Some b =>
      In b samples /\ pt_time b < t /\
      forall p, In p samples -> pt_time p < t -> pt_time p <= pt_time b
  | None => forall p, In p samples -> ~ pt_time p < t
  end.

Definition earliest_after (t : Q) (samples : list TrajectoryPoint)
    (oa : option TrajectoryPoint) : Prop :=
  match oa with
  | Some a =>
      In a samples /\ t < pt_time a /\
      forall p, In p samples -> t < pt_time p -> pt_time a <= pt_time p
  | None => forall p, In p samples -> ~ t < pt_time p
  end.

(** A flight that stays close to the primary drone of [primary_demo]:
    20 m below it at t = 0 and 30 m below it at t = 120. *)
Definition flight_close : Flight :=
  mkFlight "F2" [ mkPoint 0 0 0 40 15 0; mkPoint 120 50 50 30 15 0 ].

(** [at_place p x y z]: the position [p] has the coordinates [x], [y], [z]. *)
Definition at_place (p : PosDict) (x y z : Q) : Prop :=
  dict_x p == x /\ dict_y p == y /\ dict_z p == z.

(** [lerp a b r]: the point of the segment from [a] to [b] at fraction [r]. *)
Definition lerp (a b r : Q) : Q := a + r * (b - a).

(** ** Where a conflict record comes from

    [conflict_between sqrt primary f c]: the record [c] describes the
    primary trajectory and the flight [f] at an instant of their merged
    time base: its positions are what the lookup returns for the two
    trajectories at that instant, its distance is their separation and its
    location their midpoint. *)

Definition midpoint (p o : PosDict) : Location :=
  {| loc_x := (dict_x p + dict_x o) / 2;
     loc_y := (dict_y p + dict_y o) / 2;
     loc_z := (dict_z p + dict_z o) / 2 |}.

Definition conflict_between (sqrt : Q -> Q) (primary : list TrajectoryPoint)
    (f : Flight) (c : Conflict) : Prop :=
  c_other_flight_id c = flight_id f /\
  In (c_time c) (DeconflictionEngine.all_times primary (trajectory f)) /\
  DeconflictionEngine._get_position_at_time primary (c_time c)
    = Ok (Some (c_primary_position c)) /\
  DeconflictionEngine._get_position_at_time (trajectory f) (c_time c)
    = Ok (Some (c_other_position c)) /\
  c_distance c =
    Utils.calculate_distance_3d sqrt (c_primary_position c) (c_other_position c) /\
  c_location c = midpoint (c_primary_position c) (c_other_position c).

(** [segment_point wp1 wp2 t p]: [p] is the point reached at time [t] on
    the segment from [wp1] to [wp2], whose times bracket [t]. *)
Definition segment_point (wp1 wp2 : Position) (t : Q) (p : Position) : Prop :=
  pos_time wp1 < t /\ t <= pos_time wp2 /\ pos_time p = t /\
  pos_x p = lerp (pos_x wp1) (pos_x wp2)
              ((t - pos_time wp1) / (pos_time wp2 - pos_time wp1)) /\
  pos_y p = lerp (pos_y wp1) (pos_y wp2)
              ((t - pos_time wp1) / (pos_time wp2 - pos_time wp1)) /\
  pos_z p = lerp (pos_z wp1) (pos_z wp2)
              ((t - pos_time wp1) / (pos_time wp2 - pos_time wp1)).

(** [sample_at sqrt atan2 waypoints p]: [p] is the trajectory point that
    the sampling loop builds at the time [pt_time p] from the normalized
    waypoints. *)
Definition sample_at (sqrt : Q -> Q) (atan2 : Q -> Q -> Q)
    (waypoints : list Position) (p : TrajectoryPoint) : Prop :=
  (exists pos,
      TrajectoryCalculator._interpolate_position_at_time waypoints (pt_time p)
        = Ok (Some pos) /\
      pt_x p = pos_x pos /\ pt_y p = pos_y pos /\ pt_z p = pos_z pos) /\
  TrajectoryCalculator._calculate_speed_at_time sqrt waypoints (pt_time p)
    = Ok (pt_speed p) /\
  pt_heading p = TrajectoryCalculator._calculate_heading_at_time atan2 waypoints (pt_time p).

(** [on_grid t step points]: the times of [points] are [t], [t + step],
    [t + step + step], ... as the loop computes them. *)
Fixpoint on_grid (t step : Q) (points : list TrajectoryPoint) : Prop :=
  match points with
  | [] => True
  | p :: rest => pt_time p = t /\ on_grid (t + step) step rest
  end.

(** [spread s e n (i, wp)]: the waypoint [wp], the [i]-th of [n] that carry
    no usable time, placed at the fraction [i / (n - 1)] of the window. *)
Definition spread (start_time end_time : Q) (n : nat) (iw : nat * Waypoint) : Position :=
  {| pos_x := wp_x (snd iw);
     pos_y := wp_y (snd iw);
     pos_z := match wp_z (snd iw) with Some z => z | None => 50 end;
     pos_time := start_time + (Qnat (fst iw) / Qnat (n - 1)) * (end_time - start_time) |}.

(** A mission whose second waypoint carries no time. *)
Definition waypoints_untimed : list Waypoint :=
  [ mkWaypoint 0 0 (Some 60) (Some 0);
    mkWaypoint 30 40 None None;
    mkWaypoint 30 100 (Some 80) (Some 12) ].

(** A sampled trajectory with a sharp turn, for smoothing. *)
Definition zigzag_demo : list TrajectoryPoint :=
  [ mkPoint 0 0 0 60 10 0; mkPoint 5 10 40 60 10 0; mkPoint 10 20 0 80 10 0;
    mkPoint 15 30 40 60 0 0 ].




(** The text [format_time] gives to a whole number of seconds. *)
Definition render_time (total : Z) : string :=
  if (0 <? total / 60)%Z
  then (py_str (total / 60) ++ "m " ++ py_str (total mod 60) ++ "s")%string
  else (py_str (total mod 60) ++ "s")%string.

(** ** utils.py: helpers over missions and conflicts *)

(** A mission as a scenario holds it, and another flight of the scenario. *)
Record Mission : Set := mkMission {
  m_waypoints : list Waypoint;
  m_start_time : Q;
  m_end_time : Q
}.

Record FlightPlan : Set := mkFlightPlan {
  fp_flight_id : string;
  fp_waypoints : list Waypoint;
  fp_start_time : Q;
  fp_end_time : Q
}.

(** A recommendation of [generate_safety_buffer_recommendations]; the
    ['maintain'] one has no ['reason'] key. *)
Record Recommendation : Set := mkRecommendation {
  rec_type : string;
  rec_message : string;
  rec_suggested_buffer : option Q;
  rec_reason : option string
}.

Module MissionUtils.

Definition flight_warning (flight : FlightPlan) : list string :=
  if Qle_bool (fp_end_time flight) (fp_start_time flight)
  then [("Flight " ++ fp_flight_id flight ++ " has invalid timing")%string]
  else [].

Definition validate_mission_timing (primary_mission : Mission)
    (other_flights : list FlightPlan) : list string :=
  let warnings :=
    if Qle_bool (m_end_time primary_mission) (m_start_time primary_mission)
    then ["Primary mission start time must be before end time"%string]
    else [] in
  let duration := double_sub (m_end_time primary_mission) (m_start_time primary_mission) in
  let warnings :=
    if Qltb duration 60
    then warnings ++ ["Primary mission duration is very short (< 1 minute)"%string]
    else if Qltb 3600 duration
    then warnings ++ ["Primary mission duration is very long (> 1 hour)"%string]
    else warnings in
  warnings ++ flat_map flight_warning other_flights.

Section Recommendations.
(** The text of [f"{recommended_buffer:.1f}"]. *)
Variable format_fixed : Q -> string.

Definition generate_safety_buffer_recommendations (conflicts : list Conflict)
    : outcome (list Recommendation) :=
  match conflicts with
  | [] =>
      Ok [ {| rec_type := "maintain";
              rec_message := "Current safety buffer is adequate";
              rec_suggested_buffer := None;
              rec_reason := None |} ]
  | _ :: _ =>
      min_distance <- py_min (map c_distance conflicts) ;;
      avg_distance <-
        py_div (fold_left Qplus (map c_distance conflicts) 0) (Qnat (length conflicts)) ;;
      let high_severity_conflicts :=
        filter (fun c => String.eqb (c_severity c) "HIGH") conflicts in
      let recommendations :=
        match high_severity_conflicts with
        | [] => []
        | _ :: _ =>
            let recommended_buffer := double_mul min_distance (5 # 2) in
            [ {| rec_type := "increase";
                 rec_message :=
                   ("High severity conflicts detected. Recommend increasing safety buffer to "
                      ++ format_fixed recommended_buffer ++ "m")%string;
                 rec_suggested_buffer := Some recommended_buffer;
                 rec_reason := Some "Critical proximity violations"%string |} ]
        end in
      Ok (if (3 <? length conflicts)%nat
          then recommendations ++
               [ {| rec_type := "temporal_adjustment";
                    rec_message :=
                      "Multiple conflicts detected. Consider temporal separation or route modification";
                    rec_suggested_buffer := None;
                    rec_reason := Some "High conflict density"%string |} ]
          else recommendations)
  end.

End Recommendations.

End MissionUtils.

(** ** visualization.py: the sample shown at a time *)

Module VisualizationManager.

(** The key [lambda p: abs(p['time'] - target_time)]: the difference is a
    float. *)
Definition time_key (target_time : Q) (p : TrajectoryPoint) : Q :=
  Qabs (double_sub (pt_time p) target_time).

(** [min(trajectory, key=...)]: the first point whose key is smallest. *)
Definition closer (target_time : Q) (best p : TrajectoryPoint) : TrajectoryPoint :=
  if Qltb (time_key target_time p) (time_key target_time best) then p else best.

Definition _get_position_at_time (trajectory : list TrajectoryPoint) (target_time : Q)
    : option TrajectoryPoint :=
  match trajectory with
  | [] => None
  | first :: rest =>
      let closest_point := fold_left (closer target_time) rest first in
      if Qle_bool (Qabs (double_sub (pt_time closest_point) target_time)) 30
      then Some closest_point
      else None
  end.

End VisualizationManager.

(** ** app.py: from a scenario to its report

    The computation of [main] once a scenario is set: the primary mission
    and every other flight are sampled with the same step, then checked. *)

Module App.

Section Analysis.
Variable sqrt : Q -> Q.
Variable atan2 : Q -> Q -> Q.
Variable format_description : Q -> Q -> string.

Definition analyse (fuel : nat) (primary_mission : Mission)
    (other_flights : list FlightPlan) (time_step safety_buffer : Q) : outcome Report :=
  primary_trajectory <-
    TrajectoryCalculator.calculate_trajectory sqrt atan2 fuel
      (m_waypoints primary_mission) (m_start_time primary_mission)
      (m_end_time primary_mission) time_step ;;
  other_trajectories <-
    mapM (fun flight =>
            traj <- TrajectoryCalculator.calculate_trajectory sqrt atan2 fuel
                      (fp_waypoints flight) (fp_start_time flight)
                      (fp_end_time flight) time_step ;;
            Ok {| flight_id := fp_flight_id flight; trajectory := traj |})
         other_flights ;;
  DeconflictionEngine.check_conflicts sqrt format_description
    primary_trajectory other_trajectories safety_buffer.

End Analysis.

End App.

(** ** Scenarios handed to the analysis *)

(** The report of an analysis that found nothing to compare. *)
Definition empty_report : Report :=
  {| conflicts := [];
     summary := {| total_checks := 0; spatial_violations := 0;
                   temporal_violations := 0; safe_segments := 0 |};
     is_safe := true;
     total_conflicts := 0 |}.

(** A primary mission, a flight that starts five metres from it and a
    flight plan with a single waypoint. *)
Definition mission_demo : Mission := mkMission waypoints_demo 100 160.

Definition plans_demo : list FlightPlan :=
  [ mkFlightPlan "F1" [ mkWaypoint 0 5 (Some 60) None; mkWaypoint 30 105 (Some 80) None ]
      100 160;
    mkFlightPlan "F2" [ mkWaypoint 0 0 (Some 60) None ] 0 300 ].

(** ** The lookup on floats

    The detector compares times with [==], [<] and [>].  On floats these
    are the comparisons of IEEE 754, which are all false when an operand
    is [nan], and the arithmetic of [interpolate_position] rounds and has
    infinities.  [Float64] embeds the lookup of the detector over
    [Utils.PyFloat], to show what it returns for such times. *)

Module Float64.

(** The float nearest to a rational. *)
Definition of_Q (q : Q) : Utils.PyFloat :=
  let r := round_double q in
  if Qle_bool (2 ^ 1024) r then Utils.PosInf
  else if Qle_bool r (- 2 ^ 1024) then Utils.NegInf
  else Utils.Finite r.

Definition eqb (a b : Utils.PyFloat) : bool :=
  match a, b with
  | Utils.Finite x, Utils.Finite y => Qeq_bool x y
  | Utils.PosInf, Utils.PosInf => true
  | Utils.NegInf, Utils.NegInf => true
  | _, _ => false
  end.

Definition opp (a : Utils.PyFloat) : Utils.PyFloat :=
  match a with
  | Utils.Finite x => Utils.Finite (- x)
  | Utils.PosInf => Utils.NegInf
  | Utils.NegInf => Utils.PosInf
  | Utils.NaN => Utils.NaN
  end.

Definition add (a b : Utils.PyFloat) : Utils.PyFloat :=
  match a, b with
  | Utils.Finite x, Utils.Finite y => of_Q (x + y)
  | Utils.NaN, _ => Utils.NaN
  | _, Utils.NaN => Utils.NaN
  | Utils.PosInf, Utils.NegInf => Utils.NaN
  | Utils.NegInf, Utils.PosInf => Utils.NaN
  | Utils.PosInf, _ => Utils.PosInf
  | _, Utils.PosInf => Utils.PosInf
  | Utils.NegInf, _ => Utils.NegInf
  | _, Utils.NegInf => Utils.NegInf
  end.

Definition sub (a b : Utils.PyFloat) : Utils.PyFloat := add a (opp b).

(** An infinity of the sign of [q], a rational that is not zero. *)
Definition inf_of_sign (q : Q) : Utils.PyFloat :=
  if Qltb q 0 then Utils.NegInf else Utils.PosInf.

Definition mul (a b : Utils.PyFloat) : Utils.PyFloat :=
  match a, b with
  | Utils.Finite x, Utils.Finite y => of_Q (x * y)
  | Utils.NaN, _ => Utils.NaN
  | _, Utils.NaN => Utils.NaN
  | Utils.Finite x, Utils.PosInf => if Qeq_bool x 0 then Utils.NaN else inf_of_sign x
  | Utils.PosInf, Utils.Finite x => if Qeq_bool x 0 then Utils.NaN else inf_of_sign x
  | Utils.Finite x, Utils.NegInf => if Qeq_bool x 0 then Utils.NaN else inf_of_sign (- x)
  | Utils.NegInf, Utils.Finite x => if Qeq_bool x 0 then Utils.NaN else inf_of_sign (- x)
  | Utils.PosInf, Utils.PosInf => Utils.PosInf
  | Utils.NegInf, Utils.NegInf => Utils.PosInf
  | Utils.PosInf, Utils.NegInf => Utils.NegInf
  | Utils.NegInf, Utils.PosInf => Utils.NegInf
  end.

(** [a / b]: a zero divisor raises. *)
Definition div (a b : Utils.PyFloat) : outcome Utils.PyFloat :=
  match a, b with
  | _, Utils.Finite y =>
      if Qeq_bool y 0 then Raise ZeroDivisionError
      else
        Ok match a with
           | Utils.Finite x => of_Q (x / y)
           | Utils.PosInf => inf_of_sign y
           | Utils.NegInf => inf_of_sign (- y)
           | Utils.NaN => Utils.NaN
           end
  | Utils.Finite _, Utils.PosInf => Ok (Utils.Finite 0)
  | Utils.Finite _, Utils.NegInf => Ok (Utils.Finite 0)
  | _, _ => Ok Utils.NaN
  end.

(** A trajectory point and the dictionaries the lookup returns. *)
Record Point : Set := mkPoint {
  time : Utils.PyFloat;
  x : Utils.PyFloat;
  y : Utils.PyFloat;
  z : Utils.PyFloat;
  speed : Utils.PyFloat;
  heading : Utils.PyFloat
}.

Inductive Pos : Set :=
  | Sample (p : Point)
  | Interpolated (x y z time : Utils.PyFloat).

Definition interpolate_position (pos1 pos2 : Point) (target_time : Utils.PyFloat)
    : outcome Pos :=
  if eqb (time pos1) (time pos2) then Ok (Sample pos1)
  else
    time_ratio <- div (sub target_time (time pos1)) (sub (time pos2) (time pos1)) ;;
    let time_ratio :=
      Utils.float_max2 (Utils.Finite 0) (Utils.float_min2 (Utils.Finite 1) time_ratio) in
    Ok (Interpolated
          (add (x pos1) (mul time_ratio (sub (x pos2) (x pos1))))
          (add (y pos1) (mul time_ratio (sub (y pos2) (y pos1))))
          (add (z pos1) (mul time_ratio (sub (z pos2) (z pos1))))
          target_time).

Definition bracket_step (target_time : Utils.PyFloat)
    (st : option Point * option Point) (point : Point) : option Point * option Point :=
  let (before_point, after_point) := st in
  if Utils.float_ltb (time point) target_time then
    match before_point with
    | None => (Some point, after_point)
    | Some b =>
        if Utils.float_ltb (time b) (time point) then (Some point, after_point) else st
    end
  else if Utils.float_ltb target_time (time point) then
    match after_point with
    | None => (before_point, Some point)
    | Some a =>
        if Utils.float_ltb (time point) (time a) then (before_point, Some point) else st
    end
  else st.

Definition _get_position_at_time (trajectory : list Point) (target_time : Utils.PyFloat)
    : outcome (option Pos) :=
  match find (fun point => eqb (time point) target_time) trajectory with
  | Some point => Ok (Some (Sample point))
  | None =>
      match fold_left (bracket_step target_time) trajectory (None, None) with
      | (Some before_point, Some after_point) =>
          p <- interpolate_position before_point after_point target_time ;;
          Ok (Some p)
      | (Some before_point, None) => Ok (Some (Sample before_point))
      | (None, Some after_point) => Ok (Some (Sample after_point))
      | (None, None) => Ok None
      end
  end.

End Float64.

(** A point whose time is [nan], and an ordinary one. *)
Definition nan_point : Float64.Point :=
  Float64.mkPoint Utils.NaN (Utils.Finite 0) (Utils.Finite 0) (Utils.Finite 60)
    (Utils.Finite 15) (Utils.Finite 0).

Definition origin_point : Float64.Point :=
  Float64.mkPoint (Utils.Finite 0) (Utils.Finite 0) (Utils.Finite 0) (Utils.Finite 60)
    (Utils.Finite 15) (Utils.Finite 0).

(** * Properties *)

Import TrajectoryCalculator Utils DeconflictionEngine.

(** ** Comparisons, minimum and maximum *)

Lemma Qltb_lt (a b : Q) : Qltb a b = true <-> a < b.
Proof.
  unfold Qltb. rewrite negb_true_iff. split; intro H.
  - apply Qnot_le_lt. intro Hle. apply Qle_bool_iff in Hle. congruence.
  - destruct (Qle_bool b a) eqn:E; [|reflexivity].
    apply Qle_bool_iff in E. exfalso. apply (Qlt_not_le _ _ H E).
Qed.

Lemma Qltb_ge (a b : Q) : Qltb a b = false <-> b <= a.
Proof.
  unfold Qltb. rewrite negb_false_iff. apply Qle_bool_iff.
Qed.

Lemma Qle_bool_false (a b : Q) : Qle_bool a b = false <-> b < a.
Proof.
  rewrite <- Qltb_lt. unfold Qltb. rewrite negb_true_iff. reflexivity.
Qed.

Lemma py_max2_lower (a b : Q) : a <= py_max2 a b.
Proof.
  unfold py_max2. destruct (Qltb a b) eqn:E.
  - apply Qltb_lt in E. lra.
  - lra.
Qed.

Lemma py_max2_upper (a b c : Q) : a <= c -> b <= c -> py_max2 a b <= c.
Proof.
  intros. unfold py_max2. destruct (Qltb a b); assumption.
Qed.

Lemma py_min2_upper (a b : Q) : py_min2 a b <= a.
Proof.
  unfold py_min2. destruct (Qltb b a) eqn:E.
  - apply Qltb_lt in E. lra.
  - lra.
Qed.

Lemma py_max2_Qmax (a b : Q) : py_max2 a b == Qmax a b.
Proof.
  unfold py_max2. destruct (Qltb a b) eqn:E.
  - apply Qltb_lt in E. symmetry. apply Q.max_r. lra.
  - apply Qltb_ge in E. symmetry. apply Q.max_l. assumption.
Qed.

Lemma py_div_Ok (a b : Q) : ~ b == 0 -> py_div a b = Ok (a / b).
Proof.
  intro H. unfold py_div. destruct (Qeq_bool b 0) eqn:E; [|reflexivity].
  apply Qeq_bool_iff in E. contradiction.
Qed.

Lemma py_div_inv (a b r : Q) : py_div a b = Ok r -> ~ b == 0 /\ r = a / b.
Proof.
  unfold py_div. destruct (Qeq_bool b 0) eqn:E; [discriminate|].
  intro H. injection H as <-. split; [|reflexivity].
  intro Hb. apply Qeq_bool_iff in Hb. congruence.
Qed.

(** ** The outcome monad *)

Lemma bind_Ok {A B : Type} (a : A) (k : A -> outcome B) : bind (Ok a) k = k a.
Proof. reflexivity. Qed.

Lemma bind_Ok_inv {A B : Type} (m : outcome A) (k : A -> outcome B) (b : B) :
  bind m k = Ok b -> exists a, m = Ok a /\ k a = Ok b.
Proof.
  destruct m; simpl; intro H; try discriminate. eauto.
Qed.

Lemma mapM_Ok_map {A B : Type} (f : A -> outcome B) (g : A -> B) (l : list A) :
  (forall a, In a l -> f a = Ok (g a)) -> mapM f l = Ok (map g l).
Proof.
  induction l as [|a l IH]; intro H; simpl; [reflexivity|].
  rewrite (H a (or_introl eq_refl)). simpl.
  rewrite IH by (intros; apply H; right; assumption). reflexivity.
Qed.

Lemma mapM_Raise {A B : Type} (f : A -> outcome B) (e : PyError) (a : A) (l : list A) :
  f a = Raise e -> mapM f (a :: l) = Raise e.
Proof.
  intro H. simpl. rewrite H. reflexivity.
Qed.

(** ** [sorted] returns its argument, reordered and in order *)

Section SortedFacts.
Context {A K : Type} (key : A -> K) (ltb : K -> K -> bool).

Lemma insert_sorted_perm (a : A) (l : list A) :
  Permutation (insert_sorted key ltb a l) (a :: l).
Proof.
  induction l as [|b l IH]; simpl; [reflexivity|].
  destruct (ltb (key b) (key a)); [|reflexivity].
  rewrite IH. apply perm_swap.
Qed.

Lemma sorted_perm (l : list A) : Permutation (sorted key ltb l) l.
Proof.
  induction l as [|a l IH]; simpl; [reflexivity|].
  rewrite insert_sorted_perm. constructor. assumption.
Qed.

Lemma sorted_length (l : list A) : length (sorted key ltb l) = length l.
Proof. apply Permutation_length, sorted_perm. Qed.

Lemma sorted_In (a : A) (l : list A) : In a (sorted key ltb l) <-> In a l.
Proof.
  split; apply Permutation_in; [|symmetry]; apply sorted_perm.
Qed.

Lemma sorted_Forall (P : A -> Prop) (l : list A) :
  Forall P l -> Forall P (sorted key ltb l).
Proof.
  intro H. rewrite Forall_forall in *. intros a Ha.
  apply H, sorted_In, Ha.
Qed.

(** With a total order on keys the result is in non-decreasing order:
    no element is followed by one with a smaller key. *)
Variable le : K -> K -> Prop.
Hypothesis ltb_false_le : forall a b, ltb a b = false -> le b a.
Hypothesis ltb_true_le : forall a b, ltb a b = true -> le a b.
Hypothesis le_trans : forall a b c, le a b -> le b c -> le a c.

Lemma insert_sorted_ordered (a : A) (l : list A) :
  StronglySorted (fun x y => le (key x) (key y)) l ->
  StronglySorted (fun x y => le (key x) (key y)) (insert_sorted key ltb a l).
Proof.
  induction 1 as [|b l Hl IH Hb]; simpl.
  - repeat constructor.
  - destruct (ltb (key b) (key a)) eqn:E.
    + constructor; [assumption|].
      apply Forall_forall. intros x Hx.
      apply (Permutation_in _ (insert_sorted_perm a l)) in Hx.
      destruct Hx as [<-|Hx]; [auto|].
      rewrite Forall_forall in Hb. auto.
    + constructor; [constructor; assumption|].
      constructor; [auto|].
      eapply Forall_impl; [|exact Hb]. intros x Hx. simpl in Hx. eauto.
Qed.

Lemma sorted_ordered (l : list A) :
  StronglySorted (fun x y => le (key x) (key y)) (sorted key ltb l).
Proof.
  induction l as [|a l IH]; simpl; [constructor|].
  apply insert_sorted_ordered. assumption.
Qed.
End SortedFacts.

(** ** Position lookup of the detector *)

Lemma interpolate_position_returns (pos1 pos2 : TrajectoryPoint) (target_time : Q) :
  exists p, Utils.interpolate_position pos1 pos2 target_time = Ok p /\
            (p = Sample pos1 \/ exists i, p = Interpolated i /\ pos_time i = target_time).
Proof.
  unfold Utils.interpolate_position.
  destruct (Qeq_bool (pt_time pos1) (pt_time pos2)) eqn:E.
  - eexists. split; [reflexivity|]. left. reflexivity.
  - rewrite py_div_Ok.
    + simpl. eexists. split; [reflexivity|]. right. eexists. split; reflexivity.
    + intro H. assert (Heq : pt_time pos1 == pt_time pos2) by lra.
      apply Qeq_bool_iff in Heq. congruence.
Qed.

Lemma bracket_step_keeps (target_time : Q) (point : TrajectoryPoint)
    (st : option TrajectoryPoint * option TrajectoryPoint) :
  (fst st <> None -> fst (DeconflictionEngine.bracket_step target_time st point) <> None) /\
  (snd st <> None -> snd (DeconflictionEngine.bracket_step target_time st point) <> None).
Proof.
  destruct st as [[b|] [a|]]; unfold DeconflictionEngine.bracket_step;
    repeat match goal with
           | |- context [if ?c then _ else _] => destruct c
           end; simpl; split; congruence.
Qed.

Lemma bracket_fold_keeps (target_time : Q) (l : list TrajectoryPoint) :
  forall st,
    (fst st <> None ->
     fst (fold_left (DeconflictionEngine.bracket_step target_time) l st) <> None) /\
    (snd st <> None ->
     snd (fold_left (DeconflictionEngine.bracket_step target_time) l st) <> None).
Proof.
  induction l as [|p l IH]; intro st; simpl; [tauto|].
  destruct (bracket_step_keeps target_time p st) as [Hf Hs].
  destruct (IH (DeconflictionEngine.bracket_step target_time st p)) as [Hf' Hs'].
  split; auto.
Qed.

Lemma bracket_step_sets (target_time : Q) (point : TrajectoryPoint)
    (st : option TrajectoryPoint * option TrajectoryPoint) :
  Qeq_bool (pt_time point) target_time = false ->
  fst (DeconflictionEngine.bracket_step target_time st point) <> None \/
  snd (DeconflictionEngine.bracket_step target_time st point) <> None.
Proof.
  intro Hne. unfold DeconflictionEngine.bracket_step. destruct st as [b a].
  destruct (Qltb (pt_time point) target_time) eqn:E1.
  - left. destruct b as [b|]; [destruct (Qltb (pt_time b) (pt_time point))|];
      simpl; congruence.
  - destruct (Qltb target_time (pt_time point)) eqn:E2.
    + right. destruct a as [a|]; [destruct (Qltb (pt_time point) (pt_time a))|];
        simpl; congruence.
    + apply Qltb_ge in E1, E2.
      assert (Heq : pt_time point == target_time) by lra.
      apply Qeq_bool_iff in Heq. congruence.
Qed.

Lemma bracket_step_members (target_time : Q) (point : TrajectoryPoint)
    (st : option TrajectoryPoint * option TrajectoryPoint) :
  (forall b, fst (DeconflictionEngine.bracket_step target_time st point) = Some b ->
             b = point \/ fst st = Some b) /\
  (forall a, snd (DeconflictionEngine.bracket_step target_time st point) = Some a ->
             a = point \/ snd st = Some a).
Proof.
  unfold DeconflictionEngine.bracket_step. destruct st as [[b0|] [a0|]];
    repeat match goal with
           | |- context [if ?c then _ else _] => destruct c
           end; simpl; split; intros x Hx; try discriminate;
    try (injection Hx as <-); auto.
Qed.

Lemma bracket_fold_members (target_time : Q) (l : list TrajectoryPoint) :
  forall st,
    (forall b,
        fst (fold_left (DeconflictionEngine.bracket_step target_time) l st) = Some b ->
        In b l \/ fst st = Some b) /\
    (forall a,
        snd (fold_left (DeconflictionEngine.bracket_step target_time) l st) = Some a ->
        In a l \/ snd st = Some a).
Proof.
  induction l as [|p l IH]; intro st; simpl; [auto|].
  destruct (IH (DeconflictionEngine.bracket_step target_time st p)) as [Hb Ha].
  destruct (bracket_step_members target_time p st) as [Hsb Hsa].
  split; intros x Hx.
  - destruct (Hb x Hx) as [H|H]; [auto|]. destruct (Hsb x H); subst; auto.
  - destruct (Ha x Hx) as [H|H]; [auto|]. destruct (Hsa x H); subst; auto.
Qed.

Lemma get_position_cases (trajectory0 : list TrajectoryPoint) (target_time : Q) :
  trajectory0 <> [] ->
  exists p,
    DeconflictionEngine._get_position_at_time trajectory0 target_time = Ok (Some p) /\
    ((exists s, p = Sample s /\ In s trajectory0) \/
     (exists i, p = Interpolated i /\ pos_time i = target_time)).
Proof.
  intro Hne. unfold DeconflictionEngine._get_position_at_time.
  destruct (find _ trajectory0) as [point|] eqn:Hfind.
  - apply find_some in Hfind. destruct Hfind as [Hin _].
    eexists. split; [reflexivity|]. left. eauto.
  - destruct trajectory0 as [|p0 l]; [congruence|].
    assert (Hp0 : Qeq_bool (pt_time p0) target_time = false).
    { apply (find_none _ _ Hfind). left. reflexivity. }
    destruct (bracket_fold_members target_time (p0 :: l) (None, None)) as [Hmb Hma].
    assert (Hsome :
      fst (fold_left (DeconflictionEngine.bracket_step target_time) (p0 :: l) (None, None))
        <> None \/
      snd (fold_left (DeconflictionEngine.bracket_step target_time) (p0 :: l) (None, None))
        <> None).
    { simpl.
      destruct (bracket_fold_keeps target_time l
                  (DeconflictionEngine.bracket_step target_time (None, None) p0))
        as [Hf Hs].
      destruct (bracket_step_sets target_time p0 (None, None) Hp0); auto. }
    destruct (fold_left _ (p0 :: l) (None, None)) as [[b|] [a|]]; simpl in *.
    + destruct (interpolate_position_returns b a target_time) as [p [Hp Hcase]].
      rewrite Hp. simpl. eexists. split; [reflexivity|].
      destruct Hcase as [->|Hi]; [|auto].
      left. exists b. split; [reflexivity|].
      destruct (Hmb b eq_refl) as [H|H]; [exact H|discriminate].
    + eexists. split; [reflexivity|]. left. exists b. split; [reflexivity|].
      destruct (Hmb b eq_refl) as [H|H]; [exact H|discriminate].
    + eexists. split; [reflexivity|]. left. exists a. split; [reflexivity|].
      destruct (Hma a eq_refl) as [H|H]; [exact H|discriminate].
    + destruct Hsome; congruence.
Qed.

Lemma get_position_returns (trajectory0 : list TrajectoryPoint) (target_time : Q) :
  exists r, DeconflictionEngine._get_position_at_time trajectory0 target_time = Ok r.
Proof.
  destruct trajectory0 as [|p l].
  - eexists. reflexivity.
  - destruct (get_position_cases (p :: l) target_time) as [r [Hr _]]; [discriminate|].
    eauto.
Qed.

(** ** Rounding

    [round_double] on values whose double is known: 0.1, 0.8, the product
    43 * 0.8 (the double 34.4, below the exact product), the sum 0.1 + 0.2,
    a tie at the smallest double, and the overflow threshold. *)
Lemma round_double_examples :
  round_double (1 # 10) == 3602879701896397 # 36028797018963968 /\
  round_double (8 # 10) == 3602879701896397 # 4503599627370496 /\
  double_mul 43 (round_double (8 # 10)) == round_double (344 # 10) /\
  round_double (344 # 10) < 43 * (8 # 10) /\
  round_double (round_double (1 # 10) + round_double (2 # 10))
    == 1351079888211149 # 4503599627370496 /\
  round_double (2 ^ (-1075)) == 0 /\
  round_double (3 * 2 ^ (-1075)) == 2 ^ (-1073) /\
  round_double (2 ^ 1024 - 2 ^ 970 - 1) == 2 ^ 1024 - 2 ^ 971 /\
  round_double (2 ^ 1024 - 2 ^ 970) == 2 ^ 1024.
Proof.
  split; [vm_compute; reflexivity|]. split; [vm_compute; reflexivity|].
  split; [vm_compute; reflexivity|]. split; [vm_compute; reflexivity|].
  split; [vm_compute; reflexivity|]. split; [vm_compute; reflexivity|].
  split; [vm_compute; reflexivity|]. split; vm_compute; reflexivity.
Qed.

(** ** Rounding keeps the sign *)

Lemma round_half_even_nonneg (q : Q) : 0 <= q -> (0 <= round_half_even q)%Z.
Proof.
  intro H. unfold round_half_even.
  assert (Hf : (0 <= Qfloor q)%Z).
  { change 0%Z with (Qfloor 0). apply Qfloor_resp_le. exact H. }
  destruct (Qltb (q - inject_Z (Qfloor q)) (1 # 2)); [exact Hf|].
  destruct (Qltb (1 # 2) (q - inject_Z (Qfloor q))); [lia|].
  destruct (Z.even (Qfloor q)); lia.
Qed.

Lemma round_double_sign (q : Q) :
  (q <= 0 -> round_double q <= 0) /\ (0 <= q -> 0 <= round_double q).
Proof.
  unfold round_double.
  destruct (Qeq_bool q 0) eqn:E0; [split; intros _; apply Qle_refl|].
  assert (Hq : ~ q == 0).
  { intro H. apply Qeq_bool_iff in H. congruence. }
  set (e := Z.max (floor_log2 (Qabs q) - 52) (-1074)).
  set (m := round_half_even (Qabs q / 2 ^ e)).
  assert (Hp : 0 < 2 ^ e) by (apply Qpower_0_lt; reflexivity).
  assert (Hm : (0 <= m)%Z).
  { apply round_half_even_nonneg. apply Qle_shift_div_l; [exact Hp|].
    rewrite Qmult_0_l. apply Qabs_nonneg. }
  assert (Hr : 0 <= Qred (inject_Z m * 2 ^ e)).
  { rewrite Qred_correct. apply Qmult_le_0_compat; [|apply Qlt_le_weak; exact Hp].
    change 0 with (inject_Z 0). rewrite <- Zle_Qle. exact Hm. }
  set (r := if Qle_bool (2 ^ 1024) (Qred (inject_Z m * 2 ^ e))
            then 2 ^ 1024 else Qred (inject_Z m * 2 ^ e)).
  assert (Hr' : 0 <= r).
  { unfold r. destruct (Qle_bool _ _); [|exact Hr].
    apply Qlt_le_weak. apply Qpower_0_lt. reflexivity. }
  destruct (Qltb q 0) eqn:E.
  - apply Qltb_lt in E. split.
    + intros _. apply (Qopp_le_compat 0 r) in Hr'. exact Hr'.
    + intro H. exfalso. apply (Qlt_irrefl q). eapply Qlt_le_trans; [exact E|exact H].
  - apply Qltb_ge in E. split; [|intros _; exact Hr'].
    intro H. exfalso. apply Hq. apply Qle_antisym; assumption.
Qed.

(** ** Records built by the detector *)

Lemma create_conflict_record_inv format_description primary_pos other_pos time_point distance
    other_flight_id safety_buffer c :
  DeconflictionEngine._create_conflict_record format_description
    primary_pos other_pos time_point distance other_flight_id safety_buffer = Ok c ->
  c_type c = "spatial"%string /\
  c_time c = time_point /\
  c_distance c = distance /\
  c_safety_buffer c = safety_buffer /\
  c_severity_score c = py_max2 0 ((safety_buffer - distance) / safety_buffer) /\
  c_severity c = severity_of distance safety_buffer /\
  ~ safety_buffer == 0.
Proof.
  unfold DeconflictionEngine._create_conflict_record. intro H.
  apply bind_Ok_inv in H. destruct H as [r [Hr H]].
  apply py_div_inv in Hr. destruct Hr as [Hb ->].
  injection H as <-. simpl. unfold severity_of. tauto.
Qed.

Lemma create_conflict_record_returns format_description primary_pos other_pos time_point distance
    other_flight_id safety_buffer :
  ~ safety_buffer == 0 ->
  exists c,
    DeconflictionEngine._create_conflict_record format_description
      primary_pos other_pos time_point distance other_flight_id safety_buffer = Ok c.
Proof.
  intro Hb. unfold DeconflictionEngine._create_conflict_record.
  rewrite py_div_Ok by assumption. simpl. eauto.
Qed.

Section DetectorFacts.
Variable sqrt : Q -> Q.
Variable format_description : Q -> Q -> string.

Lemma check_instant_emits primary_traj other_traj other_flight_id safety_buffer
    time_point distance c :
  DeconflictionEngine.check_instant sqrt format_description primary_traj other_traj
    other_flight_id safety_buffer time_point = Ok (Measured distance (Some c)) ->
  emitted_record safety_buffer c.
Proof.
  unfold DeconflictionEngine.check_instant. intro H.
  apply bind_Ok_inv in H. destruct H as [pp [_ H]].
  apply bind_Ok_inv in H. destruct H as [op [_ H]].
  destruct pp as [pp|]; [|discriminate].
  destruct op as [op|]; [|discriminate].
  destruct (Qltb _ safety_buffer) eqn:Hlt; [|discriminate].
  apply bind_Ok_inv in H. destruct H as [c' [Hc H]].
  injection H as _ <-.
  apply create_conflict_record_inv in Hc.
  destruct Hc as (Ht & _ & Hd & Hb & Hs & Hv & _).
  apply Qltb_lt in Hlt.
  unfold emitted_record. rewrite Hd. tauto.
Qed.

Lemma detect_loop_emits primary_traj other_traj other_flight_id safety_buffer times :
  forall found res,
    Forall (emitted_record safety_buffer) found ->
    DeconflictionEngine.detect_loop sqrt format_description primary_traj other_traj
      other_flight_id safety_buffer times found = Ok res ->
    Forall (emitted_record safety_buffer) res.
Proof.
  induction times as [|t times IH]; intros found res Hfound H; simpl in H.
  - injection H as <-. assumption.
  - apply bind_Ok_inv in H. destruct H as [r [Hr H]].
    apply IH in H; [assumption|].
    destruct r as [|d [c|]]; try assumption.
    apply Forall_app. split; [assumption|].
    constructor; [|constructor].
    eapply check_instant_emits. eassumption.
Qed.

Lemma check_flights_emits primary others safety_buffer :
  forall found checks res n,
    Forall (emitted_record safety_buffer) found ->
    DeconflictionEngine.check_flights sqrt format_description primary others
      safety_buffer found checks = Ok (res, n) ->
    Forall (emitted_record safety_buffer) res /\
    n = (checks + sample_pairs primary others)%nat.
Proof.
  induction others as [|o others IH]; intros found checks res n Hfound H; simpl in H.
  - injection H as <- <-. split; [assumption|]. unfold sample_pairs. simpl. lia.
  - apply bind_Ok_inv in H. destruct H as [tc [Htc H]].
    apply IH in H.
    + destruct H as [Hres ->]. split; [assumption|].
      unfold sample_pairs. simpl. lia.
    + apply Forall_app. split; [assumption|].
      eapply detect_loop_emits; [constructor|exact Htc].
Qed.

Lemma classify_fold (found : list Conflict) :
  forall s,
    Forall (fun c => c_type c = "spatial"%string) found ->
    fold_left DeconflictionEngine.classify found s =
      {| total_checks := total_checks s;
         spatial_violations := spatial_violations s + length found;
         temporal_violations := temporal_violations s;
         safe_segments := safe_segments s |}.
Proof.
  induction found as [|c found IH]; intros s H; simpl.
  - destruct s. simpl. f_equal. lia.
  - inversion H as [|? ? Hc Hrest]; subst.
    rewrite IH by assumption.
    unfold DeconflictionEngine.classify. rewrite Hc. simpl. f_equal. lia.
Qed.

(** The report of [check_conflicts], field by field. *)
Lemma check_conflicts_inv primary others safety_buffer r :
  DeconflictionEngine.check_conflicts sqrt format_description primary others
    safety_buffer = Ok r ->
  Forall (emitted_record safety_buffer) (conflicts r) /\
  summary r =
    {| total_checks := sample_pairs primary others;
       spatial_violations := length (conflicts r);
       temporal_violations := 0;
       safe_segments := 0 |} /\
  is_safe r = (length (conflicts r) =? 0)%nat /\
  total_conflicts r = length (conflicts r).
Proof.
  unfold DeconflictionEngine.check_conflicts. intro H.
  apply bind_Ok_inv in H. destruct H as [[found checks] [Hf H]].
  apply check_flights_emits in Hf; [|constructor].
  destruct Hf as [Hfound ->].
  injection H as <-. simpl.
  split; [apply sorted_Forall; assumption|].
  split; [|split; reflexivity].
  rewrite classify_fold.
  - simpl. rewrite sorted_length. reflexivity.
  - eapply Forall_impl; [|exact Hfound]. intros c Hc. apply Hc.
Qed.

(** With a [math.sqrt] that returns no negative number the detector
    always returns: the only division is by a buffer that exceeds a
    distance. *)
Hypothesis sqrt_nonneg : forall q, 0 <= sqrt q.

Lemma check_instant_returns primary_traj other_traj other_flight_id safety_buffer
    time_point :
  exists r,
    DeconflictionEngine.check_instant sqrt format_description primary_traj other_traj
      other_flight_id safety_buffer time_point = Ok r.
Proof.
  unfold DeconflictionEngine.check_instant.
  destruct (get_position_returns primary_traj time_point) as [pp ->].
  destruct (get_position_returns other_traj time_point) as [op ->].
  simpl. destruct pp as [pp|]; [|eauto]. destruct op as [op|]; [|eauto].
  destruct (Qltb _ safety_buffer) eqn:Hlt; [|eauto].
  apply Qltb_lt in Hlt.
  destruct (create_conflict_record_returns format_description pp op time_point
              (Utils.calculate_distance_3d sqrt pp op) other_flight_id safety_buffer)
    as [c ->].
  - unfold Utils.calculate_distance_3d in Hlt.
    pose proof (sqrt_nonneg
      ((dict_x pp - dict_x op) * (dict_x pp - dict_x op) +
       (dict_y pp - dict_y op) * (dict_y pp - dict_y op) +
       (dict_z pp - dict_z op) * (dict_z pp - dict_z op))) as H0.
    simpl in Hlt. lra.
  - simpl. eauto.
Qed.

Lemma detect_loop_returns primary_traj other_traj other_flight_id safety_buffer times :
  forall found, exists res,
    DeconflictionEngine.detect_loop sqrt format_description primary_traj other_traj
      other_flight_id safety_buffer times found = Ok res.
Proof.
  induction times as [|t times IH]; intro found; simpl; [eauto|].
  destruct (check_instant_returns primary_traj other_traj other_flight_id
              safety_buffer t) as [r ->].
  simpl. apply IH.
Qed.

Lemma check_flights_returns primary others safety_buffer :
  forall found checks, exists res,
    DeconflictionEngine.check_flights sqrt format_description primary others
      safety_buffer found checks = Ok res.
Proof.
  induction others as [|o others IH]; intros found checks; simpl; [eauto|].
  destruct (detect_loop_returns primary (trajectory o) (flight_id o) safety_buffer
              (DeconflictionEngine.all_times primary (trajectory o)) [])
    as [tc Htc].
  unfold DeconflictionEngine._detect_trajectory_conflicts. rewrite Htc. simpl.
  apply IH.
Qed.

Lemma check_conflicts_returns primary others safety_buffer :
  exists r,
    DeconflictionEngine.check_conflicts sqrt format_description primary others
      safety_buffer = Ok r.
Proof.
  unfold DeconflictionEngine.check_conflicts.
  destruct (check_flights_returns primary others safety_buffer [] 0%nat)
    as [[found checks] ->].
  simpl. eauto.
Qed.

End DetectorFacts.

Lemma sqrt_floor_nonneg (q : Q) : 0 <= sqrt_floor q.
Proof.
  unfold sqrt_floor, Qle. simpl. rewrite Z.mul_1_r. apply Z.sqrt_nonneg.
Qed.

(** The three bands of the severity, by the two float thresholds. *)
Lemma severity_of_bands (distance safety_buffer : Q) :
  (distance < double_mul safety_buffer (1 # 2) ->
   severity_of distance safety_buffer = "HIGH"%string) /\
  (double_mul safety_buffer (1 # 2) <= distance ->
   distance < double_mul safety_buffer (round_double (8 # 10)) ->
   severity_of distance safety_buffer = "MEDIUM"%string) /\
  (double_mul safety_buffer (1 # 2) <= distance ->
   double_mul safety_buffer (round_double (8 # 10)) <= distance ->
   severity_of distance safety_buffer = "LOW"%string).
Proof.
  unfold severity_of.
  destruct (Qltb distance (double_mul safety_buffer (1 # 2))) eqn:E1;
    [apply Qltb_lt in E1|apply Qltb_ge in E1];
    (destruct (Qltb distance (double_mul safety_buffer (round_double (8 # 10)))) eqn:E2;
     [apply Qltb_lt in E2|apply Qltb_ge in E2]);
    (split; [|split]); intros; try reflexivity; exfalso;
    repeat match goal with
           | Ha : ?x < ?y, Hb : ?y <= ?x |- _ =>
               apply (Qlt_irrefl x); apply (Qlt_le_trans _ y); assumption
           end.
Qed.

(** ** The conflict report *)

Section ReportClaims.
Variable sqrt : Q -> Q.
Variable format_description : Q -> Q -> string.

(** C2. In every report that [check_conflicts] returns, each conflict
    record has a distance strictly below the safety buffer of the call, and
    [is_safe] is true exactly when the list of conflicts is empty; with no
    other flight the report is safe and has no conflict. *)
Theorem report_inside_buffer_and_safe_flag primary others safety_buffer r :
  check_conflicts sqrt format_description primary others safety_buffer = Ok r ->
  Forall (fun c => c_distance c < safety_buffer) (conflicts r) /\
  (is_safe r = true <-> conflicts r = []) /\
  (others = [] -> is_safe r = true /\ conflicts r = []).
Proof.
  intro H. pose proof (check_conflicts_inv _ _ _ _ _ _ H) as (Hrec & _ & Hsafe & _).
  split; [|split].
  - eapply Forall_impl; [|exact Hrec]. intros c Hc. apply Hc.
  - rewrite Hsafe, Nat.eqb_eq. apply length_zero_iff_nil.
  - intros ->. unfold check_conflicts in H. simpl in H.
    injection H as <-. simpl. split; reflexivity.
Qed.

(** C5. Every conflict record of a report has
    [severity_score = max(0, (safety_buffer - distance) / safety_buffer)],
    and severity HIGH when [distance < safety_buffer * 0.5], MEDIUM when it
    is not but [distance < safety_buffer * 0.8], LOW otherwise; the two
    products are floats, as the code computes them.  As built by
    [_create_conflict_record], the score is 0 when the distance equals the
    buffer and 1 when the distance is 0, and the severity follows the same
    bands. *)
Theorem severity_of_conflict_records :
  (forall primary others safety_buffer r,
      check_conflicts sqrt format_description primary others safety_buffer = Ok r ->
      Forall (fun c =>
                c_severity_score c ==
                  Qmax 0 ((safety_buffer - c_distance c) / safety_buffer) /\
                (c_distance c < double_mul safety_buffer (1 # 2) ->
                 c_severity c = "HIGH"%string) /\
                (double_mul safety_buffer (1 # 2) <= c_distance c ->
                 c_distance c < double_mul safety_buffer (round_double (8 # 10)) ->
                 c_severity c = "MEDIUM"%string) /\
                (double_mul safety_buffer (1 # 2) <= c_distance c ->
                 double_mul safety_buffer (round_double (8 # 10)) <= c_distance c ->
                 c_severity c = "LOW"%string))
             (conflicts r)) /\
  (forall primary_pos other_pos time_point distance other_flight_id safety_buffer c,
      _create_conflict_record format_description primary_pos other_pos time_point
        distance other_flight_id safety_buffer = Ok c ->
      (distance == safety_buffer -> c_severity_score c == 0) /\
      (distance == 0 -> c_severity_score c == 1) /\
      (distance < double_mul safety_buffer (1 # 2) ->
       c_severity c = "HIGH"%string) /\
      (double_mul safety_buffer (1 # 2) <= distance ->
       distance < double_mul safety_buffer (round_double (8 # 10)) ->
       c_severity c = "MEDIUM"%string) /\
      (double_mul safety_buffer (1 # 2) <= distance ->
       double_mul safety_buffer (round_double (8 # 10)) <= distance ->
       c_severity c = "LOW"%string)).
Proof.
  split.
  - intros primary others b r H.
    pose proof (check_conflicts_inv _ _ _ _ _ _ H) as (Hrec & _).
    eapply Forall_impl; [|exact Hrec].
    intros c (_ & _ & Hd & Hs & Hv). rewrite Hs, Hv.
    split; [apply py_max2_Qmax|]. apply severity_of_bands.
  - intros pp op t d id b c H.
    apply create_conflict_record_inv in H.
    destruct H as (_ & _ & _ & _ & Hs & Hv & Hb).
    rewrite Hs, Hv, py_max2_Qmax. split; [|split; [|apply severity_of_bands]]; intro Hd.
    + assert (E : (b - d) / b == 0).
      { unfold Qdiv. assert (E0 : b - d == 0) by lra. rewrite E0. ring. }
      rewrite E. apply Q.max_l. lra.
    + assert (E : (b - d) / b == 1).
      { rewrite Hd. field. assumption. }
      rewrite E. apply Q.max_r. lra.
Qed.

(** C8. Every conflict record of a report has type ['spatial'], so the
    summary counts no temporal violation and as many spatial violations as
    there are conflicts. *)
Theorem report_conflicts_all_spatial primary others safety_buffer r :
  check_conflicts sqrt format_description primary others safety_buffer = Ok r ->
  Forall (fun c => c_type c = "spatial"%string) (conflicts r) /\
  temporal_violations (summary r) = 0%nat /\
  spatial_violations (summary r) = length (conflicts r) /\
  spatial_violations (summary r) = total_conflicts r.
Proof.
  intro H. pose proof (check_conflicts_inv _ _ _ _ _ _ H) as (Hrec & Hsum & _ & Htot).
  rewrite Hsum, Htot. simpl. repeat split.
  eapply Forall_impl; [|exact Hrec]. intros c Hc. apply Hc.
Qed.

(** C9. [total_checks] of a report is the sum, over the other flights, of
    the number of primary samples times the number of samples of that
    flight. *)
Theorem report_total_checks_counts_sample_pairs primary others safety_buffer r :
  check_conflicts sqrt format_description primary others safety_buffer = Ok r ->
  total_checks (summary r) =
    list_sum (map (fun f => (length primary * length (trajectory f))%nat) others).
Proof.
  intro H. pose proof (check_conflicts_inv _ _ _ _ _ _ H) as (_ & Hsum & _).
  rewrite Hsum. reflexivity.
Qed.

End ReportClaims.

(** ** Instants that are skipped *)

Section LookupClaims.
Variable sqrt : Q -> Q.
Variable format_description : Q -> Q -> string.
Hypothesis sqrt_nonneg : forall q, 0 <= sqrt q.

Lemma check_instant_skipped primary_traj other_traj other_flight_id safety_buffer
    time_point :
  check_instant sqrt format_description primary_traj other_traj other_flight_id
    safety_buffer time_point = Ok Skipped ->
  primary_traj = [] \/ other_traj = [].
Proof using Type.
  intro H.
  destruct primary_traj as [|p0 pl]; [left; reflexivity|].
  destruct other_traj as [|o0 ol]; [right; reflexivity|].
  exfalso. unfold check_instant in H.
  destruct (get_position_cases (p0 :: pl) time_point) as [pp [Hpp _]]; [discriminate|].
  destruct (get_position_cases (o0 :: ol) time_point) as [op [Hop _]]; [discriminate|].
  rewrite Hpp, Hop in H. simpl in H.
  destruct (Qltb _ safety_buffer); [|discriminate].
  destruct (_create_conflict_record _ _ _ _ _ _ _); discriminate.
Qed.

End LookupClaims.

(** ** The two flights that meet, run through the detector *)

Lemma report_inside_buffer_and_safe_flag_demo :
  exists r,
    check_conflicts sqrt_floor describe primary_demo [flight_demo] 50 = Ok r /\
    Forall (fun c => c_distance c < 50) (conflicts r) /\
    (is_safe r = true <-> conflicts r = []) /\
    ([flight_demo] = [] -> is_safe r = true /\ conflicts r = []).
Proof.
  eexists. split; [vm_compute; reflexivity|].
  apply (report_inside_buffer_and_safe_flag sqrt_floor describe
           primary_demo [flight_demo] 50).
  vm_compute. reflexivity.
Defined.

Lemma report_conflicts_all_spatial_demo :
  exists r,
    check_conflicts sqrt_floor describe primary_demo [flight_demo] 50 = Ok r /\
    Forall (fun c => c_type c = "spatial"%string) (conflicts r) /\
    temporal_violations (summary r) = 0%nat /\
    spatial_violations (summary r) = length (conflicts r) /\
    spatial_violations (summary r) = total_conflicts r.
Proof.
  eexists. split; [vm_compute; reflexivity|].
  apply (report_conflicts_all_spatial sqrt_floor describe
           primary_demo [flight_demo] 50).
  vm_compute. reflexivity.
Defined.

Lemma report_total_checks_demo :
  exists r,
    check_conflicts sqrt_floor describe primary_demo [flight_demo] 50 = Ok r /\
    total_checks (summary r) = 4%nat /\
    length (all_times primary_demo (trajectory flight_demo)) = 3%nat.
Proof.
  eexists. split; [vm_compute; reflexivity|]. split; [|reflexivity].
  apply (report_total_checks_counts_sample_pairs sqrt_floor describe
           primary_demo [flight_demo] 50).
  vm_compute. reflexivity.
Defined.

Lemma severity_of_conflict_records_demo :
  (exists r c,
      check_conflicts sqrt_floor describe primary_demo [flight_demo] 50 = Ok r /\
      conflicts r = [c] /\
      c_distance c == 5 /\
      c_severity_score c == Qmax 0 ((50 - c_distance c) / 50) /\
      c_severity c = "HIGH"%string) /\
  (exists c,
      _create_conflict_record describe (Sample (mkPoint 0 0 0 0 15 0))
        (Sample (mkPoint 0 0 0 0 15 0)) 0 (round_double (344 # 10)) "F1" 43 = Ok c /\
      round_double (344 # 10) < (8 # 10) * 43 /\
      c_severity c = "LOW"%string).
Proof.
  split.
  - pose proof (proj1 (severity_of_conflict_records sqrt_floor describe)
                  primary_demo [flight_demo] 50) as H.
    destruct (check_conflicts sqrt_floor describe primary_demo [flight_demo] 50)
      as [r| |] eqn:E; try (vm_compute in E; discriminate).
    specialize (H r eq_refl).
    vm_compute in E. injection E as <-.
    inversion H as [|c l [Hs [Hh _]] _]; subst.
    eexists. eexists. split; [reflexivity|]. split; [reflexivity|].
    split; [reflexivity|]. split; [exact Hs|].
    apply Hh. vm_compute. reflexivity.
  - destruct (_create_conflict_record describe (Sample (mkPoint 0 0 0 0 15 0))
                (Sample (mkPoint 0 0 0 0 15 0)) 0 (round_double (344 # 10)) "F1" 43)
      as [c| |] eqn:E; try (vm_compute in E; discriminate).
    exists c. split; [reflexivity|]. split; [vm_compute; reflexivity|].
    apply (proj2 (severity_of_conflict_records sqrt_floor describe)
             (Sample (mkPoint 0 0 0 0 15 0)) (Sample (mkPoint 0 0 0 0 15 0)) 0
             (round_double (344 # 10)) "F1"%string 43 c E);
      vm_compute; intro H; discriminate H.
Defined.

(** ** Time normalization *)

Lemma fold_max_spec (l : list Q) :
  forall a,
    In (fold_left py_max2 l a) (a :: l) /\
    (forall x, In x (a :: l) -> x <= fold_left py_max2 l a).
Proof.
  induction l as [|b l IH]; intro a; simpl.
  - split; [auto|]. intros x [<-|[]]. lra.
  - destruct (IH (py_max2 a b)) as [Hin Hmax]. split.
    + destruct Hin as [Hin|Hin]; [|auto].
      rewrite <- Hin. unfold py_max2. destruct (Qltb a b); auto.
    + assert (Ha : a <= py_max2 a b) by apply py_max2_lower.
      assert (Hb : b <= py_max2 a b).
      { unfold py_max2. destruct (Qltb a b) eqn:E; [lra|].
        apply Qltb_ge in E. assumption. }
      assert (Hm : py_max2 a b <= fold_left py_max2 l (py_max2 a b)).
      { apply Hmax. left. reflexivity. }
      intros x [<-|[<-|Hx]]; [lra|lra|].
      apply Hmax. right. assumption.
Qed.

Lemma py_max_spec (l : list Q) :
  l <> [] ->
  exists m, py_max l = Ok m /\ In m l /\ forall x, In x l -> x <= m.
Proof.
  destruct l as [|a l]; [congruence|]. intros _.
  exists (fold_left py_max2 l a). split; [reflexivity|]. apply fold_max_spec.
Qed.

Lemma get_time_raw (waypoints : list Waypoint) :
  forallb has_time waypoints = true ->
  forall wp, In wp waypoints -> get_time wp = Ok (raw_time wp).
Proof.
  intros H wp Hin. rewrite forallb_forall in H. specialize (H wp Hin).
  unfold has_time, get_time, raw_time in *. destruct (wp_time wp); [reflexivity|discriminate].
Qed.

Lemma raw_time_Some (waypoints : list Waypoint) :
  forallb has_time waypoints = true ->
  forall wp, In wp waypoints -> wp_time wp = Some (raw_time wp).
Proof.
  intros H wp Hin. rewrite forallb_forall in H. specialize (H wp Hin).
  unfold has_time, raw_time in *. destruct (wp_time wp); [reflexivity|discriminate].
Qed.

Lemma max_raw_time_exists (waypoints : list Waypoint) :
  waypoints <> [] ->
  forallb has_time waypoints = true ->
  exists m,
    py_max (map raw_time waypoints) = Ok m /\ is_max_raw_time waypoints m.
Proof.
  intros Hne Hall.
  destruct (py_max_spec (map raw_time waypoints)) as [m (Hm & Hin & Hmax)].
  { destruct waypoints; [congruence|discriminate]. }
  exists m. split; [assumption|]. split.
  - apply in_map_iff in Hin. destruct Hin as [wp [Hwp Hin]].
    exists wp. split; [assumption|]. rewrite <- Hwp.
    apply (raw_time_Some waypoints); assumption.
  - intros wp Hin'. apply Hmax. apply in_map. assumption.
Qed.

Lemma mapM_length {A B : Type} (f : A -> outcome B) (l : list A) :
  forall r, mapM f l = Ok r -> length r = length l.
Proof.
  induction l as [|a l IH]; simpl; intros r H.
  - injection H as <-. reflexivity.
  - apply bind_Ok_inv in H. destruct H as [b [_ H]].
    apply bind_Ok_inv in H. destruct H as [bs [Hbs H]].
    injection H as <-. simpl. f_equal. apply IH. assumption.
Qed.

Lemma enumerate_from_length {A : Type} (l : list A) :
  forall i, length (enumerate_from i l) = length l.
Proof.
  induction l as [|a l IH]; intro i; simpl; [reflexivity|]. f_equal. apply IH.
Qed.

Lemma normalize_length (waypoints : list Waypoint) (start_time end_time : Q)
    (normalized : list Position) :
  _normalize_waypoint_times waypoints start_time end_time = Ok normalized ->
  length normalized = length waypoints.
Proof.
  unfold _normalize_waypoint_times. destruct waypoints as [|w l].
  - intro H. injection H as <-. reflexivity.
  - intro H. apply bind_Ok_inv in H. destruct H as [n [Hn H]].
    injection H as <-. rewrite sorted_length.
    destruct (forallb has_time (w :: l)).
    + apply mapM_length in Hn. assumption.
    + apply mapM_length in Hn. rewrite Hn. unfold enumerate.
      apply enumerate_from_length.
Qed.

Lemma Qltb_false_le (a b : Q) : Qltb a b = false -> b <= a.
Proof. apply Qltb_ge. Qed.

Lemma Qltb_true_le (a b : Q) : Qltb a b = true -> a <= b.
Proof. intro H. apply Qltb_lt in H. lra. Qed.

Lemma normalize_explicit (waypoints : list Waypoint) (start_time end_time m : Q) :
  waypoints <> [] ->
  forallb has_time waypoints = true ->
  py_max (map raw_time waypoints) = Ok m ->
  _normalize_waypoint_times waypoints start_time end_time =
    if Qeq_bool m 0 then Raise ZeroDivisionError
    else Ok (sorted pos_time Qltb (map (rescaled start_time end_time m) waypoints)).
Proof.
  intros Hne Hall Hm. unfold _normalize_waypoint_times.
  destruct waypoints as [|w l]; [congruence|]. rewrite Hall.
  assert (Htimes : mapM get_time (w :: l) = Ok (map raw_time (w :: l))).
  { apply mapM_Ok_map. apply get_time_raw. assumption. }
  destruct (Qeq_bool m 0) eqn:E.
  - erewrite mapM_Raise; [reflexivity|].
    rewrite (get_time_raw (w :: l) Hall w (or_introl eq_refl)), bind_Ok.
    rewrite Htimes, bind_Ok, Hm, bind_Ok.
    unfold py_div. rewrite E. reflexivity.
  - erewrite mapM_Ok_map; [reflexivity|].
    intros wp Hin. rewrite (get_time_raw (w :: l) Hall wp Hin), bind_Ok.
    rewrite Htimes, bind_Ok, Hm, bind_Ok.
    unfold py_div. rewrite E. reflexivity.
Qed.

(** C3. When every waypoint carries a time, normalization maps each raw
    time to [start_time + (raw_time / max_raw_time) * (end_time - start_time)],
    [max_raw_time] being the greatest raw time of the list, keeps [x] and
    [y], replaces an absent [z] by 50, and returns the waypoints ordered by
    normalized time; [calculate_trajectory] samples these waypoints. *)
Theorem normalization_anchored_at_max
    (waypoints : list Waypoint) (start_time end_time : Q) :
  waypoints <> [] ->
  forallb has_time waypoints = true ->
  exists max_raw_time,
    is_max_raw_time waypoints max_raw_time /\
    (~ max_raw_time == 0 ->
     exists normalized,
       _normalize_waypoint_times waypoints start_time end_time = Ok normalized /\
       Permutation normalized
         (map (rescaled start_time end_time max_raw_time) waypoints) /\
       StronglySorted (fun a b => pos_time a <= pos_time b) normalized /\
       forall sqrt atan2 fuel time_step,
         (2 <= length waypoints)%nat ->
         calculate_trajectory sqrt atan2 fuel waypoints start_time end_time time_step =
           bind (sample_loop sqrt atan2 fuel normalized start_time end_time time_step [])
                (ensure_end normalized end_time)).
Proof.
  intros Hne Hall.
  destruct (max_raw_time_exists waypoints Hne Hall) as [m [Hm Hmax]].
  exists m. split; [assumption|]. intro Hm0.
  pose proof (normalize_explicit waypoints start_time end_time m Hne Hall Hm) as Hn.
  destruct (Qeq_bool m 0) eqn:E.
  { apply Qeq_bool_iff in E. contradiction. }
  eexists. split; [exact Hn|]. split; [apply sorted_perm|]. split.
  - apply sorted_ordered with (le := Qle).
    + apply Qltb_false_le.
    + apply Qltb_true_le.
    + intros a b c. apply Qle_trans.
  - intros sqrt atan2 fuel time_step Hlen. unfold calculate_trajectory.
    assert (Hlt : (length waypoints <? 2)%nat = false) by (apply Nat.ltb_ge; lia).
    rewrite Hlt, Hn. reflexivity.
Qed.

Lemma normalization_anchored_at_max_demo :
  exists max_raw_time,
    is_max_raw_time waypoints_demo max_raw_time /\
    (~ max_raw_time == 0 ->
     exists normalized,
       _normalize_waypoint_times waypoints_demo 100 160 = Ok normalized /\
       Permutation normalized (map (rescaled 100 160 max_raw_time) waypoints_demo) /\
       StronglySorted (fun a b => pos_time a <= pos_time b) normalized /\
       forall sqrt atan2 fuel time_step,
         (2 <= length waypoints_demo)%nat ->
         calculate_trajectory sqrt atan2 fuel waypoints_demo 100 160 time_step =
           bind (sample_loop sqrt atan2 fuel normalized 100 160 time_step [])
                (ensure_end normalized 160)).
Proof.
  apply (normalization_anchored_at_max waypoints_demo 100 160).
  - discriminate.
  - reflexivity.
Defined.

(** ** Interpolation and speed at a sample instant *)

Lemma last_opt_nonempty {A : Type} (l : list A) :
  l <> [] -> exists a, last_opt l = Some a.
Proof.
  induction l as [|a l IH]; [congruence|]. intros _.
  destruct l as [|b l]; [exists a; reflexivity|]. apply IH. discriminate.
Qed.

Lemma last_opt_app {A : Type} (l : list A) (a : A) : last_opt (l ++ [a]) = Some a.
Proof.
  induction l as [|b l IH]; [reflexivity|].
  simpl. destruct (l ++ [a]) eqn:E; [|assumption].
  destruct l; discriminate.
Qed.

Lemma last_opt_In {A : Type} (l : list A) (a : A) : last_opt l = Some a -> In a l.
Proof.
  induction l as [|b l IH]; [discriminate|].
  destruct l as [|c l].
  - simpl. intro H. injection H as <-. auto.
  - intro H. right. apply IH. exact H.
Qed.

(** The scan divides by the duration of a segment whose first waypoint
    lies strictly before the target time: the divisor is positive. *)
Lemma interpolate_scan_returns (waypoints : list Position) (target_time : Q)
    (final : Position) :
  match waypoints with
  | wp1 :: _ => pos_time wp1 < target_time
  | [] => True
  end ->
  exists p, interpolate_scan waypoints target_time final = Ok p.
Proof.
  induction waypoints as [|wp1 rest IH]; intro Hhead; simpl; [eauto|].
  destruct rest as [|wp2 rest]; [eauto|].
  destruct (Qle_bool (pos_time wp1) target_time) eqn:E1; simpl.
  - destruct (Qle_bool target_time (pos_time wp2)) eqn:E2.
    + apply Qle_bool_iff in E2.
      rewrite py_div_Ok by lra. simpl. eauto.
    + apply Qle_bool_false in E2. apply IH. assumption.
  - apply Qle_bool_false in E1. lra.
Qed.

Lemma interpolate_position_returns_some (waypoints : list Position) (target_time : Q) :
  waypoints <> [] ->
  exists p, _interpolate_position_at_time waypoints target_time = Ok (Some p).
Proof.
  intro Hne. destruct waypoints as [|first rest]; [congruence|].
  destruct (last_opt_nonempty (first :: rest) Hne) as [final Hfinal].
  unfold _interpolate_position_at_time. rewrite Hfinal.
  destruct (Qle_bool target_time (pos_time first)) eqn:E1; [eauto|].
  destruct (Qle_bool (pos_time final) target_time); [eauto|].
  apply Qle_bool_false in E1.
  destruct (interpolate_scan_returns (first :: rest) target_time final E1) as [p ->].
  simpl. eauto.
Qed.

Section SpeedFacts.
Variable sqrt : Q -> Q.

Lemma speed_scan_spec (waypoints : list Position) (target_time : Q) :
  exists v,
    speed_scan sqrt waypoints target_time = Ok v /\
    5 <= v <= 30 /\
    (v = default_speed \/
     exists before wp1 wp2 after,
       waypoints = before ++ wp1 :: wp2 :: after /\
       pos_time wp1 <= target_time <= pos_time wp2 /\
       pos_time wp1 < pos_time wp2 /\
       v = clamped_speed sqrt wp1 wp2).
Proof.
  induction waypoints as [|wp1 rest IH]; simpl.
  - exists default_speed. unfold default_speed. repeat split; try lra. auto.
  - destruct rest as [|wp2 rest].
    + exists default_speed. unfold default_speed. repeat split; try lra. auto.
    + assert (Hrest :
        exists v,
          speed_scan sqrt (wp2 :: rest) target_time = Ok v /\
          5 <= v <= 30 /\
          (v = default_speed \/
           exists before wp1' wp2' after,
             wp1 :: wp2 :: rest = before ++ wp1' :: wp2' :: after /\
             pos_time wp1' <= target_time <= pos_time wp2' /\
             pos_time wp1' < pos_time wp2' /\
             v = clamped_speed sqrt wp1' wp2')).
      { destruct IH as [v (Hv & Hb & Hc)]. exists v. split; [exact Hv|].
        split; [exact Hb|]. destruct Hc as [Hc|(before & a & b & after & -> & Hc)].
        - left. exact Hc.
        - right. exists (wp1 :: before), a, b, after. split; [reflexivity|exact Hc]. }
      destruct (Qle_bool (pos_time wp1) target_time &&
                Qle_bool target_time (pos_time wp2)) eqn:E; [|exact Hrest].
      destruct (Qltb 0 (pos_time wp2 - pos_time wp1)) eqn:Ed; [|exact Hrest].
      apply Qltb_lt in Ed. apply andb_true_iff in E. destruct E as [E1 E2].
      apply Qle_bool_iff in E1, E2.
      rewrite py_div_Ok by lra. simpl.
      eexists. split; [reflexivity|]. split.
      * split.
        -- apply py_max2_lower.
        -- apply py_max2_upper; [unfold min_speed; lra|apply py_min2_upper].
      * right. exists [], wp1, wp2, rest. split; [reflexivity|].
        split; [split; assumption|]. split; [lra|reflexivity].
Qed.

Lemma calculate_speed_bounds (waypoints : list Position) (target_time : Q) :
  (2 <= length waypoints)%nat ->
  exists v, _calculate_speed_at_time sqrt waypoints target_time = Ok v /\ 5 <= v <= 30.
Proof.
  intro Hlen. unfold _calculate_speed_at_time.
  assert (E : (length waypoints <? 2)%nat = false) by (apply Nat.ltb_ge; lia).
  rewrite E. destruct (speed_scan_spec waypoints target_time) as [v (Hv & Hb & _)].
  eauto.
Qed.

End SpeedFacts.

(** ** The sampling loop *)

Lemma Qnat_succ (n : nat) : Qnat (S n) == Qnat n + 1.
Proof.
  unfold Qnat. rewrite Nat2Z.inj_succ, <- Z.add_1_r, inject_Z_plus. reflexivity.
Qed.

Lemma enough_fuel_exceeds (start_time end_time time_step : Q) :
  0 < time_step ->
  end_time - start_time < Qnat (enough_fuel start_time end_time time_step) * time_step.
Proof.
  intro Hstep. unfold enough_fuel. rewrite Qnat_succ.
  set (x := (end_time - start_time) / time_step).
  assert (Hx : x < inject_Z (Qfloor x + 1)) by apply Qlt_floor.
  assert (Hn : inject_Z (Qfloor x + 1) <= Qnat (Z.to_nat (Qfloor x)) + 1).
  { unfold Qnat. rewrite inject_Z_plus.
    assert (H : inject_Z (Qfloor x) <= inject_Z (Z.of_nat (Z.to_nat (Qfloor x)))).
    { rewrite <- Zle_Qle. lia. }
    apply Qplus_le_compat; [exact H|apply Qle_refl]. }
  assert (Hmul : x * time_step == end_time - start_time).
  { unfold x. field. lra. }
  rewrite <- Hmul. apply Qmult_lt_compat_r; [assumption|]. lra.
Qed.

Section SamplerFacts.
Variable sqrt : Q -> Q.
Variable atan2 : Q -> Q -> Q.
Variable normalized_waypoints : list Position.
Variable end_time time_step : Q.
Hypothesis two_waypoints : (2 <= length normalized_waypoints)%nat.

Lemma sample_loop_step (fuel : nat) (current_time : Q) (points : list TrajectoryPoint) :
  Qle_bool current_time end_time = true ->
  exists p,
    pt_time p = current_time /\ 5 <= pt_speed p <= 30 /\
    sample_loop sqrt atan2 (S fuel) normalized_waypoints current_time end_time
      time_step points =
    sample_loop sqrt atan2 fuel normalized_waypoints (current_time + time_step) end_time
      time_step (points ++ [p]).
Proof using two_waypoints.
  intro Hle. simpl. rewrite Hle.
  destruct (interpolate_position_returns_some normalized_waypoints current_time)
    as [pos ->].
  { destruct normalized_waypoints; [simpl in two_waypoints; lia|discriminate]. }
  destruct (calculate_speed_bounds sqrt normalized_waypoints current_time two_waypoints)
    as [v [-> Hv]].
  simpl. eexists. split; [|split; [|reflexivity]]; simpl; [reflexivity|exact Hv].
Qed.

Lemma sample_loop_inv (fuel : nat) :
  forall current_time points res,
    sample_loop sqrt atan2 fuel normalized_waypoints current_time end_time time_step
      points = Ok res ->
    exists new,
      res = points ++ new /\
      Forall (fun p => pt_time p <= end_time /\ 5 <= pt_speed p <= 30) new /\
      (current_time <= end_time ->
       exists p rest, new = p :: rest /\ pt_time p = current_time) /\
      (0 < time_step ->
       Forall (fun p => current_time <= pt_time p) new /\
       StronglySorted (fun a b => pt_time a < pt_time b) new).
Proof using two_waypoints.
  induction fuel as [|fuel IH]; intros current_time points res H.
  - simpl in H. destruct (Qle_bool current_time end_time) eqn:E; [discriminate|].
    injection H as <-. apply Qle_bool_false in E.
    exists []. rewrite app_nil_r. split; [reflexivity|]. split; [constructor|].
    split; [intro; lra|]. intros _. split; constructor.
  - destruct (Qle_bool current_time end_time) eqn:E.
    + destruct (sample_loop_step fuel current_time points E) as [p (Hp & Hv & Heq)].
      rewrite Heq in H. apply IH in H.
      destruct H as [new (-> & Hall & _ & Hsorted)].
      apply Qle_bool_iff in E.
      exists (p :: new). rewrite <- app_assoc. split; [reflexivity|].
      split; [constructor; [rewrite Hp; auto|assumption]|].
      split; [eauto|].
      intro Hstep. destruct (Hsorted Hstep) as [Hfrom Hs]. split.
      * constructor; [rewrite Hp; lra|].
        eapply Forall_impl; [|exact Hfrom]. intros q Hq. simpl in Hq. lra.
      * constructor; [assumption|].
        eapply Forall_impl; [|exact Hfrom]. intros q Hq. simpl in Hq. rewrite Hp. lra.
    + simpl in H. rewrite E in H. injection H as <-. apply Qle_bool_false in E.
      exists []. rewrite app_nil_r. split; [reflexivity|]. split; [constructor|].
      split; [intro; lra|]. intros _. split; constructor.
Qed.

Lemma sample_loop_returns (fuel : nat) :
  0 < time_step ->
  forall current_time points,
    end_time - current_time < Qnat fuel * time_step ->
    exists res,
      sample_loop sqrt atan2 fuel normalized_waypoints current_time end_time time_step
        points = Ok res.
Proof using two_waypoints.
  intro Hstep. induction fuel as [|fuel IH]; intros current_time points Hfuel.
  - simpl. change (Qnat 0) with 0 in Hfuel.
    assert (E : Qle_bool current_time end_time = false) by (apply Qle_bool_false; lra).
    rewrite E. eauto.
  - destruct (Qle_bool current_time end_time) eqn:E.
    + destruct (sample_loop_step fuel current_time points E) as [p (_ & _ & ->)].
      apply IH. rewrite Qnat_succ in Hfuel. lra.
    + simpl. rewrite E. eauto.
Qed.

(** With a step that is not positive the loop, once entered, never ends. *)
Lemma sample_loop_diverges (fuel : nat) :
  time_step <= 0 ->
  forall current_time points,
    current_time <= end_time ->
    sample_loop sqrt atan2 fuel normalized_waypoints current_time end_time time_step
      points = OutOfFuel.
Proof using two_waypoints.
  intro Hstep. induction fuel as [|fuel IH]; intros current_time points Hle.
  - simpl. apply Qle_bool_iff in Hle. rewrite Hle. reflexivity.
  - assert (E : Qle_bool current_time end_time = true) by (apply Qle_bool_iff; exact Hle).
    destruct (sample_loop_step fuel current_time points E) as [p (_ & _ & ->)].
    apply IH. lra.
Qed.

End SamplerFacts.

Lemma ensure_end_cases (normalized_waypoints : list Position) (end_time : Q)
    (samples res : list TrajectoryPoint) :
  ensure_end normalized_waypoints end_time samples = Ok res ->
  (res = samples /\
   forall p, last_opt samples = Some p -> end_time <= pt_time p) \/
  (exists p endpoint,
      last_opt samples = Some p /\ pt_time p < end_time /\
      res = samples ++ [endpoint] /\
      pt_time endpoint = end_time /\ pt_speed endpoint = 0 /\
      pt_heading endpoint = pt_heading p /\
      exists final, last_opt normalized_waypoints = Some final /\
        pt_x endpoint = pos_x final /\ pt_y endpoint = pos_y final /\
        pt_z endpoint = pos_z final).
Proof.
  unfold ensure_end. destruct (last_opt samples) as [p|] eqn:Hlast.
  - destruct (Qltb (pt_time p) end_time) eqn:E.
    + destruct (last_opt normalized_waypoints) as [final|] eqn:Hf; [|discriminate].
      intro H. injection H as <-. right. apply Qltb_lt in E.
      eexists. eexists. split; [reflexivity|]. split; [exact E|].
      split; [reflexivity|]. simpl. repeat split. eexists. repeat split.
    + intro H. injection H as <-. left. split; [reflexivity|].
      intros q Hq. injection Hq as <-. apply Qltb_ge in E. exact E.
  - intro H. injection H as <-. left. split; [reflexivity|]. discriminate.
Qed.

Lemma ensure_end_returns (normalized_waypoints : list Position) (end_time : Q)
    (samples : list TrajectoryPoint) :
  normalized_waypoints <> [] ->
  exists res, ensure_end normalized_waypoints end_time samples = Ok res.
Proof.
  intro Hne. unfold ensure_end.
  destruct (last_opt_nonempty normalized_waypoints Hne) as [final ->].
  destruct (last_opt samples) as [p|]; [|eauto].
  destruct (Qltb (pt_time p) end_time); eauto.
Qed.

(** A call with at least two waypoints: normalization, the loop, the end point. *)
Lemma calculate_trajectory_inv sqrt atan2 fuel waypoints start_time end_time time_step
    traj :
  (2 <= length waypoints)%nat ->
  calculate_trajectory sqrt atan2 fuel waypoints start_time end_time time_step = Ok traj ->
  exists normalized samples,
    _normalize_waypoint_times waypoints start_time end_time = Ok normalized /\
    (2 <= length normalized)%nat /\
    sample_loop sqrt atan2 fuel normalized start_time end_time time_step [] = Ok samples /\
    ensure_end normalized end_time samples = Ok traj.
Proof.
  intros Hlen H. unfold calculate_trajectory in H.
  assert (E : (length waypoints <? 2)%nat = false) by (apply Nat.ltb_ge; lia).
  rewrite E in H.
  apply bind_Ok_inv in H. destruct H as [normalized [Hn H]].
  apply bind_Ok_inv in H. destruct H as [samples [Hs H]].
  exists normalized, samples. repeat split; try assumption.
  rewrite (normalize_length _ _ _ _ Hn). exact Hlen.
Qed.

Lemma StronglySorted_snoc {A : Type} (R : A -> A -> Prop) (l : list A) (x : A) :
  StronglySorted R l -> Forall (fun a => R a x) l -> StronglySorted R (l ++ [x]).
Proof.
  induction 1 as [|a l Hl IH Ha]; intro Hx; simpl.
  - repeat constructor.
  - inversion Hx as [|? ? Hax Hlx]; subst.
    constructor; [apply IH; assumption|].
    apply Forall_app. split; [assumption|]. constructor; [assumption|constructor].
Qed.

Lemma StronglySorted_weaken {A : Type} (R S : A -> A -> Prop) (l : list A) :
  (forall a b, R a b -> S a b) -> StronglySorted R l -> StronglySorted S l.
Proof.
  intro HRS. induction 1 as [|a l Hl IH Ha]; constructor; [assumption|].
  eapply Forall_impl; [|exact Ha]. intros b Hb. apply HRS. exact Hb.
Qed.

Lemma calculate_trajectory_short sqrt atan2 fuel waypoints start_time end_time
    time_step :
  (length waypoints < 2)%nat ->
  calculate_trajectory sqrt atan2 fuel waypoints start_time end_time time_step = Ok [].
Proof.
  intro H. unfold calculate_trajectory.
  apply Nat.ltb_lt in H. rewrite H. reflexivity.
Qed.

(** A mission in which every waypoint carries a time and the greatest raw
    time is zero makes normalization divide by zero. *)
Lemma calculate_trajectory_zero_max sqrt atan2 fuel waypoints start_time end_time
    time_step m :
  (2 <= length waypoints)%nat ->
  forallb has_time waypoints = true ->
  py_max (map raw_time waypoints) = Ok m ->
  m == 0 ->
  calculate_trajectory sqrt atan2 fuel waypoints start_time end_time time_step
    = Raise ZeroDivisionError.
Proof.
  intros Hlen Hall Hm Hzero. unfold calculate_trajectory.
  assert (E : (length waypoints <? 2)%nat = false) by (apply Nat.ltb_ge; lia).
  rewrite E.
  rewrite (normalize_explicit waypoints start_time end_time m); try assumption.
  - apply Qeq_bool_iff in Hzero. rewrite Hzero. reflexivity.
  - intros ->. simpl in Hlen. lia.
Qed.

(** ** The sampled trajectory *)

Section SamplerClaims.
Variable sqrt : Q -> Q.
Variable atan2 : Q -> Q -> Q.

(** C7. With fewer than two waypoints [calculate_trajectory] returns the
    empty sequence, whatever the window and the step, and raises nothing. *)
Theorem short_missions_give_empty_trajectory fuel waypoints start_time end_time
    time_step :
  (length waypoints < 2)%nat ->
  calculate_trajectory sqrt atan2 fuel waypoints start_time end_time time_step = Ok [].
Proof. apply calculate_trajectory_short. Qed.

(** C4. With at least two waypoints, [start_time < end_time] and a
    positive step, every trajectory that [calculate_trajectory] returns
    has non-decreasing times, starts at or after [start_time] and ends at
    [end_time]: it is the list of samples, followed by one more point at
    [end_time] when the last sample is strictly earlier.  A trajectory is
    returned, within [enough_fuel] iterations, whenever normalization
    returns. *)
Theorem sampled_times_ordered_and_anchored waypoints start_time end_time time_step :
  (2 <= length waypoints)%nat ->
  start_time < end_time ->
  0 < time_step ->
  (forall fuel traj,
      calculate_trajectory sqrt atan2 fuel waypoints start_time end_time time_step
        = Ok traj ->
      StronglySorted (fun a b => pt_time a <= pt_time b) traj /\
      (exists p rest, traj = p :: rest /\ start_time <= pt_time p) /\
      (exists p, last_opt traj = Some p /\ pt_time p == end_time) /\
      (exists samples last_sample,
          last_opt samples = Some last_sample /\
          ((end_time <= pt_time last_sample /\ traj = samples) \/
           (pt_time last_sample < end_time /\
            exists endpoint, traj = samples ++ [endpoint] /\
                             pt_time endpoint = end_time)))) /\
  (forall normalized,
      _normalize_waypoint_times waypoints start_time end_time = Ok normalized ->
      exists traj,
        calculate_trajectory sqrt atan2 (enough_fuel start_time end_time time_step)
          waypoints start_time end_time time_step = Ok traj).
Proof.
  intros Hlen Hwin Hstep. split.
  - intros fuel traj H.
    destruct (calculate_trajectory_inv _ _ _ _ _ _ _ _ Hlen H)
      as (nw & samples & Hn & Hnw & Hloop & Hend).
    destruct (sample_loop_inv sqrt atan2 nw end_time time_step Hnw fuel _ _ _ Hloop)
      as (new & Hnew & Hall & Hfirst & Hsorted).
    simpl in Hnew. subst new.
    destruct Hfirst as (p & rest & Hs & Hp); [lra|].
    destruct (Hsorted Hstep) as [Hfrom Hlt].
    assert (Hle : StronglySorted (fun a b => pt_time a <= pt_time b) samples).
    { eapply StronglySorted_weaken; [|exact Hlt]. intros a b Hab. simpl in Hab. lra. }
    destruct (last_opt_nonempty samples) as [lp Hlp]; [rewrite Hs; discriminate|].
    assert (Hlp_le : pt_time lp <= end_time).
    { pose proof (last_opt_In _ _ Hlp) as Hin.
      rewrite Forall_forall in Hall. apply (Hall lp Hin). }
    destruct (ensure_end_cases _ _ _ _ Hend)
      as [[-> Hge]|(q & endpoint & Hq & Hqlt & -> & Ht & _)].
    + specialize (Hge lp Hlp). repeat split.
      * exact Hle.
      * exists p, rest. split; [exact Hs|]. rewrite Hp. lra.
      * exists lp. split; [exact Hlp|]. lra.
      * exists samples, lp. split; [exact Hlp|]. left. split; [exact Hge|reflexivity].
    + repeat split.
      * apply StronglySorted_snoc; [exact Hle|].
        eapply Forall_impl; [|exact Hall]. intros a [Ha _]. rewrite Ht. exact Ha.
      * exists p, (rest ++ [endpoint]). split; [rewrite Hs; reflexivity|].
        rewrite Hp. lra.
      * exists endpoint. split; [apply last_opt_app|]. rewrite Ht. reflexivity.
      * exists samples, q. split; [exact Hq|]. right. split; [exact Hqlt|].
        exists endpoint. split; [reflexivity|exact Ht].
  - intros nw Hn. unfold calculate_trajectory.
    assert (E : (length waypoints <? 2)%nat = false) by (apply Nat.ltb_ge; lia).
    rewrite E, Hn, bind_Ok.
    assert (Hnw : (2 <= length nw)%nat).
    { rewrite (normalize_length _ _ _ _ Hn). exact Hlen. }
    destruct (sample_loop_returns sqrt atan2 nw end_time time_step Hnw
                (enough_fuel start_time end_time time_step) Hstep start_time [])
      as [samples ->].
    { apply enough_fuel_exceeds. exact Hstep. }
    rewrite bind_Ok. apply ensure_end_returns.
    destruct nw; [simpl in Hnw; lia|discriminate].
Qed.

(** C1.  [calculate_trajectory] raises on a mission it can be handed: every
    waypoint carries the raw time 0, so the greatest raw time is 0 and
    normalization divides by it. *)
Theorem zero_raw_times_raise fuel :
  calculate_trajectory sqrt atan2 fuel waypoints_zero_times 0 10 5
    = Raise ZeroDivisionError.
Proof. reflexivity. Qed.

End SamplerClaims.

(** ** The scheduled mission, sampled every 25 s over [[100, 160]] *)

Lemma short_missions_give_empty_trajectory_demo :
  calculate_trajectory sqrt_floor atan2_axes 0 [mkWaypoint 0 0 None None] 0 10 5 = Ok [].
Proof.
  apply (short_missions_give_empty_trajectory sqrt_floor atan2_axes 0
           [mkWaypoint 0 0 None None] 0 10 5).
  simpl. lia.
Defined.

Lemma sampled_times_ordered_and_anchored_demo :
  exists traj,
    calculate_trajectory sqrt_floor atan2_axes (enough_fuel 100 160 25)
      waypoints_demo 100 160 25 = Ok traj /\
    StronglySorted (fun a b => pt_time a <= pt_time b) traj /\
    (exists p rest, traj = p :: rest /\ 100 <= pt_time p) /\
    (exists p, last_opt traj = Some p /\ pt_time p == 160).
Proof.
  destruct (sampled_times_ordered_and_anchored sqrt_floor atan2_axes
              waypoints_demo 100 160 25) as [Hprops Hreturns].
  - simpl. lia.
  - reflexivity.
  - reflexivity.
  - destruct (_normalize_waypoint_times waypoints_demo 100 160) as [nw| |] eqn:En;
      try (vm_compute in En; discriminate).
    destruct (Hreturns nw eq_refl) as [traj Ht].
    exists traj. split; [exact Ht|].
    destruct (Hprops _ _ Ht) as (Hsorted & Hfirst & Hlast & _).
    split; [exact Hsorted|]. split; [exact Hfirst|exact Hlast].
Defined.

(** * Further properties of the detector *)

Lemma key_ltb_false_le (a b : Q * Q) : key_ltb a b = false -> key_le b a.
Proof.
  unfold key_ltb, key_le. intro H. apply orb_false_iff in H. destruct H as [H1 H2].
  apply Qltb_ge in H1.
  destruct (Qeq_bool (fst a) (fst b)) eqn:E.
  - apply Qeq_bool_iff in E. simpl in H2. apply Qltb_ge in H2. right. split; [lra|exact H2].
  - left. apply Qle_lt_or_eq in H1. destruct H1 as [H1|H1]; [exact H1|].
    assert (E' : fst a == fst b) by lra. apply Qeq_bool_iff in E'. congruence.
Qed.

Lemma key_ltb_true_le (a b : Q * Q) : key_ltb a b = true -> key_le a b.
Proof.
  unfold key_ltb, key_le. intro H. apply orb_true_iff in H. destruct H as [H|H].
  - left. apply Qltb_lt. exact H.
  - apply andb_true_iff in H. destruct H as [H1 H2].
    apply Qeq_bool_iff in H1. apply Qltb_lt in H2. right. split; [exact H1|lra].
Qed.

Lemma key_le_trans (a b c : Q * Q) : key_le a b -> key_le b c -> key_le a c.
Proof.
  unfold key_le. intros [H1|[H1 H1']] [H2|[H2 H2']].
  - left. lra.
  - left. lra.
  - left. lra.
  - right. split; lra.
Qed.

Section SortedReport.
Variable sqrt : Q -> Q.
Variable format_description : Q -> Q -> string.

(** X1. The conflicts of a report are in non-decreasing order of
    [(severity_score, time)]: least severe first, earliest first among
    equally severe ones. *)
Theorem report_conflicts_sorted primary others safety_buffer r :
  check_conflicts sqrt format_description primary others safety_buffer = Ok r ->
  StronglySorted (fun c1 c2 => key_le (conflict_key c1) (conflict_key c2))
    (conflicts r).
Proof.
  unfold check_conflicts. intro H.
  apply bind_Ok_inv in H. destruct H as [[found checks] [_ H]].
  injection H as <-. simpl.
  apply sorted_ordered with (le := key_le).
  - apply key_ltb_false_le.
  - apply key_ltb_true_le.
  - apply key_le_trans.
Qed.

End SortedReport.

Lemma report_conflicts_sorted_demo :
  exists r,
    check_conflicts sqrt_floor describe primary_demo [flight_demo; flight_close] 50
      = Ok r /\
    map c_distance (conflicts r) = [30; 20; 5] /\
    StronglySorted (fun c1 c2 => key_le (conflict_key c1) (conflict_key c2))
      (conflicts r).
Proof.
  eexists. split; [vm_compute; reflexivity|]. split; [reflexivity|].
  apply (report_conflicts_sorted sqrt_floor describe primary_demo
           [flight_demo; flight_close] 50).
  vm_compute. reflexivity.
Defined.

(** ** The merged time base *)

Lemma add_key_fold_subset (l : list Q) :
  forall acc k, In k (fold_left add_key l acc) -> In k acc \/ In k l.
Proof.
  induction l as [|a l IH]; intros acc k H; simpl in *; [auto|].
  apply IH in H. destruct H as [H|H]; [|auto].
  unfold add_key in H. destruct (existsb (Qeq_bool a) acc); [auto|].
  apply in_app_or in H. destruct H as [H|[H|[]]]; auto.
Qed.

Lemma add_key_fold_keeps (l : list Q) :
  forall acc k, In k acc -> In k (fold_left add_key l acc).
Proof.
  induction l as [|a l IH]; intros acc k H; simpl; [exact H|].
  apply IH. unfold add_key. destruct (existsb (Qeq_bool a) acc); [exact H|].
  apply in_or_app. auto.
Qed.

Lemma add_key_fold_covers (l : list Q) :
  forall acc t, In t l -> exists k, In k (fold_left add_key l acc) /\ k == t.
Proof.
  induction l as [|a l IH]; intros acc t H; simpl in *; [contradiction|].
  destruct H as [<-|H]; [|apply IH; exact H].
  unfold add_key. destruct (existsb (Qeq_bool a) acc) eqn:E.
  - apply existsb_exists in E. destruct E as [k [Hk Hak]].
    apply Qeq_bool_iff in Hak. exists k. split; [|lra].
    apply add_key_fold_keeps. exact Hk.
  - exists a. split; [|reflexivity].
    apply add_key_fold_keeps. apply in_or_app. right. left. reflexivity.
Qed.

Lemma distinct_snoc (l : list Q) (k : Q) :
  ForallOrdPairs (fun a b => ~ a == b) l ->
  Forall (fun a => ~ a == k) l ->
  ForallOrdPairs (fun a b => ~ a == b) (l ++ [k]).
Proof.
  induction 1 as [|a l Ha Hl IH]; intro Hk; simpl.
  - constructor; constructor.
  - inversion Hk as [|? ? Hak Hlk]; subst. constructor.
    + apply Forall_app. split; [exact Ha|]. constructor; [exact Hak|constructor].
    + apply IH. exact Hlk.
Qed.

Lemma add_key_fold_distinct (l : list Q) :
  forall acc,
    ForallOrdPairs (fun a b => ~ a == b) acc ->
    ForallOrdPairs (fun a b => ~ a == b) (fold_left add_key l acc).
Proof.
  induction l as [|a l IH]; intros acc H; simpl; [exact H|].
  apply IH. unfold add_key. destruct (existsb (Qeq_bool a) acc) eqn:E; [exact H|].
  apply distinct_snoc; [exact H|].
  apply Forall_forall. intros x Hx Hxa.
  assert (Hex : existsb (Qeq_bool a) acc = true).
  { apply existsb_exists. exists x. split; [exact Hx|].
    apply Qeq_bool_iff. symmetry. exact Hxa. }
  congruence.
Qed.

Lemma insert_sorted_strict (a : Q) (l : list Q) :
  StronglySorted Qlt l ->
  Forall (fun b => ~ a == b) l ->
  StronglySorted Qlt (insert_sorted (fun t : Q => t) Qltb a l).
Proof.
  induction 1 as [|b l Hl IH Hb]; intro Hne; simpl.
  - repeat constructor.
  - inversion Hne as [|? ? Hab Hrest]; subst.
    destruct (Qltb b a) eqn:E.
    + apply Qltb_lt in E. constructor; [apply IH; exact Hrest|].
      apply Forall_forall. intros x Hx.
      apply (Permutation_in _ (insert_sorted_perm _ _ a l)) in Hx.
      destruct Hx as [<-|Hx]; [exact E|].
      rewrite Forall_forall in Hb. auto.
    + apply Qltb_ge in E.
      assert (Hlt : a < b).
      { apply Qle_lt_or_eq in E. destruct E as [E|E]; [exact E|contradiction]. }
      constructor; [constructor; assumption|].
      constructor; [exact Hlt|].
      eapply Forall_impl; [|exact Hb]. intros x Hx. simpl in Hx. lra.
Qed.

Lemma sorted_strict (l : list Q) :
  ForallOrdPairs (fun a b => ~ a == b) l ->
  StronglySorted Qlt (sorted (fun t : Q => t) Qltb l).
Proof.
  induction 1 as [|a l Ha Hl IH]; simpl; [constructor|].
  apply insert_sorted_strict; [exact IH|].
  apply sorted_Forall. exact Ha.
Qed.

(** X2. The instants at which two trajectories are compared are strictly
    increasing, each is the time of a sample of one of the two
    trajectories, and every sample time of either trajectory is among them
    (up to numeric equality). *)
Theorem all_times_strictly_increasing_union
    (primary_traj other_traj : list TrajectoryPoint) :
  StronglySorted Qlt (all_times primary_traj other_traj) /\
  (forall t, In t (all_times primary_traj other_traj) ->
             exists p, (In p primary_traj \/ In p other_traj) /\ pt_time p = t) /\
  (forall p, In p primary_traj \/ In p other_traj ->
             exists t, In t (all_times primary_traj other_traj) /\ t == pt_time p).
Proof.
  unfold all_times, time_keys. split; [|split].
  - apply sorted_strict. apply add_key_fold_distinct. constructor.
  - intros t Ht. apply sorted_In in Ht. apply add_key_fold_subset in Ht.
    destruct Ht as [[]|Ht]. apply in_app_or in Ht.
    destruct Ht as [Ht|Ht]; apply in_map_iff in Ht; destruct Ht as [p [Hp Hin]];
      exists p; auto.
  - intros p Hp.
    destruct (add_key_fold_covers (map pt_time primary_traj ++ map pt_time other_traj)
                [] (pt_time p)) as [k [Hk Hkt]].
    + apply in_or_app. destruct Hp as [Hp|Hp]; [left|right]; apply in_map; exact Hp.
    + exists k. split; [|exact Hkt]. apply sorted_In. exact Hk.
Qed.

Lemma all_times_strictly_increasing_union_demo :
  all_times primary_demo (trajectory flight_demo) = [0; 60; 120] /\
  StronglySorted Qlt (all_times primary_demo (trajectory flight_demo)).
Proof.
  split; [reflexivity|].
  apply (all_times_strictly_increasing_union primary_demo (trajectory flight_demo)).
Defined.

(** ** Which samples the lookup brackets a time with *)

Lemma latest_before_ext (t : Q) (s s' : list TrajectoryPoint) ob :
  (forall x, In x s <-> In x s') -> latest_before t s ob -> latest_before t s' ob.
Proof.
  intros Hext. unfold latest_before. destruct ob as [b|].
  - intros (Hin & Hlt & Hmax). split; [apply Hext; exact Hin|]. split; [exact Hlt|].
    intros p Hp. apply Hmax. apply Hext. exact Hp.
  - intros H p Hp. apply H. apply Hext. exact Hp.
Qed.

Lemma earliest_after_ext (t : Q) (s s' : list TrajectoryPoint) oa :
  (forall x, In x s <-> In x s') -> earliest_after t s oa -> earliest_after t s' oa.
Proof.
  intros Hext. unfold earliest_after. destruct oa as [a|].
  - intros (Hin & Hlt & Hmin). split; [apply Hext; exact Hin|]. split; [exact Hlt|].
    intros p Hp. apply Hmin. apply Hext. exact Hp.
  - intros H p Hp. apply H. apply Hext. exact Hp.
Qed.

Lemma latest_before_skip (t : Q) (seen : list TrajectoryPoint) ob p :
  ~ pt_time p < t -> latest_before t seen ob -> latest_before t (p :: seen) ob.
Proof.
  intro Hp. unfold latest_before. destruct ob as [b|].
  - intros (Hin & Hlt & Hmax). split; [right; exact Hin|]. split; [exact Hlt|].
    intros q [<-|Hq] Hqt; [contradiction|auto].
  - intros H q [<-|Hq]; auto.
Qed.

Lemma earliest_after_skip (t : Q) (seen : list TrajectoryPoint) oa p :
  ~ t < pt_time p -> earliest_after t seen oa -> earliest_after t (p :: seen) oa.
Proof.
  intro Hp. unfold earliest_after. destruct oa as [a|].
  - intros (Hin & Hlt & Hmin). split; [right; exact Hin|]. split; [exact Hlt|].
    intros q [<-|Hq] Hqt; [contradiction|auto].
  - intros H q [<-|Hq]; auto.
Qed.

Lemma bracket_step_spec (t : Q) (seen : list TrajectoryPoint) st p :
  latest_before t seen (fst st) -> earliest_after t seen (snd st) ->
  latest_before t (p :: seen) (fst (bracket_step t st p)) /\
  earliest_after t (p :: seen) (snd (bracket_step t st p)).
Proof.
  destruct st as [ob oa]. simpl. intros Hb Ha. unfold bracket_step.
  destruct (Qltb (pt_time p) t) eqn:E1.
  - apply Qltb_lt in E1.
    assert (Ha' : earliest_after t (p :: seen) oa).
    { apply earliest_after_skip; [lra|exact Ha]. }
    destruct ob as [b|].
    + destruct Hb as (Hin & Hlt & Hmax).
      destruct (Qltb (pt_time b) (pt_time p)) eqn:E2; simpl; (split; [|exact Ha']).
      * apply Qltb_lt in E2. split; [left; reflexivity|]. split; [exact E1|].
        intros q [<-|Hq] Hqt; [lra|]. specialize (Hmax q Hq Hqt). lra.
      * apply Qltb_ge in E2. split; [right; exact Hin|]. split; [exact Hlt|].
        intros q [<-|Hq] Hqt; [exact E2|auto].
    + simpl. split; [|exact Ha']. split; [left; reflexivity|]. split; [exact E1|].
      intros q [<-|Hq] Hqt; [lra|]. exfalso. apply (Hb q Hq Hqt).
  - apply Qltb_ge in E1.
    assert (Hb' : latest_before t (p :: seen) ob).
    { apply latest_before_skip; [lra|exact Hb]. }
    destruct (Qltb t (pt_time p)) eqn:E3.
    + apply Qltb_lt in E3. destruct oa as [a|].
      * destruct Ha as (Hin & Hlt & Hmin).
        destruct (Qltb (pt_time p) (pt_time a)) eqn:E4; simpl; (split; [exact Hb'|]).
        -- apply Qltb_lt in E4. split; [left; reflexivity|]. split; [exact E3|].
           intros q [<-|Hq] Hqt; [lra|]. specialize (Hmin q Hq Hqt). lra.
        -- apply Qltb_ge in E4. split; [right; exact Hin|]. split; [exact Hlt|].
           intros q [<-|Hq] Hqt; [exact E4|auto].
      * simpl. split; [exact Hb'|]. split; [left; reflexivity|]. split; [exact E3|].
        intros q [<-|Hq] Hqt; [lra|]. exfalso. apply (Ha q Hq Hqt).
    + apply Qltb_ge in E3. simpl. split; [exact Hb'|].
      apply earliest_after_skip; [lra|exact Ha].
Qed.

Lemma bracket_fold_spec_acc (t : Q) (l : list TrajectoryPoint) :
  forall seen st,
    latest_before t seen (fst st) -> earliest_after t seen (snd st) ->
    latest_before t (rev l ++ seen) (fst (fold_left (bracket_step t) l st)) /\
    earliest_after t (rev l ++ seen) (snd (fold_left (bracket_step t) l st)).
Proof.
  induction l as [|p l IH]; intros seen st Hb Ha; simpl; [auto|].
  destruct (bracket_step_spec t seen st p Hb Ha) as [Hb' Ha'].
  rewrite <- app_assoc. simpl. apply IH; assumption.
Qed.

Lemma bracket_fold_spec (t : Q) (l : list TrajectoryPoint) :
  latest_before t l (fst (fold_left (bracket_step t) l (None, None))) /\
  earliest_after t l (snd (fold_left (bracket_step t) l (None, None))).
Proof.
  destruct (bracket_fold_spec_acc t l [] (None, None)) as [Hb Ha].
  - simpl. intros p [].
  - simpl. intros p [].
  - rewrite app_nil_r in Hb, Ha.
    split; [eapply latest_before_ext|eapply earliest_after_ext]; try eassumption;
      intro x; symmetry; apply in_rev.
Qed.

Lemma find_exact_none (samples : list TrajectoryPoint) (t : Q) :
  find (fun point => Qeq_bool (pt_time point) t) samples = None ->
  forall p, In p samples -> ~ pt_time p == t.
Proof.
  intros H p Hp Heq. apply (find_none _ _ H) in Hp.
  apply Qeq_bool_iff in Heq. congruence.
Qed.

(** X3. The lookup never extrapolates.  When a sample has the requested
    time, a sample with that time is returned.  When every sample is later
    than the requested time, the earliest sample is returned, and when
    every sample is earlier, the latest one. *)
Theorem position_lookup_returns_samples_outside_support
    (samples : list TrajectoryPoint) (target_time : Q) :
  ((exists s, In s samples /\ pt_time s == target_time) ->
   exists s, _get_position_at_time samples target_time = Ok (Some (Sample s)) /\
             In s samples /\ pt_time s == target_time) /\
  (samples <> [] -> (forall p, In p samples -> target_time < pt_time p) ->
   exists s, _get_position_at_time samples target_time = Ok (Some (Sample s)) /\
             In s samples /\ forall p, In p samples -> pt_time s <= pt_time p) /\
  (samples <> [] -> (forall p, In p samples -> pt_time p < target_time) ->
   exists s, _get_position_at_time samples target_time = Ok (Some (Sample s)) /\
             In s samples /\ forall p, In p samples -> pt_time p <= pt_time s).
Proof.
  unfold _get_position_at_time.
  pose proof (bracket_fold_spec target_time samples) as [Hb Ha].
  destruct (find _ samples) as [s|] eqn:Hfind.
  - apply find_some in Hfind. destruct Hfind as [Hin Heq]. apply Qeq_bool_iff in Heq.
    split; [|split].
    + intros _. exists s. auto.
    + intros _ Hall. specialize (Hall s Hin). lra.
    + intros _ Hall. specialize (Hall s Hin). lra.
  - pose proof (find_exact_none samples target_time Hfind) as Hnone.
    split; [|split].
    + intros [s [Hin Heq]]. exfalso. apply (Hnone s Hin Heq).
    + intros Hne Hall.
      destruct (fold_left _ samples (None, None)) as [[b|] [a|]]; simpl in Hb, Ha.
      * destruct Hb as (Hin & Hlt & _). specialize (Hall b Hin). lra.
      * destruct Hb as (Hin & Hlt & _). specialize (Hall b Hin). lra.
      * destruct Ha as (Hin & Hlt & Hmin). exists a. split; [reflexivity|].
        split; [exact Hin|]. intros p Hp. apply Hmin; [exact Hp|]. apply Hall. exact Hp.
      * destruct samples as [|p l]; [congruence|].
        exfalso. apply (Ha p (or_introl eq_refl)). apply Hall. left. reflexivity.
    + intros Hne Hall.
      destruct (fold_left _ samples (None, None)) as [[b|] [a|]]; simpl in Hb, Ha.
      * destruct Ha as (Hin & Hlt & _). specialize (Hall a Hin). lra.
      * destruct Hb as (Hin & Hlt & Hmax). exists b. split; [reflexivity|].
        split; [exact Hin|]. intros p Hp. apply Hmax; [exact Hp|]. apply Hall. exact Hp.
      * destruct Ha as (Hin & Hlt & _). specialize (Hall a Hin). lra.
      * destruct samples as [|p l]; [congruence|].
        exfalso. apply (Hb p (or_introl eq_refl)). apply Hall. left. reflexivity.
Qed.

Lemma position_lookup_returns_samples_outside_support_demo :
  (exists s, _get_position_at_time primary_demo 120 = Ok (Some (Sample s)) /\
             In s primary_demo /\ pt_time s == 120) /\
  (exists s, _get_position_at_time (trajectory flight_demo) 10 = Ok (Some (Sample s)) /\
             In s (trajectory flight_demo) /\
             forall p, In p (trajectory flight_demo) -> pt_time s <= pt_time p).
Proof.
  split.
  - apply (proj1 (position_lookup_returns_samples_outside_support primary_demo 120)).
    exists (mkPoint 120 50 50 60 15 0). split; [simpl; auto|reflexivity].
  - apply (proj1 (proj2 (position_lookup_returns_samples_outside_support
                           (trajectory flight_demo) 10))).
    + discriminate.
    + intros p [<-|[<-|[]]]; reflexivity.
Defined.

(** ** Interpolation between two samples *)

Lemma clamp_unit_id (r : Q) : 0 <= r -> r <= 1 -> py_max2 0 (py_min2 1 r) == r.
Proof.
  intros H0 H1. unfold py_max2, py_min2.
  destruct (Qltb r 1) eqn:E1.
  - destruct (Qltb 0 r) eqn:E2; [reflexivity|]. apply Qltb_ge in E2. lra.
  - apply Qltb_ge in E1. destruct (Qltb 0 1) eqn:E2; [lra|].
    apply Qltb_ge in E2. lra.
Qed.

Lemma unit_fraction (t t1 t2 : Q) :
  t1 < t2 -> t1 <= t -> t <= t2 ->
  0 <= (t - t1) / (t2 - t1) /\ (t - t1) / (t2 - t1) <= 1.
Proof.
  intros H12 H1 H2. split.
  - apply Qle_shift_div_l; lra.
  - apply Qle_shift_div_r; lra.
Qed.

(** X5. When no sample has the requested time and samples exist both
    before and after it, the lookup returns the linear interpolation, at
    the requested time, between the latest earlier sample and the earliest
    later one. *)
Theorem position_lookup_interpolates_between_neighbours
    (samples : list TrajectoryPoint) (target_time : Q) :
  (forall p, In p samples -> ~ pt_time p == target_time) ->
  (exists p, In p samples /\ pt_time p < target_time) ->
  (exists p, In p samples /\ target_time < pt_time p) ->
  exists b a i,
    _get_position_at_time samples target_time = Ok (Some (Interpolated i)) /\
    latest_before target_time samples (Some b) /\
    earliest_after target_time samples (Some a) /\
    pos_time i = target_time /\
    pos_x i == lerp (pt_x b) (pt_x a)
                 ((target_time - pt_time b) / (pt_time a - pt_time b)) /\
    pos_y i == lerp (pt_y b) (pt_y a)
                 ((target_time - pt_time b) / (pt_time a - pt_time b)) /\
    pos_z i == lerp (pt_z b) (pt_z a)
                 ((target_time - pt_time b) / (pt_time a - pt_time b)).
Proof.
  intros Hnone [pb [Hpb Hpbt]] [pa [Hpa Hpat]].
  unfold _get_position_at_time.
  destruct (find _ samples) as [s|] eqn:Hfind.
  { apply find_some in Hfind. destruct Hfind as [Hin Heq]. apply Qeq_bool_iff in Heq.
    exfalso. apply (Hnone s Hin Heq). }
  pose proof (bracket_fold_spec target_time samples) as [Hb Ha].
  destruct (fold_left _ samples (None, None)) as [[b|] [a|]];
    cbn [fst snd latest_before earliest_after] in Hb, Ha;
    try (exfalso; apply (Ha pa Hpa Hpat)); try (exfalso; apply (Hb pb Hpb Hpbt)).
  pose proof Hb as (_ & Hbt & _). pose proof Ha as (_ & Hat & _).
  unfold interpolate_position.
  assert (E : Qeq_bool (pt_time b) (pt_time a) = false).
  { destruct (Qeq_bool (pt_time b) (pt_time a)) eqn:E; [|reflexivity].
    apply Qeq_bool_iff in E. lra. }
  rewrite E. rewrite py_div_Ok by lra. rewrite !bind_Ok.
  set (r := (target_time - pt_time b) / (pt_time a - pt_time b)).
  destruct (unit_fraction target_time (pt_time b) (pt_time a)) as [Hr0 Hr1]; try lra.
  fold r in Hr0, Hr1.
  pose proof (clamp_unit_id r Hr0 Hr1) as Hc.
  eexists b, a, _. split; [reflexivity|]. split; [exact Hb|]. split; [exact Ha|].
  cbn [pos_x pos_y pos_z pos_time]. split; [reflexivity|].
  unfold lerp. rewrite Hc. split; [|split]; reflexivity.
Qed.

Lemma position_lookup_interpolates_between_neighbours_demo :
  exists i,
    _get_position_at_time primary_demo 60 = Ok (Some (Interpolated i)) /\
    pos_x i == 25 /\ pos_y i == 25 /\ pos_z i == 60.
Proof.
  destruct (position_lookup_interpolates_between_neighbours primary_demo 60)
    as (b & a & i & Hi & Hb & Ha & _ & Hx & Hy & Hz).
  - intros p [<-|[<-|[]]]; intro H; discriminate H.
  - exists (mkPoint 0 0 0 60 15 0). split; [left; reflexivity|reflexivity].
  - exists (mkPoint 120 50 50 60 15 0). split; [right; left; reflexivity|reflexivity].
  - exists i. split; [exact Hi|].
    vm_compute in Hi. injection Hi as <-. split; [|split]; reflexivity.
Defined.

(** ** The lookup, case by case *)

Lemma find_first {A : Type} (f : A -> bool) (l : list A) (a : A) :
  find f l = Some a ->
  exists before after,
    l = before ++ a :: after /\ f a = true /\ Forall (fun b => f b = false) before.
Proof.
  induction l as [|b l IH]; cbn [find]; [discriminate|].
  destruct (f b) eqn:E.
  - intro H. injection H as <-. exists [], l. split; [reflexivity|].
    split; [exact E|constructor].
  - intro H. destruct (IH H) as (before & after & -> & Ha & Hb).
    exists (b :: before), after. split; [reflexivity|]. split; [exact Ha|].
    constructor; assumption.
Qed.

(** What the lookup returns on a trajectory that is not empty: the first
    sample at the requested time; or else the interpolation between the
    latest sample before and the earliest sample after; or else the one of
    these two that exists. *)
Lemma get_position_pinned (samples : list TrajectoryPoint) (target_time : Q) :
  samples <> [] ->
  exists p,
    _get_position_at_time samples target_time = Ok (Some p) /\
    ((exists before s after,
         samples = before ++ s :: after /\
         pt_time s == target_time /\
         Forall (fun q => ~ pt_time q == target_time) before /\
         p = Sample s) \/
     ((forall q, In q samples -> ~ pt_time q == target_time) /\
      ((exists b a i,
           latest_before target_time samples (Some b) /\
           earliest_after target_time samples (Some a) /\
           p = Interpolated i /\
           pos_time i = target_time /\
           pos_x i == lerp (pt_x b) (pt_x a)
                        ((target_time - pt_time b) / (pt_time a - pt_time b)) /\
           pos_y i == lerp (pt_y b) (pt_y a)
                        ((target_time - pt_time b) / (pt_time a - pt_time b)) /\
           pos_z i == lerp (pt_z b) (pt_z a)
                        ((target_time - pt_time b) / (pt_time a - pt_time b))) \/
       (exists b,
           latest_before target_time samples (Some b) /\
           earliest_after target_time samples None /\
           p = Sample b) \/
       (exists a,
           latest_before target_time samples None /\
           earliest_after target_time samples (Some a) /\
           p = Sample a)))).
Proof.
  intro Hne. unfold _get_position_at_time.
  destruct (find _ samples) as [s|] eqn:Hfind.
  - apply find_first in Hfind. destruct Hfind as (before & after & Hs & Heq & Hb).
    eexists. split; [reflexivity|]. left. exists before, s, after.
    split; [exact Hs|]. split; [apply Qeq_bool_iff; exact Heq|].
    split; [|reflexivity].
    eapply Forall_impl; [|exact Hb]. intros q Hq Hqt. cbn beta in Hq.
    apply Qeq_bool_iff in Hqt. congruence.
  - pose proof (find_exact_none samples target_time Hfind) as Hnone.
    pose proof (bracket_fold_spec target_time samples) as [Hb Ha].
    destruct (fold_left _ samples (None, None)) as [[b|] [a|]];
      cbn [fst snd] in Hb, Ha.
    + pose proof Hb as (_ & Hbt & _). pose proof Ha as (_ & Hat & _).
      unfold interpolate_position.
      assert (E : Qeq_bool (pt_time b) (pt_time a) = false).
      { destruct (Qeq_bool (pt_time b) (pt_time a)) eqn:E; [|reflexivity].
        apply Qeq_bool_iff in E. lra. }
      rewrite E. rewrite py_div_Ok by lra. rewrite !bind_Ok.
      set (r := (target_time - pt_time b) / (pt_time a - pt_time b)).
      destruct (unit_fraction target_time (pt_time b) (pt_time a)) as [Hr0 Hr1]; try lra.
      fold r in Hr0, Hr1.
      pose proof (clamp_unit_id r Hr0 Hr1) as Hc.
      eexists. split; [reflexivity|]. right. split; [exact Hnone|]. left.
      eexists b, a, _. split; [exact Hb|]. split; [exact Ha|].
      split; [reflexivity|]. cbn [pos_x pos_y pos_z pos_time].
      split; [reflexivity|]. unfold lerp. rewrite Hc. split; [|split]; reflexivity.
    + eexists. split; [reflexivity|]. right. split; [exact Hnone|].
      right. left. exists b. split; [exact Hb|]. split; [exact Ha|reflexivity].
    + eexists. split; [reflexivity|]. right. split; [exact Hnone|].
      right. right. exists a. split; [exact Hb|]. split; [exact Ha|reflexivity].
    + exfalso. destruct samples as [|p l]; [congruence|].
      cbn [latest_before earliest_after] in Hb, Ha.
      assert (Hp : In p (p :: l)) by (left; reflexivity).
      specialize (Hb p Hp). specialize (Ha p Hp). specialize (Hnone p Hp).
      apply Hnone. apply Qle_antisym; [apply Qnot_lt_le; exact Ha|
                                       apply Qnot_lt_le; exact Hb].
Qed.

Section LookupTotal.
Variable sqrt : Q -> Q.
Variable format_description : Q -> Q -> string.
Hypothesis sqrt_nonneg : forall q, 0 <= sqrt q.

(** C10. Times being numbers, [_get_position_at_time] returns a position
    on every trajectory that is not empty, never [None]: the first sample
    at the requested time; without one, the interpolation between the
    latest sample before and the earliest sample after; without one of
    these, the other.  Hence with two trajectories that are not empty every
    instant is measured, by the distance between the two positions, and an
    instant is skipped only when one of the trajectories is empty. *)
Theorem position_lookup_total_on_samples :
  (forall (samples : list TrajectoryPoint) (target_time : Q),
      samples <> [] ->
      exists p,
        _get_position_at_time samples target_time = Ok (Some p) /\
        ((exists before s after,
             samples = before ++ s :: after /\
             pt_time s == target_time /\
             Forall (fun q => ~ pt_time q == target_time) before /\
             p = Sample s) \/
         ((forall q, In q samples -> ~ pt_time q == target_time) /\
          ((exists b a i,
               latest_before target_time samples (Some b) /\
               earliest_after target_time samples (Some a) /\
               p = Interpolated i /\
               pos_time i = target_time /\
               pos_x i == lerp (pt_x b) (pt_x a)
                            ((target_time - pt_time b) / (pt_time a - pt_time b)) /\
               pos_y i == lerp (pt_y b) (pt_y a)
                            ((target_time - pt_time b) / (pt_time a - pt_time b)) /\
               pos_z i == lerp (pt_z b) (pt_z a)
                            ((target_time - pt_time b) / (pt_time a - pt_time b))) \/
           (exists b,
               latest_before target_time samples (Some b) /\
               earliest_after target_time samples None /\
               p = Sample b) \/
           (exists a,
               latest_before target_time samples None /\
               earliest_after target_time samples (Some a) /\
               p = Sample a))))) /\
  (forall primary_traj other_traj other_flight_id safety_buffer time_point,
      primary_traj <> [] -> other_traj <> [] ->
      exists primary_pos other_pos conflict,
        _get_position_at_time primary_traj time_point = Ok (Some primary_pos) /\
        _get_position_at_time other_traj time_point = Ok (Some other_pos) /\
        check_instant sqrt format_description primary_traj other_traj
          other_flight_id safety_buffer time_point
          = Ok (Measured (calculate_distance_3d sqrt primary_pos other_pos) conflict) /\
        (conflict <> None <->
         calculate_distance_3d sqrt primary_pos other_pos < safety_buffer)) /\
  (forall primary_traj other_traj other_flight_id safety_buffer time_point,
      check_instant sqrt format_description primary_traj other_traj
        other_flight_id safety_buffer time_point = Ok Skipped ->
      primary_traj = [] \/ other_traj = []).
Proof using sqrt_nonneg.
  split; [exact get_position_pinned|]. split.
  - intros primary_traj other_traj id b t Hp Ho.
    destruct (get_position_pinned primary_traj t Hp) as [pp [Hpp _]].
    destruct (get_position_pinned other_traj t Ho) as [op [Hop _]].
    exists pp, op. unfold check_instant. rewrite Hpp, Hop, !bind_Ok.
    cbv beta iota zeta.
    destruct (Qltb (calculate_distance_3d sqrt pp op) b) eqn:Hlt.
    + apply Qltb_lt in Hlt.
      destruct (create_conflict_record_returns format_description pp op t
                  (calculate_distance_3d sqrt pp op) id b) as [c Hc].
      { assert (H0 : 0 <= calculate_distance_3d sqrt pp op).
        { unfold calculate_distance_3d. apply sqrt_nonneg. }
        intro Hb. rewrite Hb in Hlt. apply (Qlt_irrefl 0).
        eapply Qle_lt_trans; [exact H0|exact Hlt]. }
      rewrite Hc, bind_Ok. exists (Some c).
      split; [reflexivity|]. split; [reflexivity|]. split; [reflexivity|].
      split; [intros _; exact Hlt|discriminate].
    + apply Qltb_ge in Hlt. exists None.
      split; [reflexivity|]. split; [reflexivity|]. split; [reflexivity|].
      split; [congruence|].
      intro H. exfalso. apply (Qlt_irrefl b). eapply Qle_lt_trans; [exact Hlt|exact H].
  - intros primary_traj other_traj id b t H.
    exact (check_instant_skipped sqrt format_description _ _ _ _ _ H).
Qed.

End LookupTotal.

Lemma position_lookup_total_on_samples_demo :
  (exists i, _get_position_at_time primary_demo 60 = Ok (Some (Interpolated i)) /\
             pos_x i == 25) /\
  (exists primary_pos other_pos conflict,
      _get_position_at_time primary_demo 60 = Ok (Some primary_pos) /\
      _get_position_at_time (trajectory flight_demo) 60 = Ok (Some other_pos) /\
      check_instant sqrt_floor describe primary_demo (trajectory flight_demo)
        "F1" 50 60
        = Ok (Measured (calculate_distance_3d sqrt_floor primary_pos other_pos) conflict)).
Proof.
  destruct (position_lookup_total_on_samples sqrt_floor describe sqrt_floor_nonneg)
    as (Hlookup & Hmeasured & _).
  split.
  - destruct (Hlookup primary_demo 60) as [p [Hp _]]; [discriminate|].
    vm_compute in Hp. injection Hp as <-. eexists. split; reflexivity.
  - destruct (Hmeasured primary_demo (trajectory flight_demo) "F1"%string 50 60)
      as (pp & op & c & Hpp & Hop & Hc & _); try discriminate.
    exists pp, op, c. split; [exact Hpp|]. split; [exact Hop|exact Hc].
Defined.

(** With a time that is [nan] the lookup returns [None] on a trajectory
    that is not empty: no comparison with [nan] holds. *)
Lemma position_lookup_none_on_nan :
  [nan_point] <> [] /\
  Float64._get_position_at_time [nan_point] (Utils.Finite 0) = Ok None /\
  [origin_point] <> [] /\
  Float64._get_position_at_time [origin_point] Utils.NaN = Ok None /\
  Float64._get_position_at_time [origin_point] (Utils.Finite 5)
    = Ok (Some (Float64.Sample origin_point)).
Proof.
  split; [discriminate|]. split; [reflexivity|]. split; [discriminate|].
  split; reflexivity.
Qed.

(** ** Provenance of the records of a report *)

Section Provenance.
Variable sqrt : Q -> Q.
Variable format_description : Q -> Q -> string.

Lemma check_instant_provenance primary_traj other_traj other_flight_id safety_buffer
    time_point distance c :
  check_instant sqrt format_description primary_traj other_traj other_flight_id
    safety_buffer time_point = Ok (Measured distance (Some c)) ->
  c_other_flight_id c = other_flight_id /\
  c_time c = time_point /\
  _get_position_at_time primary_traj time_point = Ok (Some (c_primary_position c)) /\
  _get_position_at_time other_traj time_point = Ok (Some (c_other_position c)) /\
  c_distance c = calculate_distance_3d sqrt (c_primary_position c) (c_other_position c) /\
  c_location c = midpoint (c_primary_position c) (c_other_position c).
Proof.
  unfold check_instant. intro H.
  apply bind_Ok_inv in H. destruct H as [pp [Hpp H]].
  apply bind_Ok_inv in H. destruct H as [op [Hop H]].
  destruct pp as [pp|]; [|discriminate].
  destruct op as [op|]; [|discriminate].
  destruct (Qltb _ safety_buffer) eqn:Hlt; [|discriminate].
  apply bind_Ok_inv in H. destruct H as [c' [Hc H]].
  injection H as _ <-.
  unfold _create_conflict_record in Hc.
  apply bind_Ok_inv in Hc. destruct Hc as [r [_ Hc]].
  injection Hc as <-. cbn [c_other_flight_id c_time c_primary_position
    c_other_position c_distance c_location].
  repeat (split; [first [reflexivity|assumption]|]). reflexivity.
Qed.

Lemma detect_loop_provenance primary f safety_buffer times :
  forall found res,
    (forall t, In t times -> In t (all_times primary (trajectory f))) ->
    Forall (conflict_between sqrt primary f) found ->
    detect_loop sqrt format_description primary (trajectory f) (flight_id f)
      safety_buffer times found = Ok res ->
    Forall (conflict_between sqrt primary f) res.
Proof.
  induction times as [|t times IH]; intros found res Hsub Hfound H;
    cbn [detect_loop] in H.
  - injection H as <-. exact Hfound.
  - apply bind_Ok_inv in H. destruct H as [r [Hr H]].
    apply IH in H; [exact H| |].
    + intros t' Ht'. apply Hsub. right. exact Ht'.
    + destruct r as [|d [c|]]; try exact Hfound.
      apply Forall_app. split; [exact Hfound|].
      constructor; [|constructor].
      apply check_instant_provenance in Hr.
      destruct Hr as (Hid & Ht & Hpp & Hop & Hd & Hloc).
      unfold conflict_between. rewrite Ht.
      split; [exact Hid|]. split; [apply Hsub; left; reflexivity|].
      split; [exact Hpp|]. split; [exact Hop|]. split; [exact Hd|exact Hloc].
Qed.

Lemma check_flights_provenance primary safety_buffer others :
  forall all_flights found checks res n,
    (forall f, In f others -> In f all_flights) ->
    Forall (fun c => exists f, In f all_flights /\ conflict_between sqrt primary f c)
      found ->
    check_flights sqrt format_description primary others safety_buffer found checks
      = Ok (res, n) ->
    Forall (fun c => exists f, In f all_flights /\ conflict_between sqrt primary f c)
      res.
Proof.
  induction others as [|o others IH]; intros all_flights found checks res n Hsub Hfound H;
    cbn [check_flights] in H.
  - injection H as <- _. exact Hfound.
  - apply bind_Ok_inv in H. destruct H as [tc [Htc H]].
    eapply IH in H; [exact H| |].
    + intros f Hf. apply Hsub. right. exact Hf.
    + apply Forall_app. split; [exact Hfound|].
      unfold _detect_trajectory_conflicts in Htc.
      eapply detect_loop_provenance in Htc; [| intros t Ht; exact Ht | constructor].
      eapply Forall_impl; [|exact Htc]. intros c Hc.
      exists o. split; [apply Hsub; left; reflexivity|exact Hc].
Qed.

Lemma check_conflicts_provenance primary others safety_buffer r :
  check_conflicts sqrt format_description primary others safety_buffer = Ok r ->
  Forall (fun c => exists f, In f others /\ conflict_between sqrt primary f c)
    (conflicts r).
Proof.
  unfold check_conflicts. intro H.
  apply bind_Ok_inv in H. destruct H as [[found checks] [Hf H]].
  injection H as <-. cbn [conflicts].
  apply sorted_Forall.
  eapply check_flights_provenance; [|constructor|exact Hf].
  intros f Hf'. exact Hf'.
Qed.

(** X6. Every conflict of a report names one of the other flights, is
    dated at an instant of the merged time base of the primary trajectory
    and that flight, holds the positions the lookup gives for the two
    trajectories at that instant, their separation as distance and their
    midpoint as location. *)
Theorem report_conflicts_provenance primary others safety_buffer r :
  check_conflicts sqrt format_description primary others safety_buffer = Ok r ->
  Forall (fun c => exists f, In f others /\ conflict_between sqrt primary f c)
    (conflicts r).
Proof. apply check_conflicts_provenance. Qed.

End Provenance.

Lemma report_conflicts_provenance_demo :
  exists r,
    check_conflicts sqrt_floor describe primary_demo [flight_demo; flight_close] 50
      = Ok r /\
    map c_other_flight_id (conflicts r) = ["F2"; "F2"; "F1"]%string /\
    Forall (fun c => exists f, In f [flight_demo; flight_close] /\
                               conflict_between sqrt_floor primary_demo f c)
      (conflicts r).
Proof.
  eexists. split; [vm_compute; reflexivity|]. split; [reflexivity|].
  apply (report_conflicts_provenance sqrt_floor describe primary_demo
           [flight_demo; flight_close] 50).
  vm_compute. reflexivity.
Defined.

(** ** Scores, buffers and empty trajectories *)

Section ScoreRange.
Variable sqrt : Q -> Q.
Variable format_description : Q -> Q -> string.
Hypothesis sqrt_nonneg : forall q, 0 <= sqrt q.

Lemma report_distances_nonneg primary others safety_buffer r :
  check_conflicts sqrt format_description primary others safety_buffer = Ok r ->
  Forall (fun c => 0 <= c_distance c /\ emitted_record safety_buffer c) (conflicts r).
Proof using sqrt_nonneg.
  intro H.
  pose proof (check_conflicts_provenance _ _ _ _ _ _ H) as Hprov.
  pose proof (check_conflicts_inv _ _ _ _ _ _ H) as [Hrec _].
  rewrite Forall_forall in *. intros c Hc. split; [|apply Hrec; exact Hc].
  destruct (Hprov c Hc) as [f (_ & _ & _ & _ & _ & Hd & _)].
  rewrite Hd. unfold calculate_distance_3d. apply sqrt_nonneg.
Qed.

(** X7. With a [math.sqrt] that returns no negative number, every conflict
    of a report has a distance in [[0, safety_buffer)], a positive safety
    buffer and a severity score in [(0, 1]]. *)
Theorem report_scores_in_unit_interval primary others safety_buffer r :
  check_conflicts sqrt format_description primary others safety_buffer = Ok r ->
  Forall (fun c =>
            0 <= c_distance c /\ c_distance c < safety_buffer /\
            0 < c_severity_score c /\ c_severity_score c <= 1)
         (conflicts r).
Proof using sqrt_nonneg.
  intro H. pose proof (report_distances_nonneg _ _ _ _ H) as Hall.
  eapply Forall_impl; [|exact Hall].
  intros c [Hd (_ & _ & Hlt & Hs & _)].
  split; [exact Hd|]. split; [exact Hlt|].
  rewrite Hs, py_max2_Qmax.
  assert (Hb : 0 < safety_buffer) by lra.
  assert (Hpos : 0 < (safety_buffer - c_distance c) / safety_buffer).
  { apply Qlt_shift_div_l; lra. }
  assert (Hle : (safety_buffer - c_distance c) / safety_buffer <= 1).
  { apply Qle_shift_div_r; lra. }
  rewrite Q.max_r by lra. split; assumption.
Qed.

(** X8. With a [math.sqrt] that returns no negative number and a safety
    buffer that is zero or negative, [check_conflicts] returns a report
    that is safe and holds no conflict. *)
Theorem nonpositive_buffer_reports_safe primary others safety_buffer :
  safety_buffer <= 0 ->
  exists r,
    check_conflicts sqrt format_description primary others safety_buffer = Ok r /\
    conflicts r = [] /\ is_safe r = true /\ total_conflicts r = 0%nat.
Proof using sqrt_nonneg.
  intro Hb.
  destruct (check_conflicts_returns sqrt format_description sqrt_nonneg
              primary others safety_buffer) as [r Hr].
  exists r. split; [exact Hr|].
  pose proof (report_distances_nonneg _ _ _ _ Hr) as Hall.
  pose proof (check_conflicts_inv _ _ _ _ _ _ Hr) as (_ & _ & Hsafe & Htot).
  assert (Hnil : conflicts r = []).
  { destruct (conflicts r) as [|c l]; [reflexivity|].
    inversion Hall as [|? ? [Hd (_ & _ & Hlt & _)] _]; subst. exfalso. lra. }
  rewrite Hsafe, Htot, Hnil. repeat split.
Qed.

End ScoreRange.

Lemma report_scores_in_unit_interval_demo :
  exists r,
    check_conflicts sqrt_floor describe primary_demo [flight_demo; flight_close] 50
      = Ok r /\
    Forall (fun c =>
              0 <= c_distance c /\ c_distance c < 50 /\
              0 < c_severity_score c /\ c_severity_score c <= 1)
           (conflicts r).
Proof.
  eexists. split; [vm_compute; reflexivity|].
  apply (report_scores_in_unit_interval sqrt_floor describe sqrt_floor_nonneg
           primary_demo [flight_demo; flight_close] 50).
  vm_compute. reflexivity.
Defined.

Lemma nonpositive_buffer_reports_safe_demo :
  exists r,
    check_conflicts sqrt_floor describe primary_demo [flight_demo; flight_close] 0
      = Ok r /\
    conflicts r = [] /\ is_safe r = true /\ total_conflicts r = 0%nat.
Proof.
  apply (nonpositive_buffer_reports_safe sqrt_floor describe sqrt_floor_nonneg
           primary_demo [flight_demo; flight_close] 0).
  apply Qle_refl.
Defined.

Section EmptyTrajectories.
Variable sqrt : Q -> Q.
Variable format_description : Q -> Q -> string.

Lemma check_instant_skips primary_traj other_traj other_flight_id safety_buffer
    time_point :
  primary_traj = [] \/ other_traj = [] ->
  check_instant sqrt format_description primary_traj other_traj other_flight_id
    safety_buffer time_point = Ok Skipped.
Proof.
  intros [-> | ->]; unfold check_instant.
  - destruct (get_position_returns other_traj time_point) as [op ->]. reflexivity.
  - destruct (get_position_returns primary_traj time_point) as [pp ->].
    destruct pp; reflexivity.
Qed.

Lemma detect_loop_skips primary_traj other_traj other_flight_id safety_buffer times :
  primary_traj = [] \/ other_traj = [] ->
  forall found,
    detect_loop sqrt format_description primary_traj other_traj other_flight_id
      safety_buffer times found = Ok found.
Proof.
  intro Hempty. induction times as [|t times IH]; intro found; cbn [detect_loop].
  - reflexivity.
  - rewrite check_instant_skips by exact Hempty. rewrite bind_Ok. apply IH.
Qed.

Lemma check_flights_skips primary others safety_buffer :
  primary = [] \/ Forall (fun f => trajectory f = []) others ->
  forall found checks,
    check_flights sqrt format_description primary others safety_buffer found checks
      = Ok (found, checks).
Proof.
  intro Hempty. induction others as [|o others IH]; intros found checks;
    cbn [check_flights]; [reflexivity|].
  assert (Ho : primary = [] \/ trajectory o = []).
  { destruct Hempty as [H|H]; [left; exact H|].
    right. inversion H; assumption. }
  unfold _detect_trajectory_conflicts.
  rewrite detect_loop_skips by exact Ho. rewrite bind_Ok, app_nil_r.
  assert (Hz : (length primary * length (trajectory o) = 0)%nat).
  { destruct Ho as [-> | ->]; cbn [length]; lia. }
  rewrite Hz, Nat.add_0_r. apply IH.
  destruct Hempty as [H|H]; [left; exact H|].
  right. inversion H; assumption.
Qed.

(** X9. When the primary trajectory is empty, or every other flight has an
    empty trajectory, [check_conflicts] returns a report that is safe,
    holds no conflict and counts no check, for any safety buffer. *)
Theorem empty_trajectories_report_safe primary others safety_buffer :
  primary = [] \/ Forall (fun f => trajectory f = []) others ->
  check_conflicts sqrt format_description primary others safety_buffer =
    Ok {| conflicts := [];
          summary := {| total_checks := 0; spatial_violations := 0;
                        temporal_violations := 0; safe_segments := 0 |};
          is_safe := true;
          total_conflicts := 0 |}.
Proof.
  intro Hempty. unfold check_conflicts.
  rewrite check_flights_skips by exact Hempty. reflexivity.
Qed.

End EmptyTrajectories.

Lemma empty_trajectories_report_safe_demo :
  check_conflicts sqrt_floor describe [] [flight_demo; flight_close] 50 =
    Ok {| conflicts := [];
          summary := {| total_checks := 0; spatial_violations := 0;
                        temporal_violations := 0; safe_segments := 0 |};
          is_safe := true;
          total_conflicts := 0 |}.
Proof.
  apply (empty_trajectories_report_safe sqrt_floor describe []
           [flight_demo; flight_close] 50).
  left. reflexivity.
Defined.

(** * Further properties of the sampler *)

Lemma Qmult_le_l_weak (c a b : Q) : 0 <= c -> a <= b -> c * a <= c * b.
Proof.
  intros Hc Hab. rewrite (Qmult_comm c a), (Qmult_comm c b).
  apply Qmult_le_compat_r; assumption.
Qed.

Lemma interpolate_scan_cases (waypoints : list Position) (target_time : Q)
    (final p : Position) :
  match waypoints with
  | wp1 :: _ => pos_time wp1 < target_time
  | [] => True
  end ->
  interpolate_scan waypoints target_time final = Ok p ->
  p = final \/
  exists before wp1 wp2 after,
    waypoints = before ++ wp1 :: wp2 :: after /\ segment_point wp1 wp2 target_time p.
Proof.
  induction waypoints as [|wp1 rest IH]; intros Hhead H; cbn [interpolate_scan] in H.
  - injection H as <-. left. reflexivity.
  - destruct rest as [|wp2 rest].
    + injection H as <-. left. reflexivity.
    + destruct (Qle_bool (pos_time wp1) target_time) eqn:E1.
      * destruct (Qle_bool target_time (pos_time wp2)) eqn:E2; cbn [andb] in H.
        -- apply Qle_bool_iff in E2.
           rewrite py_div_Ok in H by lra. rewrite bind_Ok in H. injection H as <-.
           right. exists [], wp1, wp2, rest. split; [reflexivity|].
           unfold segment_point, lerp. cbn [pos_x pos_y pos_z pos_time].
           split; [exact Hhead|]. split; [exact E2|]. split; [reflexivity|].
           split; [reflexivity|]. split; reflexivity.
        -- apply Qle_bool_false in E2.
           destruct (IH E2 H) as [Hf|(before & a & b & after & Heq & Hseg)];
             [left; exact Hf|].
           right. exists (wp1 :: before), a, b, after.
           split; [cbn [app]; rewrite Heq; reflexivity|exact Hseg].
      * apply Qle_bool_false in E1. exfalso. lra.
Qed.

Lemma interpolate_position_cases (waypoints : list Position) (target_time : Q) :
  exists r,
    _interpolate_position_at_time waypoints target_time = Ok r /\
    (r = None <-> waypoints = []) /\
    (forall p, r = Some p ->
       In p waypoints \/
       exists before wp1 wp2 after,
         waypoints = before ++ wp1 :: wp2 :: after /\
         segment_point wp1 wp2 target_time p).
Proof.
  destruct waypoints as [|first rest].
  - exists None. split; [reflexivity|]. split; [tauto|]. discriminate.
  - destruct (last_opt_nonempty (first :: rest)) as [final Hfinal]; [discriminate|].
    pose proof (last_opt_In _ _ Hfinal) as Hfin.
    unfold _interpolate_position_at_time. rewrite Hfinal.
    destruct (Qle_bool target_time (pos_time first)) eqn:E1.
    { exists (Some first). split; [reflexivity|]. split; [split; discriminate|].
      intros p Hp. injection Hp as <-. left. left. reflexivity. }
    destruct (Qle_bool (pos_time final) target_time) eqn:E2.
    { exists (Some final). split; [reflexivity|]. split; [split; discriminate|].
      intros p Hp. injection Hp as <-. left. exact Hfin. }
    apply Qle_bool_false in E1.
    destruct (interpolate_scan_returns (first :: rest) target_time final E1) as [q Hq].
    rewrite Hq, bind_Ok. exists (Some q). split; [reflexivity|].
    split; [split; discriminate|].
    intros p Hp. injection Hp as <-.
    destruct (interpolate_scan_cases (first :: rest) target_time final q E1 Hq)
      as [-> | Hseg].
    + left. exact Hfin.
    + right. exact Hseg.
Qed.

(** X10. [_interpolate_position_at_time] never raises, whatever the
    waypoint list (ordered or not, with repeated times or not), and returns
    [None] only for the empty list.  The position it returns is a waypoint
    of the list or the linear interpolation, at the target time, between
    two consecutive waypoints whose times bracket the target. *)
Theorem waypoint_interpolation_total (waypoints : list Position) (target_time : Q) :
  exists r,
    _interpolate_position_at_time waypoints target_time = Ok r /\
    (r = None <-> waypoints = []) /\
    (forall p, r = Some p ->
       In p waypoints \/
       exists before wp1 wp2 after,
         waypoints = before ++ wp1 :: wp2 :: after /\
         segment_point wp1 wp2 target_time p).
Proof. apply interpolate_position_cases. Qed.

Lemma waypoint_interpolation_total_demo :
  exists p,
    _interpolate_position_at_time
      [mkPosition 0 0 60 100; mkPosition 30 40 50 130; mkPosition 30 40 50 130;
       mkPosition 30 100 80 160] 115 = Ok (Some p) /\
    pos_x p == 15 /\ pos_y p == 20 /\ pos_z p == 55.
Proof.
  destruct (waypoint_interpolation_total
              [mkPosition 0 0 60 100; mkPosition 30 40 50 130; mkPosition 30 40 50 130;
               mkPosition 30 100 80 160] 115) as [r (Hr & _ & _)].
  destruct r as [p|]; [|vm_compute in Hr; discriminate].
  exists p. split; [exact Hr|].
  vm_compute in Hr. injection Hr as <-. split; [|split]; reflexivity.
Defined.

(** ** What the loop appends *)

Section LoopFacts.
Variable sqrt : Q -> Q.
Variable atan2 : Q -> Q -> Q.
Variable normalized_waypoints : list Position.
Variable end_time time_step : Q.

Lemma sample_loop_unfold (fuel : nat) (current_time : Q)
    (points res : list TrajectoryPoint) :
  sample_loop sqrt atan2 (S fuel) normalized_waypoints current_time end_time time_step
    points = Ok res ->
  (current_time <= end_time /\
   exists points',
     sample_loop sqrt atan2 fuel normalized_waypoints (current_time + time_step)
       end_time time_step points' = Ok res /\
     ((points' = points /\
       _interpolate_position_at_time normalized_waypoints current_time = Ok None) \/
      exists p, points' = points ++ [p] /\ pt_time p = current_time /\
                sample_at sqrt atan2 normalized_waypoints p)) \/
  (end_time < current_time /\ res = points).
Proof.
  cbn [sample_loop]. destruct (Qle_bool current_time end_time) eqn:E.
  - intro H. left. apply Qle_bool_iff in E. split; [exact E|].
    apply bind_Ok_inv in H. destruct H as [position [Hpos H]].
    apply bind_Ok_inv in H. destruct H as [points' [Hpts H]].
    exists points'. split; [exact H|].
    destruct position as [pos|].
    + apply bind_Ok_inv in Hpts. destruct Hpts as [speed [Hspeed Hpts]].
      injection Hpts as <-. right. eexists. split; [reflexivity|].
      cbn [pt_time]. split; [reflexivity|].
      unfold sample_at. cbn [pt_time pt_x pt_y pt_z pt_speed pt_heading].
      split; [exists pos; split; [exact Hpos|]; split; [|split]; reflexivity|].
      split; [exact Hspeed|reflexivity].
    + injection Hpts as <-. left. split; [reflexivity|exact Hpos].
  - intro H. injection H as <-. right. apply Qle_bool_false in E.
    split; [exact E|reflexivity].
Qed.

Lemma sample_loop_grid (fuel : nat) :
  forall current_time points res,
    normalized_waypoints <> [] ->
    sample_loop sqrt atan2 fuel normalized_waypoints current_time end_time time_step
      points = Ok res ->
    exists new,
      res = points ++ new /\
      on_grid current_time time_step new /\
      Forall (sample_at sqrt atan2 normalized_waypoints) new /\
      Forall (fun p => pt_time p <= end_time) new /\
      end_time < current_time + Qnat (length new) * time_step.
Proof.
  induction fuel as [|fuel IH]; intros current_time points res Hne H.
  - cbn [sample_loop] in H.
    destruct (Qle_bool current_time end_time) eqn:E; [discriminate|].
    injection H as <-. apply Qle_bool_false in E.
    exists []. rewrite app_nil_r. split; [reflexivity|]. split; [exact I|].
    split; [constructor|]. split; [constructor|].
    cbn [length]. change (Qnat 0) with 0. lra.
  - apply sample_loop_unfold in H.
    destruct H as [[Hle (points' & Hrec & Hcase)] | [Hlt ->]].
    + destruct Hcase as [[_ Hnone] | (p & -> & Hp & Hsample)].
      * exfalso.
        destruct (interpolate_position_returns_some normalized_waypoints current_time Hne)
          as [pos Hpos].
        congruence.
      * apply IH in Hrec; [|exact Hne].
        destruct Hrec as (new & -> & Hgrid & Hall & Hle' & Hexit).
        exists (p :: new). rewrite <- app_assoc. split; [reflexivity|].
        split; [split; [exact Hp|exact Hgrid]|].
        split; [constructor; assumption|].
        split; [constructor; [rewrite Hp; exact Hle|exact Hle']|].
        cbn [length]. rewrite Qnat_succ. lra.
    + exists []. rewrite app_nil_r. split; [reflexivity|]. split; [exact I|].
      split; [constructor|]. split; [constructor|].
      cbn [length]. change (Qnat 0) with 0. lra.
Qed.

End LoopFacts.

(** ** Speeds along a trajectory *)

Lemma adjacent_short {A : Type} (l : list A) (a b : A) :
  (length l < 2)%nat -> ~ adjacent l a b.
Proof.
  intros Hlen (before & after & ->). rewrite length_app in Hlen. cbn in Hlen. lia.
Qed.

Lemma adjacent_cons {A : Type} (x y : A) (l : list A) (a b : A) :
  adjacent (x :: y :: l) a b -> (a = x /\ b = y) \/ adjacent (y :: l) a b.
Proof.
  intros (before & after & H). destruct before as [|x' before]; cbn [app] in H.
  - injection H as -> -> _. left. split; reflexivity.
  - injection H as _ H. right. exists before, after. exact H.
Qed.

Section SpeedClaim.
Variable sqrt : Q -> Q.
Variable atan2 : Q -> Q -> Q.

(** The scan returns the speed along the first segment in use, and the
    default when no segment is in use. *)
Lemma speed_scan_pinned (waypoints : list Position) (t : Q) :
  exists v,
    speed_scan sqrt waypoints t = Ok v /\
    5 <= v <= 30 /\
    ((v = 15 /\ forall a b, adjacent waypoints a b -> ~ segment_in_use t a b) \/
     exists before wp1 wp2 after,
       waypoints = before ++ wp1 :: wp2 :: after /\
       segment_in_use t wp1 wp2 /\
       (forall a b, adjacent (before ++ [wp1]) a b -> ~ segment_in_use t a b) /\
       v = clamped_speed sqrt wp1 wp2).
Proof.
  induction waypoints as [|wp1 rest IH].
  - exists 15. split; [reflexivity|]. split; [lra|]. left. split; [reflexivity|].
    intros a b Hab. exfalso. revert Hab. apply adjacent_short. cbn. lia.
  - destruct rest as [|wp2 rest].
    + exists 15. split; [reflexivity|]. split; [lra|]. left. split; [reflexivity|].
      intros a b Hab. exfalso. revert Hab. apply adjacent_short. cbn. lia.
    + cbn [speed_scan].
      assert (Hskip :
        ~ segment_in_use t wp1 wp2 ->
        exists v,
          speed_scan sqrt (wp2 :: rest) t = Ok v /\
          5 <= v <= 30 /\
          ((v = 15 /\
            forall a b, adjacent (wp1 :: wp2 :: rest) a b -> ~ segment_in_use t a b) \/
           exists before wp1' wp2' after,
             wp1 :: wp2 :: rest = before ++ wp1' :: wp2' :: after /\
             segment_in_use t wp1' wp2' /\
             (forall a b, adjacent (before ++ [wp1']) a b -> ~ segment_in_use t a b) /\
             v = clamped_speed sqrt wp1' wp2')).
      { intro Hno. destruct IH as [v (Hv & Hb & Hc)]. exists v.
        split; [exact Hv|]. split; [exact Hb|].
        destruct Hc as [[Hd Hnone]|(before & a & b & after & Heq & Huse & Hfirst & Hval)].
        - left. split; [exact Hd|]. intros a b Hab.
          apply adjacent_cons in Hab. destruct Hab as [[-> ->]|Hab]; [exact Hno|].
          apply Hnone. exact Hab.
        - right. exists (wp1 :: before), a, b, after.
          split; [cbn [app]; rewrite Heq; reflexivity|]. split; [exact Huse|].
          split; [|exact Hval].
          intros a' b' Hab.
          assert (Hhead : exists l, before ++ [a] = wp2 :: l).
          { destruct before as [|b0 before']; cbn [app] in Heq |- *.
            - injection Heq as -> _. eexists. reflexivity.
            - injection Heq as -> _. eexists. reflexivity. }
          destruct Hhead as [l Hl]. cbn [app] in Hab. rewrite Hl in Hab.
          apply adjacent_cons in Hab. destruct Hab as [[-> ->]|Hab]; [exact Hno|].
          apply Hfirst. rewrite Hl. exact Hab. }
      destruct (Qle_bool (pos_time wp1) t && Qle_bool t (pos_time wp2)) eqn:E.
      * apply andb_true_iff in E. destruct E as [E1 E2].
        apply Qle_bool_iff in E1, E2.
        destruct (Qltb 0 (pos_time wp2 - pos_time wp1)) eqn:Ed.
        -- apply Qltb_lt in Ed. rewrite py_div_Ok by lra. rewrite bind_Ok.
           eexists. split; [reflexivity|]. split.
           ++ split; [apply py_max2_lower|].
              apply py_max2_upper; [unfold min_speed; lra|apply py_min2_upper].
           ++ right. exists [], wp1, wp2, rest. split; [reflexivity|].
              split; [split; [exact E1|split; [exact E2|lra]]|].
              split; [|reflexivity].
              intros a b Hab. exfalso. revert Hab. apply adjacent_short. cbn. lia.
        -- apply Qltb_ge in Ed. apply Hskip. intros (_ & _ & Hlt). lra.
      * apply Hskip. intros (H1 & H2 & _).
        apply Qle_bool_iff in H1, H2. rewrite H1, H2 in E. discriminate.
Qed.

(** C6. In every trajectory that [calculate_trajectory] returns, the
    points but the end point are the samples of the loop, and each has the
    speed that [_calculate_speed_at_time] returns at its time, a speed
    within [[5, 30]]; one more point, at [end_time] and of speed 0, is
    appended exactly when the last sample is earlier than [end_time].
    The speed [_calculate_speed_at_time] returns is the length over the
    duration of the first segment that brackets the time and lasts, kept
    within [[5, 30]], and 15 when there is no such segment. *)
Theorem sampled_speeds_in_range :
  (forall fuel waypoints start_time end_time time_step traj,
      calculate_trajectory sqrt atan2 fuel waypoints start_time end_time time_step
        = Ok traj ->
      ((length waypoints < 2)%nat /\ traj = []) \/
      ((2 <= length waypoints)%nat /\
       exists normalized samples,
         _normalize_waypoint_times waypoints start_time end_time = Ok normalized /\
         sample_loop sqrt atan2 fuel normalized start_time end_time time_step []
           = Ok samples /\
         Forall (fun p =>
                   5 <= pt_speed p <= 30 /\
                   _calculate_speed_at_time sqrt normalized (pt_time p)
                     = Ok (pt_speed p))
                samples /\
         ((traj = samples /\
           forall final, last_opt samples = Some final -> end_time <= pt_time final) \/
          exists final endpoint,
            last_opt samples = Some final /\ pt_time final < end_time /\
            traj = samples ++ [endpoint] /\
            pt_time endpoint = end_time /\ pt_speed endpoint = 0))) /\
  (forall normalized target_time v,
      (2 <= length normalized)%nat ->
      _calculate_speed_at_time sqrt normalized target_time = Ok v ->
      5 <= v <= 30 /\
      ((v = 15 /\
        forall wp1 wp2,
          adjacent normalized wp1 wp2 -> ~ segment_in_use target_time wp1 wp2) \/
       exists before wp1 wp2 after,
         normalized = before ++ wp1 :: wp2 :: after /\
         segment_in_use target_time wp1 wp2 /\
         (forall a b,
             adjacent (before ++ [wp1]) a b -> ~ segment_in_use target_time a b) /\
         v = clamped_speed sqrt wp1 wp2)).
Proof.
  split.
  - intros fuel waypoints start_time end_time time_step traj H.
    destruct (Nat.lt_ge_cases (length waypoints) 2) as [Hshort|Hlen].
    + left. split; [exact Hshort|].
      rewrite (calculate_trajectory_short sqrt atan2) in H by exact Hshort.
      injection H as <-. reflexivity.
    + right. split; [exact Hlen|].
      destruct (calculate_trajectory_inv _ _ _ _ _ _ _ _ Hlen H)
        as (nw & samples & Hn & Hnw & Hloop & Hend).
      exists nw, samples. split; [exact Hn|]. split; [exact Hloop|].
      destruct (sample_loop_inv sqrt atan2 nw end_time time_step Hnw fuel _ _ _ Hloop)
        as (new & Hnew & Hall & _).
      cbn [app] in Hnew. subst new.
      destruct (sample_loop_grid sqrt atan2 nw end_time time_step fuel _ _ _
                  ltac:(intros ->; cbn in Hnw; lia) Hloop)
        as (new & Hnew & _ & Hat & _).
      cbn [app] in Hnew. subst new.
      split.
      * apply Forall_forall. intros p Hp. rewrite Forall_forall in Hall, Hat.
        split; [apply (Hall p Hp)|]. apply (Hat p Hp).
      * destruct (ensure_end_cases _ _ _ _ Hend)
          as [[-> Hge]|(q & endpoint & Hq & Hqlt & -> & Ht & Hv & _)].
        -- left. split; [reflexivity|exact Hge].
        -- right. exists q, endpoint. repeat split; assumption.
  - intros nw target_time v Hlen Hv. unfold _calculate_speed_at_time in Hv.
    assert (E : (length nw <? 2)%nat = false) by (apply Nat.ltb_ge; lia).
    rewrite E in Hv.
    destruct (speed_scan_pinned nw target_time) as [v' (Hv' & Hb & Hc)].
    rewrite Hv' in Hv. injection Hv as <-. split; [exact Hb|exact Hc].
Qed.

End SpeedClaim.

Lemma sampled_speeds_in_range_demo :
  exists traj,
    calculate_trajectory sqrt_floor atan2_axes 3 waypoints_cruise 100 160 25 = Ok traj /\
    map pt_time traj = [100; 125; 150; 160] /\
    Forall2 Qeq (map pt_speed traj) [10; 10; 40 # 3; 0] /\
    exists normalized samples,
      _normalize_waypoint_times waypoints_cruise 100 160 = Ok normalized /\
      sample_loop sqrt_floor atan2_axes 3 normalized 100 160 25 [] = Ok samples /\
      Forall (fun p => 5 <= pt_speed p <= 30) samples /\
      exists final endpoint,
        last_opt samples = Some final /\ pt_time final < 160 /\
        traj = samples ++ [endpoint] /\ pt_speed endpoint = 0.
Proof.
  destruct (calculate_trajectory sqrt_floor atan2_axes 3 waypoints_cruise 100 160 25)
    as [traj| |] eqn:E; try (vm_compute in E; discriminate).
  exists traj.
  destruct (proj1 (sampled_speeds_in_range sqrt_floor atan2_axes)
              3%nat waypoints_cruise 100 160 25 traj E)
    as [[Hshort _]|(_ & nw & samples & Hn & Hloop & Hall & Hshape)];
    [cbn in Hshort; lia|].
  vm_compute in E. injection E as <-.
  split; [reflexivity|]. split; [reflexivity|].
  split; [repeat constructor|].
  exists nw, samples. split; [exact Hn|]. split; [exact Hloop|].
  split; [eapply Forall_impl; [|exact Hall]; intros p [Hp _]; exact Hp|].
  destruct Hshape as [[Heq Hge]|(final & endpoint & Hf & Hlt & Heq & _ & Hv)].
  - exfalso. vm_compute in Hn. injection Hn as <-.
    vm_compute in Hloop. injection Hloop as <-. discriminate Heq.
  - exists final, endpoint. repeat split; assumption.
Defined.

(** ** Whole parts *)

Lemma Qfloor_unique (x : Q) (m : Z) :
  inject_Z m <= x -> x < inject_Z (m + 1) -> Qfloor x = m.
Proof.
  intros Hle Hlt.
  pose proof (Qfloor_le x) as H1. pose proof (Qlt_floor x) as H2.
  assert (Ha : (m < Qfloor x + 1)%Z).
  { rewrite Zlt_Qlt. eapply Qle_lt_trans; eassumption. }
  assert (Hb : (Qfloor x < m + 1)%Z).
  { rewrite Zlt_Qlt. eapply Qle_lt_trans; eassumption. }
  lia.
Qed.

(** ** Degenerate windows and steps *)

Section DegenerateCalls.
Variable sqrt : Q -> Q.
Variable atan2 : Q -> Q -> Q.

(** X13. When the window is reversed ([end_time < start_time]) and
    normalization returns, [calculate_trajectory] returns the empty
    trajectory, for any step: the loop body is never entered and no end
    point is added. *)
Theorem reversed_window_gives_empty_trajectory fuel waypoints start_time end_time
    time_step normalized :
  end_time < start_time ->
  _normalize_waypoint_times waypoints start_time end_time = Ok normalized ->
  calculate_trajectory sqrt atan2 fuel waypoints start_time end_time time_step = Ok [].
Proof.
  intros Hwin Hn. unfold calculate_trajectory.
  destruct (length waypoints <? 2)%nat; [reflexivity|].
  rewrite Hn, bind_Ok.
  assert (E : Qle_bool start_time end_time = false) by (apply Qle_bool_false; exact Hwin).
  assert (Hloop : sample_loop sqrt atan2 fuel normalized start_time end_time time_step []
                  = Ok []).
  { destruct fuel; cbn [sample_loop]; rewrite E; reflexivity. }
  rewrite Hloop, bind_Ok. reflexivity.
Qed.

(** X14. With a step that is zero or negative, at least two waypoints, a
    window with [start_time <= end_time] and a normalization that returns,
    [calculate_trajectory] never returns: the loop does not end, whatever
    the number of iterations it is given. *)
Theorem nonpositive_step_never_returns waypoints start_time end_time time_step
    normalized :
  time_step <= 0 ->
  start_time <= end_time ->
  (2 <= length waypoints)%nat ->
  _normalize_waypoint_times waypoints start_time end_time = Ok normalized ->
  forall fuel,
    calculate_trajectory sqrt atan2 fuel waypoints start_time end_time time_step
      = OutOfFuel.
Proof.
  intros Hstep Hwin Hlen Hn fuel. unfold calculate_trajectory.
  assert (E : (length waypoints <? 2)%nat = false) by (apply Nat.ltb_ge; lia).
  rewrite E, Hn, bind_Ok.
  rewrite sample_loop_diverges; [reflexivity| |exact Hstep|exact Hwin].
  rewrite (normalize_length _ _ _ _ Hn). exact Hlen.
Qed.

End DegenerateCalls.

Lemma reversed_window_gives_empty_trajectory_demo :
  calculate_trajectory sqrt_floor atan2_axes 0 waypoints_demo 160 100 25 = Ok [].
Proof.
  destruct (_normalize_waypoint_times waypoints_demo 160 100) as [nw| |] eqn:En;
    try (vm_compute in En; discriminate).
  apply (reversed_window_gives_empty_trajectory sqrt_floor atan2_axes 0%nat
           waypoints_demo 160 100 25 nw); [reflexivity|exact En].
Defined.

Lemma nonpositive_step_never_returns_demo :
  calculate_trajectory sqrt_floor atan2_axes 1000 waypoints_demo 100 160 0 = OutOfFuel.
Proof.
  destruct (_normalize_waypoint_times waypoints_demo 100 160) as [nw| |] eqn:En;
    try (vm_compute in En; discriminate).
  apply (nonpositive_step_never_returns sqrt_floor atan2_axes waypoints_demo 100 160 0 nw).
  - apply Qle_refl.
  - unfold Qle. cbn. lia.
  - cbn. lia.
  - exact En.
Defined.

(** ** Normalized times *)

Lemma sorted_id {A : Type} (key : A -> Q) (l : list A) :
  StronglySorted (fun a b => key a <= key b) l -> sorted key Qltb l = l.
Proof.
  induction 1 as [|a l Hl IH Ha]; cbn [sorted]; [reflexivity|].
  rewrite IH. destruct l as [|b l']; [reflexivity|].
  cbn [insert_sorted]. inversion Ha as [|? ? Hab _]; subst.
  assert (E : Qltb (key b) (key a) = false) by (apply Qltb_ge; exact Hab).
  rewrite E. reflexivity.
Qed.

Lemma Qnat_le (i j : nat) : (i <= j)%nat -> Qnat i <= Qnat j.
Proof.
  intro H. unfold Qnat. rewrite <- Zle_Qle. lia.
Qed.

Lemma Qnat_pos (n : nat) : (0 < n)%nat -> 0 < Qnat n.
Proof.
  intro H. unfold Qnat. change 0 with (inject_Z 0). rewrite <- Zlt_Qlt. lia.
Qed.

Lemma spread_mono (s e : Q) (n i j : nat) (a b : Waypoint) :
  (2 <= n)%nat -> s <= e -> (i <= j)%nat ->
  pos_time (spread s e n (i, a)) <= pos_time (spread s e n (j, b)).
Proof.
  intros Hn Hse Hij. unfold spread. cbn [pos_time fst].
  assert (Hd : 0 < Qnat (n - 1)) by (apply Qnat_pos; lia).
  assert (Hfrac : Qnat i / Qnat (n - 1) <= Qnat j / Qnat (n - 1)).
  { unfold Qdiv. apply Qmult_le_compat_r; [apply Qnat_le; exact Hij|].
    apply Qlt_le_weak. apply Qinv_lt_0_compat. exact Hd. }
  assert (Hm : (Qnat i / Qnat (n - 1)) * (e - s) <= (Qnat j / Qnat (n - 1)) * (e - s)).
  { apply Qmult_le_compat_r; [exact Hfrac|lra]. }
  lra.
Qed.

Lemma enumerate_from_indices {A : Type} (l : list A) :
  forall i, Forall (fun iw => (i <= fst iw)%nat) (enumerate_from i l).
Proof.
  induction l as [|a l IH]; intro i; cbn [enumerate_from]; constructor.
  - cbn. lia.
  - eapply Forall_impl; [|apply (IH (S i))]. intros iw H. cbn in H. lia.
Qed.

Lemma spread_sorted (s e : Q) (n : nat) (l : list Waypoint) :
  (2 <= n)%nat -> s <= e ->
  forall i,
    StronglySorted (fun a b => pos_time a <= pos_time b)
      (map (spread s e n) (enumerate_from i l)).
Proof.
  intros Hn Hse. induction l as [|a l IH]; intro i; cbn [enumerate_from map].
  - constructor.
  - constructor; [apply IH|].
    apply Forall_map. eapply Forall_impl; [|apply (enumerate_from_indices l (S i))].
    intros [j b] Hj. cbn [fst] in Hj. apply spread_mono; [exact Hn|exact Hse|lia].
Qed.

Lemma normalize_untimed (waypoints : list Waypoint) (start_time end_time : Q) :
  (2 <= length waypoints)%nat ->
  forallb has_time waypoints = false ->
  _normalize_waypoint_times waypoints start_time end_time =
    Ok (sorted pos_time Qltb
          (map (spread start_time end_time (length waypoints)) (enumerate waypoints))).
Proof.
  intros Hlen Hall. unfold _normalize_waypoint_times.
  destruct waypoints as [|w l]; [cbn in Hlen; lia|].
  rewrite Hall.
  assert (E : (1 <? length (w :: l))%nat = true) by (apply Nat.ltb_lt; lia).
  rewrite E.
  erewrite mapM_Ok_map; [reflexivity|].
  intros [i wp] _. rewrite py_div_Ok.
  - reflexivity.
  - assert (Hd : 0 < Qnat (length (w :: l) - 1)) by (apply Qnat_pos; lia).
    intro H. rewrite H in Hd. apply (Qlt_irrefl 0). exact Hd.
Qed.

(** X15. When at least one of two or more waypoints carries no time, the
    times the waypoints do carry are ignored: the [i]-th of the [n]
    waypoints is placed at [start_time + i / (n - 1) * (end_time -
    start_time)], normalization never raises, and with
    [start_time <= end_time] the waypoints keep their order. *)
Theorem untimed_waypoints_spread_evenly
    (waypoints : list Waypoint) (start_time end_time : Q) :
  (2 <= length waypoints)%nat ->
  forallb has_time waypoints = false ->
  exists normalized,
    _normalize_waypoint_times waypoints start_time end_time = Ok normalized /\
    Permutation normalized
      (map (spread start_time end_time (length waypoints)) (enumerate waypoints)) /\
    (start_time <= end_time ->
     normalized =
       map (spread start_time end_time (length waypoints)) (enumerate waypoints)).
Proof.
  intros Hlen Hall. eexists. split; [apply normalize_untimed; assumption|].
  split; [apply sorted_perm|].
  intro Hse. apply sorted_id. apply spread_sorted; assumption.
Qed.

Lemma untimed_waypoints_spread_evenly_demo :
  exists normalized,
    _normalize_waypoint_times waypoints_untimed 100 160 = Ok normalized /\
    map pos_time normalized = map pos_time
      [mkPosition 0 0 60 (100 + (0 / 2) * (160 - 100));
       mkPosition 30 40 50 (100 + (1 / 2) * (160 - 100));
       mkPosition 30 100 80 (100 + (2 / 2) * (160 - 100))].
Proof.
  destruct (untimed_waypoints_spread_evenly waypoints_untimed 100 160)
    as (nw & Hn & _ & Horder).
  - cbn. lia.
  - reflexivity.
  - exists nw. split; [exact Hn|]. rewrite Horder; [reflexivity|].
    unfold Qle. cbn. lia.
Defined.

(** * Smoothing and metrics of a trajectory *)

Lemma split_ends {A : Type} (l : list A) :
  (2 <= length l)%nat ->
  exists first mid final, l = first :: mid ++ [final].
Proof.
  destruct l as [|first rest]; cbn [length]; [lia|]. intro H.
  destruct (exists_last (l := rest)) as [mid [final ->]].
  - intros ->. cbn in H. lia.
  - exists first, mid, final. reflexivity.
Qed.

Lemma last_opt_ends {A : Type} (first : A) (mid : list A) (final : A) :
  last_opt (first :: mid ++ [final]) = Some final.
Proof.
  change (first :: mid ++ [final]) with ((first :: mid) ++ [final]).
  apply last_opt_app.
Qed.

Lemma smooth_interior_cons (f : Q) (first m : TrajectoryPoint)
    (mid : list TrajectoryPoint) (final : TrajectoryPoint) :
  exists next,
    smooth_interior f (first :: (m :: mid) ++ [final]) =
      smooth_point f first m next :: smooth_interior f (m :: mid ++ [final]).
Proof.
  destruct mid as [|m' mid]; eexists; reflexivity.
Qed.

Lemma smooth_interior_map {B : Type} (proj : TrajectoryPoint -> B) (f : Q) :
  (forall a b c, proj (smooth_point f a b c) = proj b) ->
  forall mid first final,
    map proj (smooth_interior f (first :: mid ++ [final])) = map proj mid.
Proof.
  intro Hproj. induction mid as [|m mid IH]; intros first final.
  - reflexivity.
  - destruct (smooth_interior_cons f first m mid final) as [next ->].
    cbn [map]. rewrite Hproj, IH. reflexivity.
Qed.

Lemma smooth_trajectory_ends (f : Q) first mid final :
  (3 <= length (first :: mid ++ [final]))%nat ->
  smooth_trajectory (first :: mid ++ [final]) f =
    first :: smooth_interior f (first :: mid ++ [final]) ++ [final].
Proof.
  intro H. unfold smooth_trajectory.
  assert (E : (length (first :: mid ++ [final]) <? 3)%nat = false)
    by (apply Nat.ltb_ge; exact H).
  rewrite E, last_opt_ends. reflexivity.
Qed.

Lemma smooth_trajectory_map {B : Type} (proj : TrajectoryPoint -> B)
    (trajectory : list TrajectoryPoint) (f : Q) :
  (forall a b c, proj (smooth_point f a b c) = proj b) ->
  map proj (smooth_trajectory trajectory f) = map proj trajectory.
Proof.
  intro Hproj.
  destruct (Nat.lt_ge_cases (length trajectory) 3) as [Hshort|Hlong].
  - unfold smooth_trajectory. apply Nat.ltb_lt in Hshort. rewrite Hshort. reflexivity.
  - destruct (split_ends trajectory) as (first & mid & final & ->); [lia|].
    rewrite smooth_trajectory_ends by exact Hlong.
    cbn [map]. rewrite map_app, smooth_interior_map by exact Hproj.
    rewrite map_app. reflexivity.
Qed.

(** X17. [smooth_trajectory] keeps the shape of a trajectory: the same
    number of points, each with the time, speed and heading it had, the
    first and the last point untouched; a trajectory of fewer than three
    points is returned as it is. *)
Theorem smoothing_keeps_shape (trajectory : list TrajectoryPoint) (smoothing_factor : Q) :
  length (smooth_trajectory trajectory smoothing_factor) = length trajectory /\
  map pt_time (smooth_trajectory trajectory smoothing_factor) = map pt_time trajectory /\
  map pt_speed (smooth_trajectory trajectory smoothing_factor)
    = map pt_speed trajectory /\
  map pt_heading (smooth_trajectory trajectory smoothing_factor)
    = map pt_heading trajectory /\
  hd_error (smooth_trajectory trajectory smoothing_factor) = hd_error trajectory /\
  last_opt (smooth_trajectory trajectory smoothing_factor) = last_opt trajectory /\
  ((length trajectory < 3)%nat ->
   smooth_trajectory trajectory smoothing_factor = trajectory).
Proof.
  assert (Htime : map pt_time (smooth_trajectory trajectory smoothing_factor)
                  = map pt_time trajectory).
  { apply smooth_trajectory_map. reflexivity. }
  split; [|split; [exact Htime|]].
  { rewrite <- (length_map pt_time), Htime. apply length_map. }
  split; [apply smooth_trajectory_map; reflexivity|].
  split; [apply smooth_trajectory_map; reflexivity|].
  assert (Hshort : (length trajectory < 3)%nat ->
                   smooth_trajectory trajectory smoothing_factor = trajectory).
  { intro H. unfold smooth_trajectory. apply Nat.ltb_lt in H. rewrite H. reflexivity. }
  assert (Hends :
    hd_error (smooth_trajectory trajectory smoothing_factor) = hd_error trajectory /\
    last_opt (smooth_trajectory trajectory smoothing_factor) = last_opt trajectory).
  { destruct (Nat.lt_ge_cases (length trajectory) 3) as [Hlt|Hlong].
    - rewrite (Hshort Hlt). split; reflexivity.
    - destruct (split_ends trajectory) as (first & mid & final & ->); [lia|].
      rewrite smooth_trajectory_ends by exact Hlong.
      split; [reflexivity|].
      rewrite !last_opt_ends. reflexivity. }
  destruct Hends as [Hh Hl]. split; [exact Hh|]. split; [exact Hl|exact Hshort].
Qed.

Lemma smoothing_keeps_shape_demo :
  map pt_time (smooth_trajectory zigzag_demo (1 # 2)) = [0; 5; 10; 15] /\
  smooth_trajectory [mkPoint 0 0 0 60 10 0; mkPoint 5 10 40 60 10 0] (1 # 2)
    = [mkPoint 0 0 0 60 10 0; mkPoint 5 10 40 60 10 0].
Proof.
  split.
  - apply (proj1 (proj2 (smoothing_keeps_shape zigzag_demo (1 # 2)))).
  - apply (proj2 (proj2 (proj2 (proj2 (proj2 (proj2 (smoothing_keeps_shape
             [mkPoint 0 0 0 60 10 0; mkPoint 5 10 40 60 10 0] (1 # 2)))))))).
    cbn. lia.
Defined.

(** ** Metrics *)

Lemma py_max2_lower_r (a b : Q) : b <= py_max2 a b.
Proof.
  unfold py_max2. destruct (Qltb a b) eqn:E; [lra|]. apply Qltb_ge in E. exact E.
Qed.

Lemma metrics_loop_speed (sqrt : Q -> Q) (points : list TrajectoryPoint) :
  forall total mx,
    Forall (fun p => 5 <= pt_speed p <= 30) (removelast points) ->
    mx <= 30 ->
    mx <= snd (metrics_loop sqrt points total mx) /\
    snd (metrics_loop sqrt points total mx) <= 30 /\
    (removelast points <> [] -> 5 <= snd (metrics_loop sqrt points total mx)).
Proof.
  induction points as [|p1 rest IH]; intros total mx Hall Hmx.
  - cbn. split; [lra|]. split; [exact Hmx|]. congruence.
  - destruct rest as [|p2 rest].
    + cbn. split; [lra|]. split; [exact Hmx|]. congruence.
    + change (removelast (p1 :: p2 :: rest)) with (p1 :: removelast (p2 :: rest)) in *.
      inversion Hall as [|? ? [Hp1 Hp1'] Hrest]; subst.
      cbn [metrics_loop].
      edestruct (IH (total + sqrt ((pt_x p2 - pt_x p1) ^ 2 + (pt_y p2 - pt_y p1) ^ 2 +
                                   (pt_z p2 - pt_z p1) ^ 2))
                    (py_max2 mx (pt_speed p1)) Hrest) as (Hlo & Hhi & _).
      { apply py_max2_upper; assumption. }
      pose proof (py_max2_lower mx (pt_speed p1)) as Ha.
      pose proof (py_max2_lower_r mx (pt_speed p1)) as Hb.
      split; [eapply Qle_trans; [exact Ha|exact Hlo]|]. split; [exact Hhi|].
      intros _. eapply Qle_trans; [|exact Hlo]. lra.
Qed.

Lemma Forall_removelast {A : Type} (P : A -> Prop) (l : list A) :
  Forall P l -> Forall P (removelast l).
Proof.
  induction 1 as [|a l Ha Hl IH]; [constructor|].
  destruct l as [|b l]; [constructor|].
  change (removelast (a :: b :: l)) with (a :: removelast (b :: l)).
  constructor; assumption.
Qed.

Lemma calculate_trajectory_metrics_returns (sqrt : Q -> Q)
    (points : list TrajectoryPoint) :
  match points with
  | [] => calculate_trajectory_metrics sqrt points = Ok None
  | first :: _ =>
      exists final,
        last_opt points = Some final /\
        calculate_trajectory_metrics sqrt points =
          Ok (Some {| tm_total_distance := fst (metrics_loop sqrt points 0 0);
                      tm_max_speed := snd (metrics_loop sqrt points 0 0);
                      tm_average_altitude :=
                        fold_left Qplus (map pt_z points) 0 / Qnat (length points);
                      tm_duration := pt_time final - pt_time first;
                      tm_total_points := length points |})
  end.
Proof.
  destruct points as [|first rest]; [reflexivity|].
  destruct (last_opt_nonempty (first :: rest)) as [final Hfinal]; [discriminate|].
  exists final. split; [exact Hfinal|].
  unfold calculate_trajectory_metrics. rewrite Hfinal.
  destruct (metrics_loop sqrt (first :: rest) 0 0) as [total mx] eqn:E.
  rewrite py_div_Ok.
  - reflexivity.
  - assert (H : 0 < Qnat (length (first :: rest))) by (apply Qnat_pos; cbn; lia).
    intro Hz. rewrite Hz in H. apply (Qlt_irrefl 0). exact H.
Qed.

Section MetricsClaim.
Variable sqrt : Q -> Q.
Variable atan2 : Q -> Q -> Q.

(** X19. [calculate_trajectory_metrics] returns the empty dictionary for an
    empty trajectory and for no other; the metrics it returns report the
    number of points and, as duration, the time of the last point minus
    that of the first.  For the trajectory that [calculate_trajectory]
    returns for at least two waypoints, a window with [start_time <
    end_time] and a positive step, the first point is at [start_time], the
    last at [end_time], and the metrics report a maximum speed within
    [[5, 30]]: the speed 0 of the final point never counts. *)
Theorem metrics_of_sampled_trajectory :
  calculate_trajectory_metrics sqrt [] = Ok None /\
  (forall points r,
      calculate_trajectory_metrics sqrt points = Ok r ->
      (r = None <-> points = []) /\
      (forall m, r = Some m ->
         tm_total_points m = length points /\
         exists first final,
           hd_error points = Some first /\ last_opt points = Some final /\
           tm_duration m = pt_time final - pt_time first)) /\
  (forall fuel waypoints start_time end_time time_step traj r,
      (2 <= length waypoints)%nat -> start_time < end_time -> 0 < time_step ->
      calculate_trajectory sqrt atan2 fuel waypoints start_time end_time time_step
        = Ok traj ->
      calculate_trajectory_metrics sqrt traj = Ok r ->
      exists m first final,
        r = Some m /\
        hd_error traj = Some first /\ last_opt traj = Some final /\
        pt_time first == start_time /\ pt_time final == end_time /\
        tm_duration m = pt_time final - pt_time first /\
        5 <= tm_max_speed m /\ tm_max_speed m <= 30 /\
        tm_total_points m = length traj).
Proof.
  split; [reflexivity|]. split.
  - intros points r Hr.
    pose proof (calculate_trajectory_metrics_returns sqrt points) as H.
    destruct points as [|first rest].
    + rewrite H in Hr. injection Hr as <-. split; [tauto|]. discriminate.
    + destruct H as (final & Hfinal & H). rewrite H in Hr. injection Hr as <-.
      split; [split; discriminate|].
      intros m Hm. injection Hm as <-. cbn [tm_total_points tm_duration].
      split; [reflexivity|]. exists first, final.
      split; [reflexivity|]. split; [exact Hfinal|reflexivity].
  - intros fuel waypoints start_time end_time time_step traj r Hlen Hwin Hstep H Hr.
    destruct (calculate_trajectory_inv _ _ _ _ _ _ _ _ Hlen H)
      as (nw & samples & Hn & Hnw & Hloop & Hend).
    destruct (sample_loop_inv sqrt atan2 nw end_time time_step Hnw fuel _ _ _ Hloop)
      as (new & Hnew & Hall & Hfirst & Hsorted).
    cbn [app] in Hnew. subst new.
    destruct Hfirst as (p0 & rest & Hs & Hp0); [lra|].
    assert (Hp0q : pt_time p0 == start_time) by (rewrite Hp0; reflexivity).
    assert (Hspeeds : Forall (fun p => 5 <= pt_speed p <= 30) samples).
    { eapply Forall_impl; [|exact Hall]. intros p [_ Hp]. exact Hp. }
    assert (Hshape :
      exists final,
        last_opt traj = Some final /\ pt_time final == end_time /\
        Forall (fun p => 5 <= pt_speed p <= 30) (removelast traj) /\
        removelast traj <> [] /\
        exists rest', traj = p0 :: rest').
    { destruct (ensure_end_cases _ _ _ _ Hend)
        as [[-> Hge]|(q & endpoint & Hq & Hqlt & -> & Ht & _)].
      - destruct (last_opt_nonempty samples) as [lp Hlp]; [rewrite Hs; discriminate|].
        exists lp. split; [exact Hlp|].
        assert (Hlple : pt_time lp <= end_time).
        { rewrite Forall_forall in Hall. apply (Hall lp). apply last_opt_In. exact Hlp. }
        specialize (Hge lp Hlp).
        split; [lra|]. split; [apply Forall_removelast; exact Hspeeds|].
        split; [|exists rest; exact Hs].
        rewrite Hs in *. destruct rest as [|p1 rest'].
        + cbn in Hlp. injection Hlp as <-. exfalso. lra.
        + change (removelast (p0 :: p1 :: rest')) with (p0 :: removelast (p1 :: rest')).
          discriminate.
      - exists endpoint. split; [apply last_opt_app|]. split; [rewrite Ht; reflexivity|].
        rewrite removelast_last. split; [exact Hspeeds|].
        split; [rewrite Hs; discriminate|].
        exists (rest ++ [endpoint]). rewrite Hs. reflexivity. }
    destruct Hshape as (final & Hfinal & Hft & Hrl & Hrne & rest' & Htraj).
    pose proof (calculate_trajectory_metrics_returns sqrt traj) as Hm.
    rewrite Htraj in Hm. destruct Hm as (final' & Hfinal' & Hm).
    rewrite <- Htraj in Hm, Hfinal'.
    assert (final' = final) by congruence. subst final'.
    rewrite Hm in Hr. injection Hr as <-.
    eexists. exists p0, final. split; [reflexivity|].
    cbn [tm_duration tm_max_speed tm_total_points].
    split; [rewrite Htraj; reflexivity|]. split; [exact Hfinal|].
    split; [exact Hp0q|]. split; [exact Hft|]. split; [reflexivity|].
    destruct (metrics_loop_speed sqrt traj 0 0 Hrl) as (_ & Hhi & Hlo); [lra|].
    split; [apply Hlo; exact Hrne|]. split; [exact Hhi|reflexivity].
Qed.

End MetricsClaim.

Lemma metrics_of_sampled_trajectory_demo :
  exists traj m,
    calculate_trajectory sqrt_floor atan2_axes 3 waypoints_demo 100 160 25 = Ok traj /\
    calculate_trajectory_metrics sqrt_floor traj = Ok (Some m) /\
    tm_duration m == 160 - 100 /\
    5 <= tm_max_speed m /\ tm_max_speed m <= 30 /\
    tm_total_points m = length traj.
Proof.
  destruct (calculate_trajectory sqrt_floor atan2_axes 3 waypoints_demo 100 160 25)
    as [traj| |] eqn:E; try (vm_compute in E; discriminate).
  destruct (calculate_trajectory_metrics sqrt_floor traj) as [r| |] eqn:Er;
    try (vm_compute in E; injection E as <-; vm_compute in Er; discriminate).
  destruct (proj2 (proj2 (metrics_of_sampled_trajectory sqrt_floor atan2_axes))
              3%nat waypoints_demo 100 160 25 traj r)
    as (m & first & final & -> & _ & _ & Hf & Hl & Hd & Hm).
  - cbn. lia.
  - reflexivity.
  - reflexivity.
  - exact E.
  - exact Er.
  - exists traj, m. split; [reflexivity|]. split; [exact Er|].
    split; [rewrite Hd, Hf, Hl; reflexivity|exact Hm].
Defined.

(** * Zones and suggestions derived from a report *)

Lemma Forall2_map_same {A B : Type} (P : A -> Prop) (R : A -> B -> Prop) (f : A -> B)
    (l : list A) :
  (forall a, P a -> R a (f a)) -> Forall P l -> Forall2 R l (map f l).
Proof.
  intros HPR. induction 1 as [|a l Ha Hl IH]; cbn [map]; constructor; auto.
Qed.

Section ZonesClaim.
Variable sqrt : Q -> Q.
Variable format_description : Q -> Q -> string.
Variable format_number : Q -> string.
Hypothesis sqrt_nonneg : forall q, 0 <= sqrt q.

(** X20. [get_conflict_zones] maps the conflicts of a report, in order, to
    one zone each, centred at the conflict's location, with the conflict's
    severity, the radius [safety_buffer * buffer_expansion] and the window
    from [max(0, time - 10)] to [time + 10].  With an expansion of at least
    1 (and a [math.sqrt] that returns no negative number) the radius
    exceeds the separation of the two drones.  The window never starts
    before 0, and it contains the time of the conflict when that time is
    not negative. *)
Theorem zones_of_report primary others safety_buffer r buffer_expansion :
  check_conflicts sqrt format_description primary others safety_buffer = Ok r ->
  1 <= buffer_expansion ->
  Forall2 (fun c z =>
             zone_center z = c_location c /\
             zone_severity z = c_severity c /\
             zone_radius z == safety_buffer * buffer_expansion /\
             zone_time_start z == Qmax 0 (c_time c - 10) /\
             zone_time_end z == c_time c + 10 /\
             c_distance c < zone_radius z /\
             0 <= zone_time_start z /\
             (0 <= c_time c ->
              zone_time_start z <= c_time c /\ c_time c <= zone_time_end z))
          (conflicts r)
          (get_conflict_zones format_number (conflicts r) buffer_expansion).
Proof using sqrt_nonneg.
  intros H Hexp. unfold get_conflict_zones.
  eapply Forall2_map_same; [|exact (report_distances_nonneg sqrt format_description
                                      sqrt_nonneg _ _ _ _ H)].
  intros c [Hd (_ & Hb & Hlt & _)].
  unfold conflict_zone.
  cbn [zone_center zone_severity zone_radius zone_time_start zone_time_end].
  split; [reflexivity|]. split; [reflexivity|].
  split; [rewrite Hb; reflexivity|].
  split; [apply py_max2_Qmax|]. split; [reflexivity|].
  pose proof (py_max2_lower 0 (c_time c - 10)) as Hm0.
  pose proof (py_max2_lower_r 0 (c_time c - 10)) as Hm1.
  split.
  { rewrite Hb.
    assert (Hmul : safety_buffer * 1 <= safety_buffer * buffer_expansion).
    { apply Qmult_le_l_weak; lra. }
    lra. }
  split; [exact Hm0|].
  intro Ht. split; [|lra].
  apply py_max2_upper; lra.
Qed.

End ZonesClaim.

Section SuggestionsClaim.
Variable sqrt : Q -> Q.
Variable format_description : Q -> Q -> string.

(** X21. [suggest_resolution] answers the conflicts of a report one by
    one, in order, each suggestion carrying the time and the flight of its
    conflict: an immediate altitude change for a HIGH conflict, a
    high-priority time shift for a MEDIUM one, a normal-priority route
    adjustment for a LOW one.  In terms of the distance: HIGH is
    [distance < safety_buffer * 0.5], MEDIUM is [distance < safety_buffer *
    0.8] otherwise, the two products being the floats that the code
    computes. *)
Theorem suggestions_of_report primary others safety_buffer r :
  check_conflicts sqrt format_description primary others safety_buffer = Ok r ->
  Forall2 (fun c s =>
             sg_conflict_time s = c_time c /\
             sg_affected_flight s = c_other_flight_id c /\
             (c_severity c = "HIGH"%string \/ c_severity c = "MEDIUM"%string \/
              c_severity c = "LOW"%string) /\
             (c_severity c = "HIGH"%string ->
              sg_type s = "altitude_change"%string /\
              sg_priority s = "immediate"%string) /\
             (c_severity c = "MEDIUM"%string ->
              sg_type s = "time_shift"%string /\ sg_priority s = "high"%string) /\
             (c_severity c = "LOW"%string ->
              sg_type s = "route_adjustment"%string /\
              sg_priority s = "normal"%string) /\
             (c_distance c < double_mul safety_buffer (1 # 2) ->
              sg_type s = "altitude_change"%string) /\
             (double_mul safety_buffer (1 # 2) <= c_distance c ->
              c_distance c < double_mul safety_buffer (round_double (8 # 10)) ->
              sg_type s = "time_shift"%string) /\
             (double_mul safety_buffer (1 # 2) <= c_distance c ->
              double_mul safety_buffer (round_double (8 # 10)) <= c_distance c ->
              sg_type s = "route_adjustment"%string))
          (conflicts r) (suggest_resolution (conflicts r)).
Proof.
  intro H. unfold suggest_resolution.
  pose proof (check_conflicts_inv _ _ _ _ _ _ H) as (Hrec & _).
  eapply Forall2_map_same; [|exact Hrec].
  intros c (_ & _ & Hlt & _ & Hv).
  destruct (severity_of_bands (c_distance c) safety_buffer) as (Hh & Hm & Hl).
  rewrite <- Hv in Hh, Hm, Hl.
  assert (Hcases : c_severity c = "HIGH"%string \/ c_severity c = "MEDIUM"%string \/
                   c_severity c = "LOW"%string).
  { rewrite Hv. unfold severity_of.
    destruct (Qltb _ _); [left; reflexivity|].
    destruct (Qltb _ _); [right; left; reflexivity|right; right; reflexivity]. }
  assert (Hsug :
    (c_severity c = "HIGH"%string ->
     sg_type (suggestion_for c) = "altitude_change"%string /\
     sg_priority (suggestion_for c) = "immediate"%string) /\
    (c_severity c = "MEDIUM"%string ->
     sg_type (suggestion_for c) = "time_shift"%string /\
     sg_priority (suggestion_for c) = "high"%string) /\
    (c_severity c = "LOW"%string ->
     sg_type (suggestion_for c) = "route_adjustment"%string /\
     sg_priority (suggestion_for c) = "normal"%string)).
  { unfold suggestion_for.
    split; [|split]; intros ->; cbn; split; reflexivity. }
  destruct Hsug as (Sh & Sm & Sl).
  assert (Htime : sg_conflict_time (suggestion_for c) = c_time c /\
                  sg_affected_flight (suggestion_for c) = c_other_flight_id c).
  { unfold suggestion_for.
    destruct (String.eqb (c_severity c) "HIGH");
      [|destruct (String.eqb (c_severity c) "MEDIUM")]; cbn; split; reflexivity. }
  destruct Htime as [Ht Hf].
  split; [exact Ht|]. split; [exact Hf|]. split; [exact Hcases|].
  split; [exact Sh|]. split; [exact Sm|]. split; [exact Sl|].
  split; [intro Hd; apply Sh, Hh, Hd|].
  split; [intros H1 H2; apply Sm, Hm; assumption|].
  intros H1 H2. apply Sl, Hl; assumption.
Qed.

End SuggestionsClaim.

Lemma zones_of_report_demo :
  exists r,
    check_conflicts sqrt_floor describe primary_demo [flight_demo; flight_close] 50
      = Ok r /\
    map zone_time_start (get_conflict_zones (fun _ => "t"%string) (conflicts r) (3 # 2))
      = [110; 0; 110] /\
    Forall2 (fun c z => c_distance c < zone_radius z /\ 0 <= zone_time_start z)
      (conflicts r)
      (get_conflict_zones (fun _ => "t"%string) (conflicts r) (3 # 2)).
Proof.
  destruct (check_conflicts sqrt_floor describe primary_demo [flight_demo; flight_close] 50)
    as [r| |] eqn:E; try (vm_compute in E; discriminate).
  pose proof (zones_of_report sqrt_floor describe (fun _ => "t"%string) sqrt_floor_nonneg
                primary_demo [flight_demo; flight_close] 50 r (3 # 2) E) as H.
  exists r. split; [reflexivity|].
  split; [vm_compute in E; injection E as <-; reflexivity|].
  eapply Forall2_impl; [|apply H; unfold Qle; cbn; lia].
  intros c z (_ & _ & _ & _ & _ & Hr & H0 & _). split; assumption.
Defined.

Lemma suggestions_of_report_demo :
  exists r,
    check_conflicts sqrt_floor describe primary_demo [flight_demo; flight_close] 50
      = Ok r /\
    map sg_type (suggest_resolution (conflicts r))
      = ["time_shift"; "altitude_change"; "altitude_change"]%string /\
    Forall2 (fun c s => sg_conflict_time s = c_time c /\
                        sg_affected_flight s = c_other_flight_id c)
      (conflicts r) (suggest_resolution (conflicts r)).
Proof.
  destruct (check_conflicts sqrt_floor describe primary_demo [flight_demo; flight_close] 50)
    as [r| |] eqn:E; try (vm_compute in E; discriminate).
  pose proof (suggestions_of_report sqrt_floor describe
                primary_demo [flight_demo; flight_close] 50 r E) as H.
  exists r. split; [reflexivity|].
  split; [vm_compute in E; injection E as <-; reflexivity|].
  eapply Forall2_impl; [|exact H].
  intros c s (Ht & Hf & _). split; assumption.
Defined.

(** * Validation, bearings and formatting *)





Lemma py_mod_range (a b : Q) :
  0 < b ->
  py_mod a b = Ok (a - b * inject_Z (Qfloor (a / b))) /\
  0 <= a - b * inject_Z (Qfloor (a / b)) /\
  a - b * inject_Z (Qfloor (a / b)) < b.
Proof.
  intro Hb. unfold py_mod.
  assert (E : Qeq_bool b 0 = false).
  { destruct (Qeq_bool b 0) eqn:E; [|reflexivity]. apply Qeq_bool_iff in E. lra. }
  rewrite E. split; [reflexivity|].
  pose proof (Qfloor_le (a / b)) as H1. pose proof (Qlt_floor (a / b)) as H2.
  rewrite inject_Z_plus in H2. change (inject_Z 1) with 1 in H2.
  set (f := inject_Z (Qfloor (a / b))) in *.
  assert (Ha : a == (a / b) * b) by (field; lra).
  assert (Hlo : f * b <= (a / b) * b) by (apply Qmult_le_compat_r; lra).
  assert (Hhi : (a / b) * b < (f + 1) * b) by (apply Qmult_lt_compat_r; lra).
  split; lra.
Qed.

(** X23. With a [math.atan2] that returns an angle between [-pi] and [pi],
    [calculate_bearing] never raises and returns an angle in [[0, 360)]. *)
Theorem bearing_in_full_turn (atan2 : Q -> Q -> Q) (pos1 pos2 : PosDict) :
  (forall y x, - math_pi <= atan2 y x /\ atan2 y x <= math_pi) ->
  exists v,
    calculate_bearing atan2 pos1 pos2 = Ok v /\ 0 <= v /\ v < 360.
Proof.
  intros _. unfold calculate_bearing.
  set (bearing :=
         atan2 (dict_y pos2 - dict_y pos1) (dict_x pos2 - dict_x pos1) * 180 / math_pi).
  destruct (py_mod_range (bearing + 360) 360) as (Hv & H0 & H1); [reflexivity|].
  eexists. split; [exact Hv|]. split; [exact H0|exact H1].
Qed.

Lemma atan2_axes_range (y x : Q) :
  - math_pi <= atan2_axes y x /\ atan2_axes y x <= math_pi.
Proof.
  unfold atan2_axes.
  destruct (Qeq_bool y 0); [destruct (Qltb x 0)|
    destruct (Qeq_bool x 0); [destruct (Qltb y 0)|
      destruct (Qltb 0 x); destruct (Qltb 0 y)]];
    unfold math_pi; split; unfold Qle; cbn; lia.
Qed.

Lemma py_int_Z (z : Z) : py_int (inject_Z z) = z.
Proof.
  unfold py_int. destruct (Qltb (inject_Z z) 0).
  - apply Qceiling_Z.
  - apply Qfloor_Z.
Qed.

Lemma py_int_nonneg (x : Q) : 0 <= x -> py_int x = Qfloor x.
Proof.
  intro H. unfold py_int.
  assert (E : Qltb x 0 = false) by (apply Qltb_ge; exact H).
  rewrite E. reflexivity.
Qed.

Lemma Qfloor_div_60 (s : Q) : Qfloor (s / 60) = (Qfloor s / 60)%Z.
Proof.
  pose proof (Qfloor_le s) as H1. pose proof (Qlt_floor s) as H2.
  pose proof (Z.div_mod (Qfloor s) 60) as Hdm.
  pose proof (Z.mod_pos_bound (Qfloor s) 60) as Hr.
  set (fs := Qfloor s) in *. set (q := (fs / 60)%Z) in *. set (r := (fs mod 60)%Z) in *.
  assert (Hfs : fs = (60 * q + r)%Z) by (apply Hdm; lia).
  assert (Hrb : (0 <= r < 60)%Z) by (apply Hr; lia).
  apply Qfloor_unique.
  - apply Qle_shift_div_l; [reflexivity|].
    assert (H : inject_Z q * 60 <= inject_Z fs).
    { change 60 with (inject_Z 60). rewrite <- inject_Z_mult, <- Zle_Qle. lia. }
    lra.
  - apply Qlt_shift_div_r; [reflexivity|].
    assert (H : inject_Z (fs + 1) <= inject_Z (q + 1) * 60).
    { change 60 with (inject_Z 60). rewrite <- inject_Z_mult, <- Zle_Qle. lia. }
    lra.
Qed.

Lemma Qfloor_mod_60 (s : Q) :
  Qfloor (s - 60 * inject_Z (Qfloor (s / 60))) = (Qfloor s mod 60)%Z.
Proof.
  rewrite Qfloor_div_60.
  pose proof (Qfloor_le s) as H1. pose proof (Qlt_floor s) as H2.
  pose proof (Z.div_mod (Qfloor s) 60) as Hdm.
  set (fs := Qfloor s) in *. set (q := (fs / 60)%Z) in *. set (r := (fs mod 60)%Z) in *.
  assert (Hfs : fs = (60 * q + r)%Z) by (apply Hdm; lia).
  assert (Hq : inject_Z fs == 60 * inject_Z q + inject_Z r).
  { rewrite Hfs, inject_Z_plus, inject_Z_mult. reflexivity. }
  rewrite inject_Z_plus in H2. change (inject_Z 1) with 1 in H2.
  apply Qfloor_unique.
  - lra.
  - rewrite inject_Z_plus. change (inject_Z 1) with 1. lra.
Qed.

Lemma format_time_nonneg (fuel : nat) (seconds : Q) :
  0 <= seconds ->
  format_time (S fuel) seconds = Ok (render_time (Qfloor seconds)).
Proof.
  intro H. cbn [format_time].
  assert (E : Qltb seconds 0 = false) by (apply Qltb_ge; exact H).
  rewrite E. unfold py_floordiv.
  change (Qeq_bool 60 0) with false. cbv iota. rewrite bind_Ok.
  destruct (py_mod_range seconds 60) as (Hm & H0 & _); [reflexivity|].
  rewrite Hm, bind_Ok, py_int_Z, (py_int_nonneg _ H0).
  rewrite Qfloor_mod_60, Qfloor_div_60. unfold render_time.
  destruct (0 <? Qfloor seconds / 60)%Z; reflexivity.
Qed.

Lemma format_time_negative (fuel : nat) (seconds : Q) :
  seconds < 0 ->
  format_time (S fuel) seconds =
    bind (format_time fuel (- seconds)) (fun s => Ok ("-" ++ s)%string).
Proof.
  intro H. cbn [format_time].
  assert (E : Qltb seconds 0 = true) by (apply Qltb_lt; exact H).
  rewrite E. reflexivity.
Qed.

(** X24. [format_time] shows whole seconds only.  For a number of seconds
    below [2 ^ 53] in absolute value, where the float quotient [seconds //
    60] and remainder [seconds % 60] are exact: for [seconds >= 0] the
    result is [<m>m <s>s], with [m] the whole minutes and [s] the seconds
    left below 60, or [<s>s] when [m] is 0 (hours are never split off); for
    a negative value it is ["-"] followed by the text of [-seconds].  Two
    levels of calls suffice. *)
Theorem format_time_whole_seconds (fuel : nat) (seconds : Q) :
  (2 <= fuel)%nat ->
  Qabs seconds < 2 ^ 53 ->
  format_time fuel seconds =
    if Qltb seconds 0
    then Ok ("-" ++ render_time (Qfloor (- seconds)))%string
    else Ok (render_time (Qfloor seconds)).
Proof.
  intros Hfuel _. destruct fuel as [|fuel]; [lia|].
  destruct (Qltb seconds 0) eqn:E.
  - apply Qltb_lt in E. rewrite format_time_negative by exact E.
    destruct fuel as [|fuel]; [lia|].
    rewrite format_time_nonneg by lra. reflexivity.
  - apply Qltb_ge in E. apply format_time_nonneg. exact E.
Qed.

Lemma bearing_in_full_turn_demo :
  exists v,
    calculate_bearing atan2_axes (Interpolated (mkPosition 0 0 60 0))
      (Interpolated (mkPosition 0 (-(5)) 60 0)) = Ok v /\
    0 <= v /\ v < 360.
Proof.
  destruct (bearing_in_full_turn atan2_axes (Interpolated (mkPosition 0 0 60 0))
              (Interpolated (mkPosition 0 (-(5)) 60 0)) atan2_axes_range)
    as (v & Hv & H0 & H1).
  exists v. split; [exact Hv|]. split; assumption.
Defined.

Lemma format_time_whole_seconds_demo :
  format_time 2 (251 # 2) = Ok "2m 5s"%string /\
  format_time 2 (-(61 # 2)) = Ok "-30s"%string /\
  format_time 2 3700 = Ok "61m 40s"%string.
Proof.
  split; [|split].
  - rewrite (format_time_whole_seconds 2 (251 # 2)) by (lia || reflexivity).
    reflexivity.
  - rewrite (format_time_whole_seconds 2 (-(61 # 2))) by (lia || reflexivity).
    reflexivity.
  - rewrite (format_time_whole_seconds 2 3700) by (lia || reflexivity).
    reflexivity.
Defined.

(** * Missions, recommendations and the pipeline *)

Lemma flat_map_nil_iff {A B : Type} (f : A -> list B) (l : list A) :
  flat_map f l = [] <-> Forall (fun a => f a = []) l.
Proof.
  induction l as [|a l IH]; cbn [flat_map].
  - split; [constructor|reflexivity].
  - split.
    + intro H. apply app_eq_nil in H. destruct H as [Ha Hl].
      constructor; [exact Ha|]. apply IH. exact Hl.
    + intro H. inversion H as [|? ? Ha Hl]; subst.
      rewrite Ha. apply IH. exact Hl.
Qed.

Lemma flight_warning_length (flight : FlightPlan) :
  (length (MissionUtils.flight_warning flight) <= 1)%nat.
Proof.
  unfold MissionUtils.flight_warning.
  destruct (Qle_bool (fp_end_time flight) (fp_start_time flight)); cbn; lia.
Qed.

Lemma flat_map_warning_length (flights : list FlightPlan) :
  (length (flat_map MissionUtils.flight_warning flights) <= length flights)%nat.
Proof.
  induction flights as [|f l IH]; cbn [flat_map length]; [lia|].
  rewrite length_app. pose proof (flight_warning_length f). lia.
Qed.

(** X25. [validate_mission_timing] returns no warning exactly when the
    primary mission starts before it ends, its duration, the float
    [end_time - start_time], is neither below 60 nor above 3600, and every
    other flight starts before it ends.  A primary mission that does not
    start before it ends is reported twice, as starting too late and as
    very short.  There are at most two warnings for the primary mission and
    one per other flight. *)
Theorem mission_timing_warnings (primary_mission : Mission)
    (other_flights : list FlightPlan) :
  (MissionUtils.validate_mission_timing primary_mission other_flights = [] <->
   m_start_time primary_mission < m_end_time primary_mission /\
   60 <= double_sub (m_end_time primary_mission) (m_start_time primary_mission) /\
   double_sub (m_end_time primary_mission) (m_start_time primary_mission) <= 3600 /\
   Forall (fun f => fp_start_time f < fp_end_time f) other_flights) /\
  (m_end_time primary_mission <= m_start_time primary_mission ->
   exists rest,
     MissionUtils.validate_mission_timing primary_mission other_flights =
       "Primary mission start time must be before end time"%string
       :: "Primary mission duration is very short (< 1 minute)"%string :: rest) /\
  (length (MissionUtils.validate_mission_timing primary_mission other_flights)
   <= 2 + length other_flights)%nat.
Proof.
  unfold MissionUtils.validate_mission_timing.
  set (s := m_start_time primary_mission). set (e := m_end_time primary_mission).
  set (d := double_sub e s).
  pose proof (flat_map_warning_length other_flights) as Hlen.
  assert (Hflights :
    flat_map MissionUtils.flight_warning other_flights = [] <->
    Forall (fun f => fp_start_time f < fp_end_time f) other_flights).
  { rewrite flat_map_nil_iff. split; apply Forall_impl; intros f;
      unfold MissionUtils.flight_warning;
      destruct (Qle_bool (fp_end_time f) (fp_start_time f)) eqn:E.
    - discriminate.
    - intros _. apply Qle_bool_false. exact E.
    - apply Qle_bool_iff in E. intro H. exfalso. lra.
    - reflexivity. }
  destruct (Qle_bool e s) eqn:E1.
  - apply Qle_bool_iff in E1.
    assert (Hd : d <= 0).
    { unfold d, double_sub. apply (proj1 (round_double_sign (e - s))). lra. }
    assert (E2 : Qltb d 60 = true) by (apply Qltb_lt; lra).
    rewrite E2. cbn [app]. split; [|split].
    + split; [discriminate|]. intros (H & _). exfalso. lra.
    + intros _. eexists. reflexivity.
    + cbn [length]. lia.
  - apply Qle_bool_false in E1. cbn [app]. split; [|split].
    + destruct (Qltb d 60) eqn:E2.
      { apply Qltb_lt in E2. cbn [app]. split; [discriminate|].
        intros (_ & H & _). exfalso. lra. }
      apply Qltb_ge in E2.
      destruct (Qltb 3600 d) eqn:E3.
      { apply Qltb_lt in E3. cbn [app]. split; [discriminate|].
        intros (_ & _ & H & _). exfalso. lra. }
      apply Qltb_ge in E3. cbn [app]. rewrite Hflights. tauto.
    + intro H. exfalso. lra.
    + destruct (Qltb d 60); [|destruct (Qltb 3600 d)];
        cbn [app length]; lia.
Qed.

Lemma mission_timing_warnings_demo :
  (exists rest,
      MissionUtils.validate_mission_timing (mkMission waypoints_demo 160 100)
        [mkFlightPlan "F1" waypoints_demo 0 300; mkFlightPlan "F2" waypoints_demo 50 50]
      = "Primary mission start time must be before end time"%string
        :: "Primary mission duration is very short (< 1 minute)"%string :: rest) /\
  round_double (603 # 10) - round_double (3 # 10) < 60 /\
  MissionUtils.validate_mission_timing
    (mkMission waypoints_demo (round_double (3 # 10)) (round_double (603 # 10))) [] = [].
Proof.
  split; [|split].
  - apply (proj1 (proj2 (mission_timing_warnings (mkMission waypoints_demo 160 100)
      [mkFlightPlan "F1" waypoints_demo 0 300; mkFlightPlan "F2" waypoints_demo 50 50]))).
    unfold Qle. cbn. lia.
  - vm_compute. reflexivity.
  - apply (proj1 (mission_timing_warnings
                    (mkMission waypoints_demo (round_double (3 # 10))
                       (round_double (603 # 10))) [])).
    split; [vm_compute; reflexivity|].
    split; [vm_compute; intro H; discriminate H|].
    split; [vm_compute; intro H; discriminate H|constructor].
Defined.

Lemma py_min2_lower_r (a b : Q) : py_min2 a b <= b.
Proof.
  unfold py_min2. destruct (Qltb b a) eqn:E; [lra|]. apply Qltb_ge in E. exact E.
Qed.

Lemma fold_min_spec (l : list Q) :
  forall a,
    In (fold_left py_min2 l a) (a :: l) /\
    (forall x, In x (a :: l) -> fold_left py_min2 l a <= x).
Proof.
  induction l as [|b l IH]; intro a; cbn [fold_left].
  - split; [left; reflexivity|]. intros x [<-|[]]. lra.
  - destruct (IH (py_min2 a b)) as [Hin Hmin]. split.
    + destruct Hin as [Hin|Hin]; [|right; right; exact Hin].
      rewrite <- Hin. unfold py_min2. destruct (Qltb b a); [right; left|left]; reflexivity.
    + pose proof (py_min2_upper a b) as Ha. pose proof (py_min2_lower_r a b) as Hb.
      assert (Hm : fold_left py_min2 l (py_min2 a b) <= py_min2 a b).
      { apply Hmin. left. reflexivity. }
      intros x [<-|[<-|Hx]]; [lra|lra|].
      apply Hmin. right. exact Hx.
Qed.

Lemma py_min_spec (l : list Q) :
  l <> [] ->
  exists m, py_min l = Ok m /\ In m l /\ forall x, In x l -> m <= x.
Proof.
  destruct l as [|a l]; [congruence|]. intros _.
  exists (fold_left py_min2 l a). split; [reflexivity|]. apply fold_min_spec.
Qed.

Lemma filter_nil_iff {A : Type} (f : A -> bool) (l : list A) :
  filter f l = [] <-> Forall (fun a => f a = false) l.
Proof.
  induction l as [|a l IH]; cbn [filter].
  - split; [constructor|reflexivity].
  - destruct (f a) eqn:E.
    + split; [discriminate|]. intro H. inversion H; congruence.
    + rewrite IH. split; [constructor; assumption|]. intro H. inversion H; assumption.
Qed.

Section RecommendationClaim.
Variable format_fixed : Q -> string.

Lemma recommendations_unfold (found : list Conflict) :
  found <> [] ->
  exists m,
    In m (map c_distance found) /\
    (forall x, In x (map c_distance found) -> m <= x) /\
    MissionUtils.generate_safety_buffer_recommendations format_fixed found =
      Ok ((match filter (fun c => String.eqb (c_severity c) "HIGH") found with
           | [] => []
           | _ :: _ =>
               [ {| rec_type := "increase";
                    rec_message :=
                      ("High severity conflicts detected. Recommend increasing safety buffer to "
                         ++ format_fixed (double_mul m (5 # 2)) ++ "m")%string;
                    rec_suggested_buffer := Some (double_mul m (5 # 2));
                    rec_reason := Some "Critical proximity violations"%string |} ]
           end) ++
          (if (3 <? length found)%nat
           then [ {| rec_type := "temporal_adjustment";
                     rec_message :=
                       "Multiple conflicts detected. Consider temporal separation or route modification";
                     rec_suggested_buffer := None;
                     rec_reason := Some "High conflict density"%string |} ]
           else [])).
Proof.
  intro Hne.
  destruct (py_min_spec (map c_distance found)) as (m & Hm & Hin & Hmin).
  { destruct found; [congruence|discriminate]. }
  exists m. split; [exact Hin|]. split; [exact Hmin|].
  unfold MissionUtils.generate_safety_buffer_recommendations.
  destruct found as [|c l] eqn:Ef; [congruence|]. rewrite <- Ef in *.
  rewrite Hm, bind_Ok, py_div_Ok.
  - rewrite bind_Ok.
    destruct (3 <? length found)%nat; [reflexivity|].
    rewrite app_nil_r. reflexivity.
  - assert (H : 0 < Qnat (length found)) by (apply Qnat_pos; rewrite Ef; cbn; lia).
    intro Hz. rewrite Hz in H. apply (Qlt_irrefl 0). exact H.
Qed.

(** X26. [generate_safety_buffer_recommendations] never raises.  Without
    conflicts it returns the single recommendation ['maintain']; with
    conflicts it returns nothing at all exactly when none is HIGH and there
    are at most three.  With conflicts, an ['increase'] recommendation
    comes first exactly when some conflict is HIGH, and the buffer it
    suggests is the float [min_distance * 2.5], [min_distance] being the
    smallest distance of the conflicts; a ['temporal_adjustment']
    recommendation, which suggests no buffer, follows exactly when there
    are more than three conflicts. *)
Theorem recommendations_for_conflicts :
  (forall conflicts0,
      exists recs,
        MissionUtils.generate_safety_buffer_recommendations format_fixed conflicts0
          = Ok recs /\
        (conflicts0 = [] -> map rec_type recs = ["maintain"%string]) /\
        (recs = [] <->
         conflicts0 <> [] /\
         Forall (fun c => c_severity c <> "HIGH"%string) conflicts0 /\
         (length conflicts0 <= 3)%nat)) /\
  (forall conflicts0 recs,
      conflicts0 <> [] ->
      MissionUtils.generate_safety_buffer_recommendations format_fixed conflicts0
        = Ok recs ->
      exists min_distance,
        In min_distance (map c_distance conflicts0) /\
        (forall c, In c conflicts0 -> min_distance <= c_distance c) /\
        map (fun rec => (rec_type rec, rec_suggested_buffer rec)) recs =
          (if existsb (fun c => String.eqb (c_severity c) "HIGH") conflicts0
           then [("increase"%string, Some (double_mul min_distance (5 # 2)))]
           else []) ++
          (if (3 <? length conflicts0)%nat
           then [("temporal_adjustment"%string, None)]
           else [])).
Proof.
  split.
  - intros [|c l].
    + eexists. split; [reflexivity|]. split; [reflexivity|].
      split; [discriminate|]. intros (H & _). congruence.
    + destruct (recommendations_unfold (c :: l)) as (m & _ & _ & Hrec); [discriminate|].
      eexists. split; [exact Hrec|]. split; [discriminate|].
      assert (Hhigh :
        filter (fun c => String.eqb (c_severity c) "HIGH") (c :: l) = [] <->
        Forall (fun c => c_severity c <> "HIGH"%string) (c :: l)).
      { rewrite filter_nil_iff. split; apply Forall_impl; intros a.
        - apply String.eqb_neq.
        - apply String.eqb_neq. }
      destruct (filter _ (c :: l)) as [|h hs] eqn:Ef.
      * destruct (3 <? length (c :: l))%nat eqn:E3.
        -- apply Nat.ltb_lt in E3. split; [discriminate|]. intros (_ & _ & H). lia.
        -- apply Nat.ltb_ge in E3. split; [|reflexivity].
           intros _. split; [discriminate|]. split; [apply Hhigh; reflexivity|exact E3].
      * split; [discriminate|]. intros (_ & H & _). apply Hhigh in H. discriminate.
  - intros found recs Hne Hrecs.
    destruct (recommendations_unfold found Hne) as (m & Hin & Hmin & Hrec).
    rewrite Hrec in Hrecs. injection Hrecs as <-.
    exists m. split; [exact Hin|].
    split; [intros c Hc; apply Hmin; apply in_map; exact Hc|].
    rewrite map_app.
    assert (Hex : existsb (fun c => String.eqb (c_severity c) "HIGH") found =
                  match filter (fun c => String.eqb (c_severity c) "HIGH") found with
                  | [] => false
                  | _ :: _ => true
                  end).
    { clear. induction found as [|c l IH]; cbn [existsb filter]; [reflexivity|].
      destruct (String.eqb (c_severity c) "HIGH"); [reflexivity|]. exact IH. }
    rewrite Hex.
    destruct (filter (fun c => String.eqb (c_severity c) "HIGH") found);
      destruct (3 <? length found)%nat; reflexivity.
Qed.

End RecommendationClaim.

Lemma recommendations_for_conflicts_demo :
  exists r recs,
    check_conflicts sqrt_floor describe primary_demo [flight_demo; flight_close] 50
      = Ok r /\
    MissionUtils.generate_safety_buffer_recommendations (fun _ => "x"%string) (conflicts r)
      = Ok recs /\
    map rec_suggested_buffer recs = [Some (25 # 2)] /\
    exists min_distance,
      In min_distance (map c_distance (conflicts r)) /\
      (forall c, In c (conflicts r) -> min_distance <= c_distance c) /\
      map (fun rec => (rec_type rec, rec_suggested_buffer rec)) recs =
        [("increase"%string, Some (double_mul min_distance (5 # 2)))].
Proof.
  destruct (check_conflicts sqrt_floor describe primary_demo [flight_demo; flight_close] 50)
    as [r| |] eqn:E; try (vm_compute in E; discriminate).
  destruct (MissionUtils.generate_safety_buffer_recommendations (fun _ => "x"%string)
              (conflicts r)) as [recs| |] eqn:Er;
    try (vm_compute in E; injection E as <-; vm_compute in Er; discriminate).
  exists r, recs. split; [reflexivity|]. split; [exact Er|].
  destruct (proj2 (recommendations_for_conflicts (fun _ => "x"%string))
              (conflicts r) recs) as (m & Hin & Hmin & Hrecs).
  - vm_compute in E. injection E as <-. discriminate.
  - exact Er.
  - split.
    + vm_compute in E. injection E as <-. vm_compute in Er. injection Er as <-.
      reflexivity.
    + exists m. split; [exact Hin|]. split; [exact Hmin|].
      rewrite Hrecs. vm_compute in E. injection E as <-. reflexivity.
Defined.

(** ** The sample shown at a time *)

Lemma closer_first_least (t : Q) (rest : list TrajectoryPoint) :
  forall seen best,
    (exists before after,
        seen = before ++ best :: after /\
        Forall (fun p => VisualizationManager.time_key t best
                         < VisualizationManager.time_key t p) before /\
        Forall (fun p => VisualizationManager.time_key t best
                         <= VisualizationManager.time_key t p) after) ->
    exists before after,
      seen ++ rest =
        before ++ fold_left (VisualizationManager.closer t) rest best :: after /\
      Forall (fun p => VisualizationManager.time_key t
                         (fold_left (VisualizationManager.closer t) rest best)
                       < VisualizationManager.time_key t p) before /\
      Forall (fun p => VisualizationManager.time_key t
                         (fold_left (VisualizationManager.closer t) rest best)
                       <= VisualizationManager.time_key t p) after.
Proof.
  induction rest as [|q rest IH]; intros seen best (before & after & Hseen & Hb & Ha).
  - cbn [fold_left]. rewrite app_nil_r. exists before, after. auto.
  - cbn [fold_left].
    replace (seen ++ q :: rest) with ((seen ++ [q]) ++ rest)
      by (rewrite <- app_assoc; reflexivity).
    apply IH. unfold VisualizationManager.closer.
    destruct (Qltb (VisualizationManager.time_key t q)
                (VisualizationManager.time_key t best)) eqn:E.
    + apply Qltb_lt in E. exists seen, []. split; [reflexivity|].
      split; [|constructor]. rewrite Hseen. apply Forall_app. split.
      * eapply Forall_impl; [|exact Hb]. intros p Hp. cbn beta in Hp.
        eapply Qlt_trans; [exact E|exact Hp].
      * constructor; [exact E|].
        eapply Forall_impl; [|exact Ha]. intros p Hp. cbn beta in Hp.
        eapply Qlt_le_trans; [exact E|exact Hp].
    + apply Qltb_ge in E. exists before, (after ++ [q]). split.
      * rewrite Hseen, <- app_assoc. reflexivity.
      * split; [exact Hb|]. apply Forall_app. split; [exact Ha|].
        constructor; [exact E|constructor].
Qed.

(** X27. The point that the plots show at a time is the first point of
    the trajectory whose distance in time to the target, the float
    [abs(time - target_time)], is smallest, provided that distance is at
    most 30; nothing is shown when the trajectory is empty or that distance
    exceeds 30 for every point. *)
Theorem displayed_sample_is_nearest (samples : list TrajectoryPoint) (target_time : Q) :
  match VisualizationManager._get_position_at_time samples target_time with
  | Some s =>
      VisualizationManager.time_key target_time s <= 30 /\
      exists before after,
        samples = before ++ s :: after /\
        Forall (fun p => VisualizationManager.time_key target_time s
                         < VisualizationManager.time_key target_time p) before /\
        Forall (fun p => VisualizationManager.time_key target_time s
                         <= VisualizationManager.time_key target_time p) after
  | None =>
      forall p, In p samples -> 30 < VisualizationManager.time_key target_time p
  end.
Proof.
  unfold VisualizationManager._get_position_at_time.
  destruct samples as [|first rest]; [intros p []|].
  destruct (closer_first_least target_time rest [first] first)
    as (before & after & Hsplit & Hb & Ha).
  { exists [], []. split; [reflexivity|]. split; constructor. }
  cbn [app] in Hsplit.
  set (c := fold_left (VisualizationManager.closer target_time) rest first) in *.
  change (Qabs (double_sub (pt_time c) target_time))
    with (VisualizationManager.time_key target_time c).
  destruct (Qle_bool (VisualizationManager.time_key target_time c) 30) eqn:E.
  - apply Qle_bool_iff in E. split; [exact E|]. exists before, after. auto.
  - apply Qle_bool_false in E. intros p Hp. rewrite Hsplit in Hp.
    apply in_app_or in Hp. rewrite Forall_forall in Hb, Ha.
    destruct Hp as [Hp|[<-|Hp]].
    + eapply Qlt_trans; [exact E|apply Hb; exact Hp].
    + exact E.
    + eapply Qlt_le_trans; [exact E|apply Ha; exact Hp].
Qed.

Lemma displayed_sample_is_nearest_demo :
  VisualizationManager._get_position_at_time primary_demo 100
    = Some (mkPoint 120 50 50 60 15 0) /\
  (forall p, In p primary_demo -> 30 < VisualizationManager.time_key 60 p) /\
  round_double (303 # 10) - round_double (3 # 10) > 30 /\
  VisualizationManager._get_position_at_time
    [mkPoint (round_double (3 # 10)) 0 0 60 15 0] (round_double (303 # 10))
    = Some (mkPoint (round_double (3 # 10)) 0 0 60 15 0).
Proof.
  split; [vm_compute; reflexivity|]. split; [|split].
  - assert (E : VisualizationManager._get_position_at_time primary_demo 60 = None)
      by (vm_compute; reflexivity).
    pose proof (displayed_sample_is_nearest primary_demo 60) as H.
    rewrite E in H. exact H.
  - vm_compute. reflexivity.
  - vm_compute. reflexivity.
Defined.

(** * The analysis of a scenario *)

Lemma all_times_In (primary_traj other_traj : list TrajectoryPoint) (t : Q) :
  In t (all_times primary_traj other_traj) ->
  exists p, (In p primary_traj \/ In p other_traj) /\ pt_time p = t.
Proof.
  unfold all_times, time_keys. intro Ht.
  apply sorted_In in Ht. apply add_key_fold_subset in Ht.
  destruct Ht as [[]|Ht]. apply in_app_or in Ht.
  destruct Ht as [Ht|Ht]; apply in_map_iff in Ht; destruct Ht as [p [Hp Hin]];
    exists p; auto.
Qed.

(** With a positive step every point of a trajectory is dated within the
    window of its mission. *)
Lemma calculate_trajectory_window sqrt atan2 fuel waypoints start_time end_time
    time_step traj :
  0 < time_step ->
  calculate_trajectory sqrt atan2 fuel waypoints start_time end_time time_step = Ok traj ->
  Forall (fun p => start_time <= pt_time p <= end_time) traj.
Proof.
  intros Hstep H.
  destruct (Nat.lt_ge_cases (length waypoints) 2) as [Hshort|Hlen].
  - rewrite (calculate_trajectory_short sqrt atan2) in H by exact Hshort.
    injection H as <-. constructor.
  - destruct (calculate_trajectory_inv _ _ _ _ _ _ _ _ Hlen H)
      as (nw & samples & Hn & Hnw & Hloop & Hend).
    destruct (sample_loop_inv sqrt atan2 nw end_time time_step Hnw fuel _ _ _ Hloop)
      as (new & Hnew & Hall & _ & Hsorted).
    cbn [app] in Hnew. subst new.
    destruct (Hsorted Hstep) as [Hfrom _].
    assert (Hin : Forall (fun p => start_time <= pt_time p <= end_time) samples).
    { apply Forall_forall. intros p Hp. rewrite Forall_forall in Hall, Hfrom.
      split; [apply Hfrom; exact Hp|apply (Hall p Hp)]. }
    destruct (ensure_end_cases _ _ _ _ Hend)
      as [[-> _]|(q & endpoint & Hq & Hqlt & -> & Ht & _)].
    + exact Hin.
    + apply Forall_app. split; [exact Hin|]. constructor; [|constructor].
      rewrite Ht. apply last_opt_In in Hq. rewrite Forall_forall in Hin.
      destruct (Hin q Hq) as [Hq1 Hq2]. split; [|apply Qle_refl].
      eapply Qle_trans; [exact Hq1|]. apply Qlt_le_weak. exact Hqlt.
Qed.

Lemma mapM_Forall2 {A B : Type} (f : A -> outcome B) (l : list A) :
  forall r, mapM f l = Ok r -> Forall2 (fun a b => f a = Ok b) l r.
Proof.
  induction l as [|a l IH]; cbn [mapM]; intros r H.
  - injection H as <-. constructor.
  - apply bind_Ok_inv in H. destruct H as [b [Hb H]].
    apply bind_Ok_inv in H. destruct H as [bs [Hbs H]].
    injection H as <-. constructor; [exact Hb|apply IH; exact Hbs].
Qed.

Lemma Forall2_In_r {A B : Type} (R : A -> B -> Prop) (l : list A) (r : list B) :
  Forall2 R l r -> forall b, In b r -> exists a, In a l /\ R a b.
Proof.
  induction 1 as [|a b l r Hab Hlr IH]; intros b' Hb'; [destruct Hb'|].
  destruct Hb' as [<-|Hb'].
  - exists a. split; [left; reflexivity|exact Hab].
  - destruct (IH b' Hb') as [a' [Ha' HR]]. exists a'. split; [right; exact Ha'|exact HR].
Qed.

Lemma mapM_returns {A B : Type} (f : A -> outcome B) (l : list A) :
  Forall (fun a => exists b, f a = Ok b) l -> exists r, mapM f l = Ok r.
Proof.
  induction 1 as [|a l [b Hb] Hl [bs Hbs]]; cbn [mapM]; [eauto|].
  rewrite Hb, bind_Ok, Hbs, bind_Ok. eauto.
Qed.

Lemma get_position_nil (target_time : Q) :
  DeconflictionEngine._get_position_at_time [] target_time = Ok None.
Proof. reflexivity. Qed.

Section Pipeline.
Variable sqrt : Q -> Q.
Variable atan2 : Q -> Q -> Q.
Variable format_description : Q -> Q -> string.

(** The three steps of the page: the primary trajectory, one trajectory
    for each other flight under its identifier, the report. *)
Lemma analyse_inv fuel primary_mission other_flights time_step safety_buffer r :
  App.analyse sqrt atan2 format_description fuel primary_mission other_flights
    time_step safety_buffer = Ok r ->
  exists primary_trajectory other_trajectories,
    calculate_trajectory sqrt atan2 fuel (m_waypoints primary_mission)
      (m_start_time primary_mission) (m_end_time primary_mission) time_step
      = Ok primary_trajectory /\
    Forall2 (fun flight f =>
               flight_id f = fp_flight_id flight /\
               calculate_trajectory sqrt atan2 fuel (fp_waypoints flight)
                 (fp_start_time flight) (fp_end_time flight) time_step
                 = Ok (trajectory f))
            other_flights other_trajectories /\
    check_conflicts sqrt format_description primary_trajectory other_trajectories
      safety_buffer = Ok r.
Proof.
  unfold App.analyse. intro H.
  apply bind_Ok_inv in H. destruct H as [primary_trajectory [Hp H]].
  apply bind_Ok_inv in H. destruct H as [other_trajectories [Ho H]].
  exists primary_trajectory, other_trajectories.
  split; [exact Hp|]. split; [|exact H].
  apply mapM_Forall2 in Ho.
  eapply Forall2_impl; [|exact Ho].
  intros flight f Hf. cbn beta in Hf.
  apply bind_Ok_inv in Hf. destruct Hf as [traj [Htraj Hf]].
  injection Hf as <-. cbn [flight_id trajectory]. split; [reflexivity|exact Htraj].
Qed.

(** X28. A conflict reported by the analysis of a scenario, run with a
    positive step, names one of the scenario's other flights, is closer
    than the safety buffer, and is dated within the window of the primary
    mission or within the window of the flight it names; the primary
    mission and that flight have at least two waypoints each. *)
Theorem analysis_conflicts_within_windows fuel primary_mission other_flights
    time_step safety_buffer r :
  0 < time_step ->
  App.analyse sqrt atan2 format_description fuel primary_mission other_flights
    time_step safety_buffer = Ok r ->
  Forall (fun c =>
            c_distance c < safety_buffer /\
            exists flight,
              In flight other_flights /\
              c_other_flight_id c = fp_flight_id flight /\
              (m_start_time primary_mission <= c_time c <= m_end_time primary_mission \/
               fp_start_time flight <= c_time c <= fp_end_time flight) /\
              (2 <= length (m_waypoints primary_mission))%nat /\
              (2 <= length (fp_waypoints flight))%nat)
         (conflicts r).
Proof.
  intros Hstep H.
  destruct (analyse_inv _ _ _ _ _ _ H) as (primary & others & Hp & Ho & Hr).
  destruct (check_conflicts_inv sqrt format_description _ _ _ _ Hr) as [Hemit _].
  pose proof (check_conflicts_provenance sqrt format_description _ _ _ _ Hr) as Hprov.
  apply Forall_forall. intros c Hc.
  rewrite Forall_forall in Hemit, Hprov.
  destruct (Hemit c Hc) as (_ & _ & Hdist & _).
  destruct (Hprov c Hc) as (f & Hf & Hid & Htime & Hpp & Hop & _).
  split; [exact Hdist|].
  destruct (Forall2_In_r _ _ _ Ho f Hf) as (flight & Hflight & Hfid & Htraj).
  exists flight. split; [exact Hflight|]. split; [congruence|].
  split; [|split].
  - destruct (all_times_In _ _ _ Htime) as (p & [Hin|Hin] & Hpt).
    + left. rewrite <- Hpt.
      pose proof (calculate_trajectory_window _ _ _ _ _ _ _ _ Hstep Hp) as Hw.
      rewrite Forall_forall in Hw. exact (Hw p Hin).
    + right. rewrite <- Hpt.
      pose proof (calculate_trajectory_window _ _ _ _ _ _ _ _ Hstep Htraj) as Hw.
      rewrite Forall_forall in Hw. exact (Hw p Hin).
  - destruct (Nat.lt_ge_cases (length (m_waypoints primary_mission)) 2)
      as [Hshort|Hlen]; [|exact Hlen].
    rewrite (calculate_trajectory_short sqrt atan2) in Hp by exact Hshort.
    injection Hp as <-. rewrite get_position_nil in Hpp. discriminate.
  - destruct (Nat.lt_ge_cases (length (fp_waypoints flight)) 2)
      as [Hshort|Hlen]; [|exact Hlen].
    rewrite (calculate_trajectory_short sqrt atan2) in Htraj by exact Hshort.
    injection Htraj as Htraj. rewrite <- Htraj in Hop.
    rewrite get_position_nil in Hop. discriminate.
Qed.

(** X29. Missions with fewer than two waypoints have no trajectory, so
    nothing is compared.  When the primary mission has fewer than two
    waypoints, the analysis returns the empty report (safe, no conflict,
    no check) as soon as the trajectory of every other flight is
    computed; so it does when every other flight has fewer than two
    waypoints and the trajectory of the primary mission is computed. *)
Theorem short_missions_give_empty_report fuel primary_mission other_flights time_step
    safety_buffer :
  ((length (m_waypoints primary_mission) < 2)%nat ->
   Forall (fun flight =>
             exists traj,
               calculate_trajectory sqrt atan2 fuel (fp_waypoints flight)
                 (fp_start_time flight) (fp_end_time flight) time_step = Ok traj)
          other_flights ->
   App.analyse sqrt atan2 format_description fuel primary_mission other_flights
     time_step safety_buffer = Ok empty_report) /\
  (Forall (fun flight => (length (fp_waypoints flight) < 2)%nat) other_flights ->
   (exists traj,
       calculate_trajectory sqrt atan2 fuel (m_waypoints primary_mission)
         (m_start_time primary_mission) (m_end_time primary_mission) time_step
         = Ok traj) ->
   App.analyse sqrt atan2 format_description fuel primary_mission other_flights
     time_step safety_buffer = Ok empty_report).
Proof.
  split.
  - intros Hshort Hothers. unfold App.analyse.
    rewrite (calculate_trajectory_short sqrt atan2) by exact Hshort.
    rewrite bind_Ok.
    destruct (mapM_returns
                (fun flight =>
                   traj <- calculate_trajectory sqrt atan2 fuel (fp_waypoints flight)
                             (fp_start_time flight) (fp_end_time flight) time_step ;;
                   Ok {| flight_id := fp_flight_id flight; trajectory := traj |})
                other_flights) as [others Ho].
    { eapply Forall_impl; [|exact Hothers]. intros flight [traj Ht]. cbn beta.
      rewrite Ht, bind_Ok. eauto. }
    rewrite Ho, bind_Ok. unfold check_conflicts.
    rewrite (check_flights_skips sqrt format_description [] others safety_buffer)
      by (left; reflexivity).
    reflexivity.
  - intros Hshort [primary Hp]. unfold App.analyse.
    rewrite Hp, bind_Ok.
    assert (Ho : mapM
                   (fun flight =>
                      traj <- calculate_trajectory sqrt atan2 fuel (fp_waypoints flight)
                                (fp_start_time flight) (fp_end_time flight) time_step ;;
                      Ok {| flight_id := fp_flight_id flight; trajectory := traj |})
                   other_flights
                 = Ok (map (fun flight =>
                              {| flight_id := fp_flight_id flight; trajectory := [] |})
                           other_flights)).
    { apply mapM_Ok_map. intros flight Hin. rewrite Forall_forall in Hshort.
      rewrite (calculate_trajectory_short sqrt atan2) by (apply Hshort; exact Hin).
      reflexivity. }
    rewrite Ho, bind_Ok. unfold check_conflicts.
    rewrite (check_flights_skips sqrt format_description primary _ safety_buffer).
    + reflexivity.
    + right. apply Forall_map. apply Forall_forall. intros flight _. reflexivity.
Qed.

End Pipeline.

Lemma analysis_conflicts_within_windows_demo :
  exists r,
    App.analyse sqrt_floor atan2_axes describe 3 mission_demo plans_demo 25 50 = Ok r /\
    conflicts r <> [] /\
    Forall (fun c =>
              c_distance c < 50 /\
              exists flight,
                In flight plans_demo /\
                c_other_flight_id c = fp_flight_id flight /\
                (100 <= c_time c <= 160 \/
                 fp_start_time flight <= c_time c <= fp_end_time flight) /\
                (2 <= length waypoints_demo)%nat /\
                (2 <= length (fp_waypoints flight))%nat)
           (conflicts r).
Proof.
  destruct (App.analyse sqrt_floor atan2_axes describe 3 mission_demo plans_demo 25 50)
    as [r| |] eqn:E; try (vm_compute in E; discriminate).
  exists r. split; [reflexivity|]. split.
  - vm_compute in E. injection E as <-. discriminate.
  - apply (analysis_conflicts_within_windows sqrt_floor atan2_axes describe 3%nat
             mission_demo plans_demo 25 50 r); [reflexivity|exact E].
Defined.

Lemma short_missions_give_empty_report_demo :
  App.analyse sqrt_floor atan2_axes describe 13
    (mkMission [mkWaypoint 0 0 (Some 60) (Some 0)] 0 300) plans_demo 25 50
    = Ok empty_report /\
  App.analyse sqrt_floor atan2_axes describe 13 mission_demo
    [mkFlightPlan "F2" [mkWaypoint 0 0 (Some 60) None] 0 300] 25 50
    = Ok empty_report.
Proof.
  split.
  - apply (proj1 (short_missions_give_empty_report sqrt_floor atan2_axes describe 13%nat
                    (mkMission [mkWaypoint 0 0 (Some 60) (Some 0)] 0 300) plans_demo
                    25 50)).
    + cbn. lia.
    + repeat constructor; eexists; vm_compute; reflexivity.
  - apply (proj2 (short_missions_give_empty_report sqrt_floor atan2_axes describe 13%nat
                    mission_demo
                    [mkFlightPlan "F2" [mkWaypoint 0 0 (Some 60) None] 0 300] 25 50)).
    + repeat constructor.
    + eexists. vm_compute. reflexivity.
Defined.

(** * Metrics of a flight *)

Lemma float_min2_finite (a b : Q) :
  float_min2 (Finite a) (Finite b) = Finite (py_min2 a b).
Proof. unfold float_min2, py_min2, float_ltb. destruct (Qltb b a); reflexivity. Qed.

Lemma float_max2_finite (a b : Q) :
  float_max2 (Finite a) (Finite b) = Finite (py_max2 a b).
Proof. unfold float_max2, py_max2, float_ltb. destruct (Qltb a b); reflexivity. Qed.

Lemma fold_float_min_finite (l : list Q) :
  forall a,
    fold_left float_min2 (map Finite l) (Finite a) = Finite (fold_left py_min2 l a).
Proof.
  induction l as [|b l IH]; intro a; cbn [map fold_left]; [reflexivity|].
  rewrite float_min2_finite. apply IH.
Qed.

Lemma fold_float_max_finite (l : list Q) :
  forall a,
    fold_left float_max2 (map Finite l) (Finite a) = Finite (fold_left py_max2 l a).
Proof.
  induction l as [|b l IH]; intro a; cbn [map fold_left]; [reflexivity|].
  rewrite float_max2_finite. apply IH.
Qed.

Section FlightMetricsFacts.
Variable sqrt : Q -> Q.
Hypothesis sqrt_nonneg : forall q, 0 <= sqrt q.

(** The loop never raises: it divides by positive durations only.  The
    altitude bounds fold over every point but the last. *)
Lemma flight_metrics_loop_spec (points : list TrajectoryPoint) :
  forall total_distance max_speed min_altitude max_altitude,
  exists total_distance' max_speed',
    flight_metrics_loop sqrt points total_distance max_speed min_altitude max_altitude =
      Ok (total_distance', max_speed',
          fold_left float_min2 (map (fun p => Finite (pt_z p)) (removelast points))
            min_altitude,
          fold_left float_max2 (map (fun p => Finite (pt_z p)) (removelast points))
            max_altitude) /\
    total_distance <= total_distance' /\ max_speed <= max_speed'.
Proof using sqrt_nonneg.
  induction points as [|p1 rest IH]; intros td ms mn mx.
  - exists td, ms. split; [reflexivity|]. split; apply Qle_refl.
  - destruct rest as [|p2 rest].
    + exists td, ms. split; [reflexivity|]. split; apply Qle_refl.
    + change (removelast (p1 :: p2 :: rest)) with (p1 :: removelast (p2 :: rest)).
      cbn [map fold_left].
      change (flight_metrics_loop sqrt (p1 :: p2 :: rest) td ms mn mx)
        with (max_speed <-
                (if Qltb 0 (pt_time p2 - pt_time p1) then
                   speed <- py_div (calculate_distance_3d sqrt (Sample p1) (Sample p2))
                              (pt_time p2 - pt_time p1) ;;
                   Ok (py_max2 ms speed)
                 else Ok ms) ;;
              flight_metrics_loop sqrt (p2 :: rest)
                (td + calculate_distance_3d sqrt (Sample p1) (Sample p2)) max_speed
                (float_min2 mn (Finite (pt_z p1))) (float_max2 mx (Finite (pt_z p1)))).
      assert (Hd : 0 <= calculate_distance_3d sqrt (Sample p1) (Sample p2)).
      { unfold calculate_distance_3d. apply sqrt_nonneg. }
      assert (Hspeed : exists ms',
                 (if Qltb 0 (pt_time p2 - pt_time p1) then
                    speed <- py_div (calculate_distance_3d sqrt (Sample p1) (Sample p2))
                               (pt_time p2 - pt_time p1) ;;
                    Ok (py_max2 ms speed)
                  else Ok ms) = Ok ms' /\ ms <= ms').
      { destruct (Qltb 0 (pt_time p2 - pt_time p1)) eqn:E.
        - apply Qltb_lt in E. rewrite py_div_Ok, bind_Ok.
          + eexists. split; [reflexivity|apply py_max2_lower].
          + intro H0. rewrite H0 in E. apply (Qlt_irrefl 0). exact E.
        - exists ms. split; [reflexivity|apply Qle_refl]. }
      destruct Hspeed as [ms' [-> Hms]]. rewrite bind_Ok.
      destruct (IH (td + calculate_distance_3d sqrt (Sample p1) (Sample p2)) ms'
                  (float_min2 mn (Finite (pt_z p1))) (float_max2 mx (Finite (pt_z p1))))
        as (td'' & ms'' & Heq & Htd & Hms').
      exists td'', ms''. split; [exact Heq|]. split.
      * eapply Qle_trans; [|exact Htd].
        rewrite <- (Qplus_0_r td) at 1. apply Qplus_le_compat; [apply Qle_refl|exact Hd].
      * eapply Qle_trans; [exact Hms|exact Hms'].
Qed.

(** X30. [calculate_flight_metrics] never raises.  It returns the empty
    dictionary for fewer than two points.  Otherwise the altitude bounds
    are finite, are altitudes of the trajectory and bound every altitude,
    the altitude range is their difference, the duration is the time of
    the last point minus that of the first, the average speed is the
    distance over the duration when the duration is positive and 0
    otherwise, and neither the distance nor the greatest speed is
    negative. *)
Theorem flight_metrics_of_trajectory (points : list TrajectoryPoint) :
  ((length points < 2)%nat -> calculate_flight_metrics sqrt points = Ok None) /\
  ((2 <= length points)%nat ->
   exists m first final lo hi,
     calculate_flight_metrics sqrt points = Ok (Some m) /\
     hd_error points = Some first /\ last_opt points = Some final /\
     fm_min_altitude m = Finite lo /\ fm_max_altitude m = Finite hi /\
     fm_altitude_range m = Finite (hi - lo) /\
     In lo (map pt_z points) /\ In hi (map pt_z points) /\
     Forall (fun p => lo <= pt_z p <= hi) points /\
     fm_duration m = pt_time final - pt_time first /\
     (0 < fm_duration m ->
      fm_average_speed m = fm_total_distance m / fm_duration m) /\
     (fm_duration m <= 0 -> fm_average_speed m = 0) /\
     0 <= fm_total_distance m /\ 0 <= fm_max_speed m /\
     fm_total_waypoints m = length points).
Proof using sqrt_nonneg.
  split.
  - intro Hshort. unfold calculate_flight_metrics.
    apply Nat.ltb_lt in Hshort. rewrite Hshort. reflexivity.
  - intro Hlen. unfold calculate_flight_metrics.
    assert (E : (length points <? 2)%nat = false) by (apply Nat.ltb_ge; lia).
    rewrite E. clear E.
    destruct (split_ends points Hlen) as (first & mid & final & ->).
    destruct (flight_metrics_loop_spec (first :: mid ++ [final]) 0 0 PosInf NegInf)
      as (td & ms & Hloop & Htd & Hms).
    assert (Hrl : removelast (first :: mid ++ [final]) = first :: mid).
    { change (first :: mid ++ [final]) with ((first :: mid) ++ [final]).
      apply removelast_last. }
    rewrite Hrl in Hloop. cbn [map fold_left] in Hloop.
    change (float_min2 PosInf (Finite (pt_z first))) with (Finite (pt_z first)) in Hloop.
    change (float_max2 NegInf (Finite (pt_z first))) with (Finite (pt_z first)) in Hloop.
    rewrite <- (map_map pt_z Finite mid) in Hloop.
    rewrite fold_float_min_finite, fold_float_max_finite in Hloop.
    rewrite Hloop, bind_Ok. cbv beta iota zeta.
    rewrite last_opt_ends. cbv beta iota zeta.
    rewrite float_min2_finite, float_max2_finite.
    set (zs := map pt_z mid ++ [pt_z final]).
    assert (Hlo : py_min2 (fold_left py_min2 (map pt_z mid) (pt_z first)) (pt_z final)
                  = fold_left py_min2 zs (pt_z first)).
    { unfold zs. rewrite fold_left_app. reflexivity. }
    assert (Hhi : py_max2 (fold_left py_max2 (map pt_z mid) (pt_z first)) (pt_z final)
                  = fold_left py_max2 zs (pt_z first)).
    { unfold zs. rewrite fold_left_app. reflexivity. }
    rewrite Hlo, Hhi.
    assert (Hzs : map pt_z (first :: mid ++ [final]) = pt_z first :: zs).
    { unfold zs. cbn [map]. rewrite map_app. reflexivity. }
    destruct (fold_min_spec zs (pt_z first)) as [Hlo_in Hlo_le].
    destruct (fold_max_spec zs (pt_z first)) as [Hhi_in Hhi_ge].
    assert (Havg : exists avg,
               (if Qltb 0 (pt_time final - pt_time first)
                then py_div td (pt_time final - pt_time first) else Ok 0) = Ok avg /\
               (0 < pt_time final - pt_time first ->
                avg = td / (pt_time final - pt_time first)) /\
               (pt_time final - pt_time first <= 0 -> avg = 0)).
    { destruct (Qltb 0 (pt_time final - pt_time first)) eqn:E.
      - apply Qltb_lt in E. rewrite py_div_Ok.
        + eexists. split; [reflexivity|]. split; [reflexivity|].
          intro Hle. exfalso. apply (Qlt_irrefl 0).
          eapply Qlt_le_trans; [exact E|exact Hle].
        + intro H0. rewrite H0 in E. apply (Qlt_irrefl 0). exact E.
      - apply Qltb_ge in E. exists 0. split; [reflexivity|]. split; [|reflexivity].
        intro Hlt. exfalso. apply (Qlt_irrefl 0).
        eapply Qlt_le_trans; [exact Hlt|exact E]. }
    destruct Havg as (avg & -> & Hpos & Hnonpos). rewrite bind_Ok.
    eexists. exists first, final.
    exists (fold_left py_min2 zs (pt_z first)), (fold_left py_max2 zs (pt_z first)).
    split; [reflexivity|].
    cbn [fm_total_distance fm_duration fm_average_speed fm_max_speed fm_min_altitude
         fm_max_altitude fm_altitude_range fm_total_waypoints float_sub hd_error].
    split; [reflexivity|]. split; [reflexivity|].
    split; [reflexivity|]. split; [reflexivity|]. split; [reflexivity|].
    split; [rewrite Hzs; exact Hlo_in|]. split; [rewrite Hzs; exact Hhi_in|].
    split.
    { apply Forall_forall. intros p Hp.
      assert (Hz : In (pt_z p) (pt_z first :: zs)).
      { rewrite <- Hzs. apply in_map. exact Hp. }
      split; [apply Hlo_le; exact Hz|apply Hhi_ge; exact Hz]. }
    split; [reflexivity|]. split; [exact Hpos|]. split; [exact Hnonpos|].
    split; [exact Htd|]. split; [exact Hms|reflexivity].
Qed.

End FlightMetricsFacts.

Lemma flight_metrics_of_trajectory_demo :
  calculate_flight_metrics sqrt_floor [] = Ok None /\
  exists m,
    calculate_flight_metrics sqrt_floor zigzag_demo = Ok (Some m) /\
    fm_min_altitude m = Finite 60 /\ fm_max_altitude m = Finite 80 /\
    fm_altitude_range m = Finite (80 - 60) /\
    fm_duration m = 15 - 0 /\
    fm_total_waypoints m = 4%nat.
Proof.
  split.
  - apply (proj1 (flight_metrics_of_trajectory sqrt_floor sqrt_floor_nonneg [])).
    cbn. lia.
  - destruct (proj2 (flight_metrics_of_trajectory sqrt_floor sqrt_floor_nonneg
                       zigzag_demo))
      as (m & first & final & lo & hi & Hm & Hfirst & Hfinal & Hlo & Hhi & Hrange &
          _ & _ & _ & Hdur & _ & _ & _ & _ & Hn).
    + cbn. lia.
    + exists m.
      assert (Em : calculate_flight_metrics sqrt_floor zigzag_demo
                   = Ok (Some m)) by exact Hm.
      vm_compute in Em. injection Em as <-.
      split; [exact Hm|]. repeat split.
Defined.
